(** * EduLingua grammar-correction pipeline: a shallow embedding

    The development embeds the correction core of the backend
    (core/sentence_structure.py, core/grammar_analysis.py,
    core/grammar_corrector.py, core/contextual_grammar.py,
    core/ai_service.py and core/explanation_engine.py) and states its
    properties.

    Conventions of the embedding.
    - Python [str] values are [string]s; the case and white-space
      predicates are Python's on the 7-bit range (white space also on
      0x85 and 0xA0), characters above 0x7F are treated as caseless,
      and [\w] is [A-Za-z0-9_].
    - An environment is the libraries as they answer during one call;
      where two calls are compared, each has its own.
    - Offsets are [Z], because [str.find] answers -1.
    - Dictionaries with optional keys are records with [option] fields.
    - The NLTK, TextBlob, spaCy, transformers, OpenAI and LanguageTool
      libraries are not part of the repository: they are the fields of
      an environment record [Env].  The NLTK and TextBlob calls are
      taken to return; a model, the AI client and LanguageTool may fail.
    - A Python exception is the [Raised] constructor of [result].
    - What a statement assumes of a library function at some argument
      is moved into the environment by functional extensionality, the
      one axiom in use. *)

From Stdlib Require Import String Ascii List ZArith Lia Bool Arith DecimalString.
From Stdlib Require Import FunctionalExtensionality Permutation.
Import ListNotations.
Open Scope string_scope.
Open Scope nat_scope.

(** ** Python string primitives *)

Module Py.

Definition code (c : ascii) : nat := nat_of_ascii c.

(** [str.isspace] on one character. *)
Definition isspace (c : ascii) : bool :=
  let n := code c in
  ((9 <=? n) && (n <=? 13)) || ((28 <=? n) && (n <=? 32))
  || (n =? 133) || (n =? 160).

Definition isupper (c : ascii) : bool :=
  let n := code c in (65 <=? n) && (n <=? 90).

Definition islower (c : ascii) : bool :=
  let n := code c in (97 <=? n) && (n <=? 122).

Definition isdigit (c : ascii) : bool :=
  let n := code c in (48 <=? n) && (n <=? 57).

Definition upper_char (c : ascii) : ascii :=
  if islower c then ascii_of_nat (code c - 32) else c.

Definition lower_char (c : ascii) : ascii :=
  if isupper c then ascii_of_nat (code c + 32) else c.

Fixpoint map_str (f : ascii -> ascii) (s : string) : string :=
  match s with
  | EmptyString => EmptyString
  | String c s' => String (f c) (map_str f s')
  end.

Definition lower : string -> string := map_str lower_char.
Definition upper : string -> string := map_str upper_char.

(** [s.capitalize()] *)
Definition capitalize (s : string) : string :=
  match s with
  | EmptyString => EmptyString
  | String c s' => String (upper_char c) (lower s')
  end.

(** [s[0].upper() + s[1:]] *)
Definition upper_first (s : string) : string :=
  match s with
  | EmptyString => EmptyString
  | String c s' => String (upper_char c) s'
  end.

(** [s[0].isupper()], [s[0].islower()] on a non-empty string. *)
Definition first_isupper (s : string) : bool :=
  match s with String c _ => isupper c | EmptyString => false end.

Definition first_islower (s : string) : bool :=
  match s with String c _ => islower c | EmptyString => false end.

Fixpoint lstrip (s : string) : string :=
  match s with
  | EmptyString => EmptyString
  | String c s' => if isspace c then lstrip s' else s
  end.

Fixpoint rstrip (s : string) : string :=
  match s with
  | EmptyString => EmptyString
  | String c s' =>
      match rstrip s' with
      | EmptyString => if isspace c then EmptyString else String c EmptyString
      | r => String c r
      end
  end.

(** [s.strip()] *)
Definition strip (s : string) : string := rstrip (lstrip s).

Definition is_empty (s : string) : bool :=
  match s with EmptyString => true | _ => false end.

(** [not text or not text.strip()] *)
Definition blank (s : string) : bool := is_empty s || is_empty (strip s).

(** The text is empty or consists of white space only. *)
Fixpoint all_space (s : string) : bool :=
  match s with
  | EmptyString => true
  | String c s' => isspace c && all_space s'
  end.

Fixpoint last_char (s : string) : option ascii :=
  match s with
  | EmptyString => None
  | String c EmptyString => Some c
  | String _ s' => last_char s'
  end.

Fixpoint mem_char (c : ascii) (s : string) : bool :=
  match s with
  | EmptyString => false
  | String d s' => Ascii.eqb c d || mem_char c s'
  end.

(** [s[-1] in '.!?'] *)
Definition ends_terminal (s : string) : bool :=
  match last_char s with Some c => mem_char c ".!?" | None => false end.

(** [s.endswith('.')] *)
Definition endswith_dot (s : string) : bool :=
  match last_char s with Some c => Ascii.eqb c "."%char | None => false end.

Fixpoint starts_with (p s : string) : bool :=
  match p, s with
  | EmptyString, _ => true
  | String a p', String b s' => Ascii.eqb a b && starts_with p' s'
  | String _ _, EmptyString => false
  end.

Fixpoint drop (n : nat) (s : string) : string :=
  match n, s with
  | O, _ => s
  | S n', String _ s' => drop n' s'
  | S _, EmptyString => EmptyString
  end.

Fixpoint take (n : nat) (s : string) : string :=
  match n, s with
  | O, _ => EmptyString
  | S n', String c s' => String c (take n' s')
  | S _, EmptyString => EmptyString
  end.

(** [s[a:b]] for non-negative [a <= b]. *)
Definition slice (a b : nat) (s : string) : string := take (b - a) (drop a s).

(** [s[-n:]] *)
Definition last_n (n : nat) (s : string) : string := drop (String.length s - n) s.

(** [s.find(sub)], as an option; [findZ] is Python's answer. *)
Fixpoint find (sub s : string) : option nat :=
  if starts_with sub s then Some O
  else match s with
       | EmptyString => None
       | String _ s' => option_map S (find sub s')
       end.

Definition findZ (sub s : string) : Z :=
  match find sub s with Some n => Z.of_nat n | None => (-1)%Z end.

(** [sub in s] *)
Definition contains (sub s : string) : bool :=
  match find sub s with Some _ => true | None => false end.

(** [s.replace(old, new, 1)] *)
Fixpoint replace_first (old new s : string) : string :=
  if starts_with old s then new ++ drop (String.length old) s
  else match s with
       | EmptyString => EmptyString
       | String c s' => String c (replace_first old new s')
       end.

(** [s.replace(old, new)] for a non-empty [old]: [skip] counts the
    characters of the current occurrence still to be dropped. *)
Fixpoint replace_all_aux (old new s : string) (skip : nat) : string :=
  match s with
  | EmptyString => EmptyString
  | String c s' =>
      match skip with
      | S k => replace_all_aux old new s' k
      | O => if starts_with old s
             then new ++ replace_all_aux old new s' (String.length old - 1)
             else String c (replace_all_aux old new s' O)
      end
  end.

Definition replace_all (old new s : string) : string :=
  replace_all_aux old new s O.

(** [s.count(c)] for a single character. *)
Fixpoint count_char (c : ascii) (s : string) : nat :=
  match s with
  | EmptyString => O
  | String d s' => (if Ascii.eqb c d then 1 else 0) + count_char c s'
  end.

(** [s.split()] *)
Fixpoint split_aux (s cur : string) : list string :=
  match s with
  | EmptyString => if is_empty cur then [] else [cur]
  | String c s' =>
      if isspace c
      then (if is_empty cur then split_aux s' "" else cur :: split_aux s' "")
      else split_aux s' (cur ++ String c "")
  end.

Definition split (s : string) : list string := split_aux s "".

(** [' '.join(l)] *)
Fixpoint join_space (l : list string) : string :=
  match l with
  | [] => ""
  | [x] => x
  | x :: l' => x ++ " " ++ join_space l'
  end.

Definition str_in (s : string) (l : list string) : bool :=
  existsb (String.eqb s) l.

End Py.

(** ** The fragment of Python's [re] the sources use

    Quantifiers occur in the sources only on character classes
    ([\s+], [\w+], [\s{2,}], [.*]) and as one optional group, so the
    syntax has a greedy class repetition and an option.  Matching is
    backtracking with continuations, in Python's order: alternatives
    left to right, repetitions longest first. *)

Module Re.

Inductive regex : Type :=
| Chr (c : ascii)
| Rep (p : ascii -> bool) (min : nat)
| Seq (r1 r2 : regex)
| Alt (r1 r2 : regex)
| Opt (r : regex)
| Grp (n : nat) (r : regex)
| Bol
| Eol
| WordB
| Eps.

Record rstate : Type := mkState {
  rs_pos : nat;
  rs_prev : option ascii;
  rs_rest : string;
  rs_caps : list (nat * string)
}.

Record rmatch : Type := mkMatch {
  m_start : nat;
  m_end : nat;
  m_text : string;
  m_caps : list (nat * string)
}.

(** [\w], [\s] and [.] *)
Definition word (c : ascii) : bool :=
  Py.isupper c || Py.islower c || Py.isdigit c || Ascii.eqb c "_"%char.

Definition space : ascii -> bool := Py.isspace.

Definition dot (c : ascii) : bool := negb (Ascii.eqb c "010"%char).

Definition is_word_opt (o : option ascii) : bool :=
  match o with Some c => word c | None => false end.

Definition next_char (s : string) : option ascii :=
  match s with String c _ => Some c | EmptyString => None end.

Fixpoint rep (p : ascii -> bool) (min pos : nat) (prev : option ascii)
    (rest : string) (caps : list (nat * string))
    (k : rstate -> option rstate) : option rstate :=
  let stop := if Nat.eqb min 0 then k (mkState pos prev rest caps) else None in
  match rest with
  | String c rest' =>
      if p c
      then match rep p (Nat.pred min) (S pos) (Some c) rest' caps k with
           | Some r => Some r
           | None => stop
           end
      else stop
  | EmptyString => stop
  end.

(** [ic] is the IGNORECASE flag. *)
Fixpoint run (ic : bool) (r : regex) (st : rstate)
    (k : rstate -> option rstate) : option rstate :=
  match r with
  | Chr c =>
      match rs_rest st with
      | String a rest' =>
          if (if ic then Ascii.eqb (Py.lower_char a) (Py.lower_char c)
              else Ascii.eqb a c)
          then k (mkState (S (rs_pos st)) (Some a) rest' (rs_caps st))
          else None
      | EmptyString => None
      end
  | Rep p min => rep p min (rs_pos st) (rs_prev st) (rs_rest st) (rs_caps st) k
  | Seq r1 r2 => run ic r1 st (fun st' => run ic r2 st' k)
  | Alt r1 r2 =>
      match run ic r1 st k with
      | Some x => Some x
      | None => run ic r2 st k
      end
  | Opt r1 =>
      match run ic r1 st k with
      | Some x => Some x
      | None => k st
      end
  | Grp n r1 =>
      run ic r1 st (fun st' =>
        k (mkState (rs_pos st') (rs_prev st') (rs_rest st')
             ((n, Py.take (rs_pos st' - rs_pos st) (rs_rest st)) :: rs_caps st')))
  | Bol => if Nat.eqb (rs_pos st) 0 then k st else None
  | Eol =>
      match rs_rest st with
      | EmptyString => k st
      | String c EmptyString => if Ascii.eqb c "010"%char then k st else None
      | _ => None
      end
  | WordB =>
      if xorb (is_word_opt (rs_prev st)) (is_word_opt (next_char (rs_rest st)))
      then k st else None
  | Eps => k st
  end.

(** A literal word, and an alternative of literal words. *)
Fixpoint lit (s : string) : regex :=
  match s with
  | EmptyString => Eps
  | String c EmptyString => Chr c
  | String c s' => Seq (Chr c) (lit s')
  end.

Fixpoint alts (l : list string) : regex :=
  match l with
  | [] => Eps
  | [x] => lit x
  | x :: l' => Alt (lit x) (alts l')
  end.

Fixpoint seqs (l : list regex) : regex :=
  match l with
  | [] => Eps
  | [x] => x
  | x :: l' => Seq x (seqs l')
  end.

Definition try_at (ic : bool) (r : regex) (pos : nat) (prev : option ascii)
    (rest : string) : option (rmatch * rstate) :=
  match run ic r (mkState pos prev rest []) (fun st => Some st) with
  | Some st' =>
      Some (mkMatch pos (rs_pos st') (Py.take (rs_pos st' - pos) rest) (rs_caps st'),
            st')
  | None => None
  end.

(** [re.match(r, s)] *)
Definition rmatch_at_start (ic : bool) (r : regex) (s : string) : option rmatch :=
  option_map fst (try_at ic r 0 None s).

Definition matches (ic : bool) (r : regex) (s : string) : bool :=
  match rmatch_at_start ic r s with Some _ => true | None => false end.

(** [m.group(n)] *)
Fixpoint group (n : nat) (caps : list (nat * string)) : option string :=
  match caps with
  | [] => None
  | (i, s) :: caps' => if Nat.eqb i n then Some s else group n caps'
  end.

(** [re.search] from a position on. *)
Fixpoint search_from (ic : bool) (r : regex) (pos : nat) (prev : option ascii)
    (rest : string) : option (rmatch * rstate) :=
  match try_at ic r pos prev rest with
  | Some x => Some x
  | None =>
      match rest with
      | EmptyString => None
      | String c rest' => search_from ic r (S pos) (Some c) rest'
      end
  end.

Definition search (ic : bool) (r : regex) (s : string) : option rmatch :=
  option_map fst (search_from ic r 0 None s).

(** [re.finditer]: after a non-empty match the scan resumes at its end,
    after an empty one a character further. *)
Fixpoint finditer_aux (fuel : nat) (ic : bool) (r : regex) (pos : nat)
    (prev : option ascii) (rest : string) : list rmatch :=
  match fuel with
  | O => []
  | S fuel' =>
      match search_from ic r pos prev rest with
      | None => []
      | Some (m, st) =>
          if Nat.ltb (m_start m) (m_end m)
          then m :: finditer_aux fuel' ic r (rs_pos st) (rs_prev st) (rs_rest st)
          else match rs_rest st with
               | EmptyString => [m]
               | String c rest' =>
                   m :: finditer_aux fuel' ic r (S (rs_pos st)) (Some c) rest'
               end
      end
  end.

Definition finditer (ic : bool) (r : regex) (s : string) : list rmatch :=
  finditer_aux (S (String.length s)) ic r 0 None s.

End Re.

(** ** Data model *)

Inductive exn : Type := IndexError | KeyError.

Inductive result (A : Type) : Type :=
| Ok (a : A)
| Raised (e : exn).

Arguments Ok {A} a.
Arguments Raised {A} e.

Definition bind {A B : Type} (m : result A) (f : A -> result B) : result B :=
  match m with
  | Ok a => f a
  | Raised e => Raised e
  end.

Notation "x <- m ;; k" := (bind m (fun x => k))
  (at level 61, m at next level, right associativity).

(** An error dictionary of the detectors.  Structure errors carry
    [sentence] and [suggestion]; lexical errors carry [start], [end],
    [text] and [correction]; the parser-based ones carry both. *)
Record Finding : Type := mkFinding {
  f_type : string;
  f_message : string;
  f_sentence : option string;
  f_start : option Z;
  f_end : option Z;
  f_text : option string;
  f_severity : string;
  f_suggestion : option string;
  f_correction : option string
}.

(** An entry of a [changes] list. *)
Record Change : Type := mkChange {
  ch_type : string;
  ch_original : string;
  ch_corrected : string;
  ch_message : option string;
  ch_errors_fixed : option (list string)
}.

(** An entry of the [corrections] list of [analyze_sentence_structure]. *)
Record Correction : Type := mkCorrection {
  co_original : string;
  co_corrected : string;
  co_errors : list string
}.

(** The dictionary [correct_sentence_structure] returns. *)
Record StructureResult : Type := mkStructureResult {
  sr_original : string;
  sr_corrected : string;
  sr_changes : list Change;
  sr_errors_found : option nat;
  sr_structure_errors : option (list Finding)
}.

(** The dictionary [correct_grammar] returns; [errors_found] and
    [method] are absent on some paths. *)
Record GrammarResult : Type := mkGrammarResult {
  gr_original : string;
  gr_corrected : string;
  gr_changes : list Change;
  gr_errors_found : option nat;
  gr_method : option string
}.

(** The dictionary [correct_text] returns. *)
Record TextResult : Type := mkTextResult {
  tr_original : string;
  tr_corrected : string;
  tr_method : string
}.

(** A spaCy token: [text], [pos_], [dep_] and [idx]. *)
Record Token : Type := mkToken {
  tok_text : string;
  tok_pos : string;
  tok_dep : string;
  tok_idx : nat
}.

(** What [load_grammar_model] leaves behind in grammar_corrector.py:
    nothing usable, the text2text pipeline, or tokenizer and model
    loaded by hand.  A pipeline answers a list of dictionaries with an
    optional [generated_text]; [None] stands for a raised exception. *)
Inductive GrammarModel : Type :=
| ModelUnavailable
| ModelPipeline (run : string -> option (list (option string)))
| ModelManual (generate : string -> option string).

(** A LanguageTool match. *)
Record LTMatch : Type := mkLTMatch {
  lt_message : string;
  lt_replacements : list string;
  lt_context : string;
  lt_offset : nat;
  lt_errorLength : nat;
  lt_ruleId : string;
  lt_category : string
}.

(** The libraries the pipeline calls. *)
Record Env : Type := mkEnv {
  (* nltk *)
  sent_tokenize : string -> list string;
  word_tokenize : string -> list string;
  pos_tag : list string -> option (list (string * string));
  (* str(TextBlob(s).correct()) *)
  textblob_correct : string -> string;
  (* the module-level [nlp] of sentence_structure.py and of
     grammar_analysis.py *)
  nlp_structure : option (string -> list Token);
  nlp_grammar : option (string -> list Token);
  (* the module-level t5-base [corrector] of grammar_analysis.py *)
  corrector : option (string -> option (list (option string)));
  (* TRANSFORMERS_AVAILABLE, load_grammar_model() and the globals it sets *)
  grammar_model : GrammarModel;
  (* get_client(), with OPENAI_AVAILABLE and API_KEY; the client maps
     a prompt and a system prompt to the content of the first choice,
     [None] when the call raises or has no choice *)
  ai_client : option (string -> string -> option string);
  (* language_tool_python.LanguageTool('en-US'), [None] when the import
     or the constructor fails; [check] may raise *)
  language_tool_loader : option (string -> option (list LTMatch));
  (* the order in which [list(set(l))] enumerates the distinct members
     of [l] in this process *)
  set_order : list string -> list string
}.

Definition orelse (o : option string) (d : string) : string :=
  match o with Some s => s | None => d end.

Definition nonempty (s : string) : bool := negb (Py.is_empty s).

Infix "==" := String.eqb (at level 70, no associativity).

(** ** core/sentence_structure.py *)

Definition sp : Re.regex := Re.Rep Re.space 1.
Definition w : Re.regex := Re.Rep Re.word 1.
Definition gw (n : nat) : Re.regex := Re.Grp n w.

(** [m.group(n)] of a group that took part in the match. *)
Definition grp (n : nat) (m : Re.rmatch) : string :=
  orelse (Re.group n (Re.m_caps m)) "".

(* ^i\s+\w+\s+name   and   ^i\s+(\w+)\s+name *)
Definition re_i_w_name : Re.regex :=
  Re.seqs [Re.Bol; Re.lit "i"; sp; w; sp; Re.lit "name"].
Definition re_i_gw_name : Re.regex :=
  Re.seqs [Re.Bol; Re.lit "i"; sp; gw 1; sp; Re.lit "name"].
(* ^\w+\s+name$   and   ^(\w+)\s+name$ *)
Definition re_w_name : Re.regex :=
  Re.seqs [Re.Bol; w; sp; Re.lit "name"; Re.Eol].
Definition re_gw_name : Re.regex :=
  Re.seqs [Re.Bol; gw 1; sp; Re.lit "name"; Re.Eol].
(* ^name\s+\w+$   and   ^name\s+(\w+)$ *)
Definition re_name_w : Re.regex :=
  Re.seqs [Re.Bol; Re.lit "name"; sp; w; Re.Eol].
Definition re_name_gw : Re.regex :=
  Re.seqs [Re.Bol; Re.lit "name"; sp; gw 1; Re.Eol].
(* ^name\s+\w+\s+i$ *)
Definition re_name_w_i : Re.regex :=
  Re.seqs [Re.Bol; Re.lit "name"; sp; w; sp; Re.lit "i"; Re.Eol].
(* ^\w+\s+name\s+i$ *)
Definition re_w_name_i : Re.regex :=
  Re.seqs [Re.Bol; w; sp; Re.lit "name"; sp; Re.lit "i"; Re.Eol].
(* ^\w+\s+am\s+i$   and   ^(\w+)\s+am\s+i$ *)
Definition re_w_am_i : Re.regex :=
  Re.seqs [Re.Bol; w; sp; Re.lit "am"; sp; Re.lit "i"; Re.Eol].
Definition re_gw_am_i : Re.regex :=
  Re.seqs [Re.Bol; gw 1; sp; Re.lit "am"; sp; Re.lit "i"; Re.Eol].
(* ^i\s+am\s+(\w+)$ *)
Definition re_i_am_gw : Re.regex :=
  Re.seqs [Re.Bol; Re.lit "i"; sp; Re.lit "am"; sp; gw 1; Re.Eol].
(* ^(the|a|an|this|that|my|your|his|her|its|our|their)\s+\w+\s+is\s+(\w+)$ *)
Definition re_det_w_is_gw : Re.regex :=
  Re.seqs [Re.Bol;
           Re.Grp 1 (Re.alts ["the"; "a"; "an"; "this"; "that"; "my"; "your";
                              "his"; "her"; "its"; "our"; "their"]);
           sp; w; sp; Re.lit "is"; sp; gw 2; Re.Eol].
(* ^i\s+VERB\s+(\w+)\s+(\w+)$ *)
Definition re_i_verb_gw_gw (verb : string) : Re.regex :=
  Re.seqs [Re.Bol; Re.lit "i"; sp; Re.lit verb; sp; gw 1; sp; gw 2; Re.Eol].
(* ^i\s+VERB\s+(\w+)$ *)
Definition re_i_verb_gw (verb : string) : Re.regex :=
  Re.seqs [Re.Bol; Re.lit "i"; sp; Re.lit verb; sp; gw 1; Re.Eol].
(* ^i\s+VERB\s+(\w+)(?:\s+(\w+))?$ *)
Definition re_i_verb_gw_opt (verb : string) : Re.regex :=
  Re.seqs [Re.Bol; Re.lit "i"; sp; Re.lit verb; sp; gw 1;
           Re.Opt (Re.Seq sp (gw 2)); Re.Eol].

Definition infinitive_verbs : list string :=
  ["like"; "want"; "need"; "try"; "start"; "begin"; "love"; "hate";
   "prefer"; "decide"; "plan"; "hope"; "expect"].

Definition common_verbs : list string :=
  ["play"; "read"; "write"; "go"; "come"; "see"; "watch"; "eat"; "drink";
   "buy"; "sell"; "make"; "do"; "take"; "give"; "get"; "have"; "learn";
   "study"; "work"].

(** [x[0].lower() not in "aeiou"] *)
Definition first_not_vowel (s : string) : bool :=
  match s with
  | String c _ => negb (Py.mem_char (Py.lower_char c) "aeiou")
  | EmptyString => false
  end.

(** A structure error of the rule-based detector. *)
Definition structure_error (type message sentence severity suggestion : string)
  : Finding :=
  mkFinding type message (Some sentence) None None None severity
            (Some suggestion) None.

(** The first part that is neither "name" nor "i". *)
Fixpoint first_name_part (parts : list string) : option string :=
  match parts with
  | [] => None
  | part :: parts' =>
      if negb (Py.str_in part ["name"; "i"]) then Some part
      else first_name_part parts'
  end.

(** The loop over [infinitive_verbs] of the rule-based detector. *)
Fixpoint detect_infinitive (sentence : string) (verbs : list string)
  : list Finding :=
  match verbs with
  | [] => []
  | infin_verb :: verbs' =>
      let pattern := re_i_verb_gw_opt infin_verb in
      if Re.matches false pattern (Py.lower sentence) then
        match Re.rmatch_at_start true pattern (Py.lower sentence) with
        | Some m =>
            let first_word := grp 1 m in
            let second_word := Re.group 2 (Re.m_caps m) in
            if Py.str_in (Py.lower first_word) common_verbs
               || negb (Py.str_in first_word
                          ["the"; "a"; "an"; "my"; "your"; "this"; "that";
                           "it"; "music"; "food"; "books"])
            then
              let message :=
                "Missing 'to' before verb after '" ++ infin_verb ++ "'" in
              if nonempty (orelse second_word "")
              then [structure_error "missing_infinitive" message sentence "medium"
                      ("I " ++ infin_verb ++ " to " ++ first_word ++ " "
                            ++ orelse second_word "")]
              else [structure_error "missing_infinitive" message sentence "medium"
                      ("I " ++ infin_verb ++ " to " ++ first_word)]
            else detect_infinitive sentence verbs'
        | None => detect_infinitive sentence verbs'
        end
      else detect_infinitive sentence verbs'
  end.

Section SentenceStructure.

Variable env : Env.

Definition detect_structure_errors_rulebased (sentence : string)
  : result (list Finding) :=
  let low := Py.lower sentence in
  let words := word_tokenize env low in
  let e1 :=
    if length words <? 3
    then [structure_error "sentence_fragment" "Sentence appears incomplete"
            sentence "high" "Complete the sentence with a subject and verb"]
    else [] in
  let e2 :=
    if Re.matches false re_i_w_name low
    then [structure_error "word_order"
            "Incorrect sentence structure. Use 'My name is [name]' format"
            sentence "high" "My name is [name]"]
    else [] in
  let e3 :=
    if Re.matches false re_w_name low && (length words =? 2)
    then [structure_error "missing_words"
            "Missing words. Use 'My name is [name]' format" sentence "high"
            ("My name is " ++ Py.capitalize (nth 0 words ""))]
    else [] in
  let e4 :=
    if Re.matches false re_name_w low && (length words =? 2)
    then [structure_error "word_order"
            "Incorrect word order. Use 'My name is [name]' format" sentence "high"
            ("My name is " ++ Py.capitalize (nth 1 words ""))]
    else [] in
  let e5 :=
    if Re.matches true re_name_w_i low || Re.matches true re_w_name_i low
    then match first_name_part (Py.split low) with
         | Some name =>
             if nonempty name
             then [structure_error "word_order"
                     "Incorrect word order. Use 'My name is [name]' format"
                     sentence "high" ("My name is " ++ Py.capitalize name)]
             else []
         | None => []
         end
    else [] in
  let e6 :=
    if Re.matches true re_w_am_i low
    then match Py.split low with
         | name :: _ =>
             if nonempty name && negb (Py.str_in name ["i"; "am"])
             then [structure_error "word_order"
                     "Incorrect word order. Use 'My name is [name]' or 'I am [name]' format"
                     sentence "high" ("My name is " ++ Py.capitalize name)]
             else []
         | [] => []
         end
    else [] in
  match words with
  | [] => Raised IndexError
  | word0 :: _ =>
      let e7 :=
        if Py.str_in word0 ["i"; "you"; "he"; "she"; "it"; "we"; "they"]
           && (1 <? length words)
        then
          if negb (Py.str_in (nth 1 words "")
                     ["am"; "is"; "are"; "was"; "were"; "have"; "has"; "had";
                      "will"; "can"; "should"; "would"; "could"])
          then
            if 2 <? length words
            then [structure_error "missing_verb" "Missing verb after subject"
                    sentence "medium"
                    "Add a verb like 'is', 'am', 'are', 'have', etc."]
            else []
          else []
        else [] in
      let e8 :=
        if Re.matches false re_i_am_gw low then
          match Re.rmatch_at_start true re_i_am_gw low with
          | Some m =>
              let noun := grp 1 m in
              if Py.first_islower noun
                 && negb (Py.str_in noun
                            ["ok"; "fine"; "good"; "well"; "here"; "there"])
              then [structure_error "missing_article"
                      "Missing article 'a' or 'an' before the noun" sentence
                      "medium"
                      (if first_not_vowel noun then "I am a " ++ noun
                       else "I am an " ++ noun)]
              else []
          | None => []
          end
        else [] in
      let e9 :=
        if Re.matches false re_det_w_is_gw low then
          match Re.rmatch_at_start true re_det_w_is_gw low with
          | Some m =>
              let noun := grp 2 m in
              if Py.first_islower noun
                 && negb (Py.str_in noun
                            ["good"; "bad"; "fine"; "ok"; "here"; "there";
                             "mine"; "yours"])
              then [mkFinding "missing_article_or_preposition"
                      "Consider adding 'a/an' or a preposition like 'on', 'in', 'at'"
                      (Some sentence) None None None "low"
                      (Some (if first_not_vowel noun
                             then sentence ++ " a " ++ noun
                             else sentence ++ " an " ++ noun))
                      None]
              else []
          | None => []
          end
        else [] in
      let e10 :=
        if negb (Re.matches false (re_i_verb_gw_gw "like") low) then
          if Re.matches false (re_i_verb_gw "like") low then
            match Re.rmatch_at_start true (re_i_verb_gw "like") low with
            | Some m =>
                let verb := grp 1 m in
                if negb (Py.str_in verb
                           ["it"; "this"; "that"; "you"; "him"; "her"; "them";
                            "music"; "food"])
                then [structure_error "missing_infinitive"
                        "Missing 'to' before verb or use '-ing' form" sentence
                        "medium" ("I like to " ++ verb)]
                else []
            | None => []
            end
          else []
        else [] in
      let e11 := detect_infinitive sentence infinitive_verbs in
      Ok (e1 ++ e2 ++ e3 ++ e4 ++ e5 ++ e6 ++ e7 ++ e8 ++ e9 ++ e10 ++ e11)%list
  end.



(** *** The parser-based detectors *)

Definition detect_word_order_error_at (sentence : string) (token t1 t2 : Token)
  : list Finding :=
  if (Py.lower (tok_text token) == "i") && (Py.lower (tok_text t2) == "name")
  then [mkFinding "word_order" "Incorrect word order. Use 'My name is [name]'"
          (Some sentence)
          (Some (Z.of_nat (tok_idx token)))
          (Some (Z.of_nat (tok_idx t2 + String.length (tok_text t2))))
          (Some (tok_text token ++ " " ++ tok_text t1 ++ " " ++ tok_text t2))
          "high"
          (Some ("My name is " ++ tok_text t1))
          None]
  else [].

(** [i + 2 < len(doc)] holds exactly when two tokens follow. *)
Fixpoint detect_word_order_errors (doc : list Token) (sentence : string)
  : list Finding :=
  match doc with
  | [] => []
  | token :: doc' =>
      (match doc' with
       | t1 :: t2 :: _ => detect_word_order_error_at sentence token t1 t2
       | _ => []
       end ++ detect_word_order_errors doc' sentence)%list
  end.

Definition possessives : list string :=
  ["a"; "an"; "the"; "my"; "your"; "his"; "her"; "its"; "our"; "their"].

(** The loop of [detect_missing_articles]; [prev] is [doc[i-1]], absent
    at [i = 0]. *)
Fixpoint detect_missing_articles_from (prev : option Token) (doc : list Token)
    (sentence : string) : result (list Finding) :=
  match doc with
  | [] => Ok []
  | token :: doc' =>
      here <-
        (if tok_pos token == "NOUN" then
           match tok_text token with
           | EmptyString => Raised IndexError
           | String c _ =>
               if negb (Py.isupper c) then
                 match prev with
                 | Some prev_token =>
                     if negb (Py.str_in (tok_pos prev_token) ["DET"; "ADJ"])
                        && negb (Py.str_in (Py.lower (tok_text prev_token))
                                   possessives)
                     then
                       if negb (Py.str_in (tok_pos prev_token) ["VERB"; "ADP"])
                       then Ok [mkFinding "missing_article"
                                  ("Consider adding an article (a/an/the) before '"
                                     ++ tok_text token ++ "'")
                                  (Some sentence)
                                  (Some (Z.of_nat (tok_idx token)))
                                  (Some (Z.of_nat (tok_idx token
                                                   + String.length (tok_text token))))
                                  (Some (tok_text token))
                                  "low"
                                  (Some (if first_not_vowel (tok_text token)
                                         then "the " ++ tok_text token
                                         else "an " ++ tok_text token))
                                  None]
                       else Ok []
                     else Ok []
                 | None => Ok []
                 end
               else Ok []
           end
         else Ok []);;
      rest <- detect_missing_articles_from (Some token) doc' sentence;;
      Ok (here ++ rest)%list
  end.

Definition detect_missing_articles (doc : list Token) (sentence : string)
  : result (list Finding) :=
  detect_missing_articles_from None doc sentence.

(* \b(WORDS)\s+(\w+)\b *)
Definition re_preposition (words : list string) : Re.regex :=
  Re.seqs [Re.WordB; Re.Grp 1 (Re.alts words); sp; gw 2; Re.WordB].

(* \bPREP\s+WORD : [word_after] is made of word characters only *)
Definition re_prep_present (prep word_after : string) : Re.regex :=
  Re.seqs [Re.WordB; Re.lit prep; sp; Re.lit word_after].

(** The patterns with [prep] and [prep.split("/")[0]]. *)
Definition preposition_patterns : list (list string * string * string) :=
  [ (["interested"; "good"; "bad"], "in", "in");
    (["depends"; "rely"], "on", "on");
    (["listen"; "look"], "to/at", "to") ].

Definition detect_missing_prepositions (doc : list Token) (sentence : string)
  : list Finding :=
  let low := Py.lower sentence in
  flat_map
    (fun '(words, prep, prep0) =>
       flat_map
         (fun m =>
            let word_after := grp 2 m in
            match Re.search false (re_prep_present prep0 word_after) low with
            | None =>
                [mkFinding "missing_preposition"
                   ("Missing preposition '" ++ prep ++ "' after '" ++ grp 1 m ++ "'")
                   (Some sentence)
                   (Some (Z.of_nat (Re.m_start m)))
                   (Some (Z.of_nat (Re.m_end m)))
                   (Some (Re.m_text m))
                   "medium"
                   (Some (grp 1 m ++ " " ++ prep0 ++ " " ++ word_after))
                   None]
            | Some _ => []
            end)
         (Re.finditer false (re_preposition words) low))
    preposition_patterns.

Definition detect_structure_errors_spacy (doc : list Token) (sentence : string)
  : result (list Finding) :=
  let has_subject :=
    existsb (fun t => Py.str_in (tok_dep t) ["nsubj"; "nsubjpass"]) doc in
  let has_verb :=
    existsb (fun t => (tok_dep t == "ROOT") && (tok_pos t == "VERB")) doc in
  let e1 :=
    if negb has_subject && has_verb then
      if negb (existsb (fun t => Py.str_in (Py.lower (tok_text t))
                                   ["please"; "let"; "make"]) doc)
      then [structure_error "missing_subject" "Sentence is missing a subject"
              sentence "high"
              "Add a subject (I, You, He, She, It, We, They, or a noun)"]
      else []
    else [] in
  let e2 :=
    if has_subject && negb has_verb
    then [structure_error "missing_verb" "Sentence is missing a verb" sentence
            "high" "Add a verb to complete the sentence"]
    else [] in
  let word_order_errors := detect_word_order_errors doc sentence in
  article_errors <- detect_missing_articles doc sentence;;
  let preposition_errors := detect_missing_prepositions doc sentence in
  Ok (e1 ++ e2 ++ word_order_errors ++ article_errors ++ preposition_errors)%list.

(** *** generate_structure_correction *)

Definition start_key (e : Finding) : Z :=
  match f_start e with Some z => z | None => 0%Z end.

(** [l.sort(key=..., reverse=True)] and [sorted(l, key=..., reverse=True)]:
    descending and stable. *)
Fixpoint insert_desc (x : Finding) (l : list Finding) : list Finding :=
  match l with
  | [] => [x]
  | y :: l' =>
      if (start_key x <? start_key y)%Z then y :: insert_desc x l' else x :: l
  end.

Definition sort_desc (l : list Finding) : list Finding :=
  fold_right insert_desc [] l.

Definition same_sentence (sentence : string) (e : Finding) : bool :=
  match f_sentence e with Some s => s == sentence | None => false end.

(** The loops that try [^i\s+VERB\s+(\w+)\s+(\w+)$] and then
    [^i\s+VERB\s+(\w+)$] for each verb and stop at the first match. *)
Fixpoint infinitive_rewrite (low : string) (verbs : list string) : option string :=
  match verbs with
  | [] => None
  | infin_verb :: verbs' =>
      match Re.rmatch_at_start true (re_i_verb_gw_gw infin_verb) low with
      | Some match2 =>
          Some ("I " ++ infin_verb ++ " to " ++ grp 1 match2 ++ " "
                     ++ Py.capitalize (grp 2 match2) ++ ".")
      | None =>
          match Re.rmatch_at_start true (re_i_verb_gw infin_verb) low with
          | Some match1 =>
              Some ("I " ++ infin_verb ++ " to " ++ Py.capitalize (grp 1 match1) ++ ".")
          | None => infinitive_rewrite low verbs'
          end
      end
  end.

Inductive control : Type :=
| Break (corrected : string)
| Continue (corrected : string).

Definition my_name_is (name : string) : string :=
  "My name is " ++ Py.capitalize name ++ ".".

Definition with_final_dot (s : string) : string :=
  if Py.endswith_dot s then s else s ++ ".".

(** One round of the loop over the sentence's errors.  The source
    tests "word_order" and "missing_article" a second time further down
    its elif chain; those branches are shadowed and never run. *)
Definition structure_correction_step (sentence : string) (error : Finding)
    (corrected : string) : result control :=
  let error_type := f_type error in
  let suggestion := orelse (f_suggestion error) "" in
  let low := Py.lower sentence in
  if error_type == "word_order" then
    if Re.matches false re_i_gw_name low then
      match Re.rmatch_at_start true re_i_gw_name low with
      | Some m => Ok (Break (my_name_is (grp 1 m)))
      | None => Ok (Continue corrected)
      end
    else if Re.matches true re_name_w_i low then
      match first_name_part (Py.split low) with
      | Some name =>
          if nonempty name then Ok (Break (my_name_is name))
          else Ok (Continue corrected)
      | None => Ok (Continue corrected)
      end
    else if nonempty suggestion && Py.contains "My name is" suggestion then
      Ok (Break (with_final_dot suggestion))
    else Ok (Continue corrected)
  else if error_type == "missing_words" then
    if Re.matches false re_gw_name low then
      match Re.rmatch_at_start true re_gw_name low with
      | Some m => Ok (Break (my_name_is (grp 1 m)))
      | None => Ok (Continue corrected)
      end
    else Ok (Continue corrected)
  else if error_type == "missing_subject" then
    if nonempty suggestion then
      match corrected with
      | EmptyString => Raised IndexError
      | String c _ =>
          if Py.islower c then
            match Py.split suggestion with
            | [] => Raised IndexError
            | first :: _ => Ok (Continue (Py.capitalize first ++ " " ++ corrected))
            end
          else Ok (Continue (suggestion ++ " " ++ corrected))
      end
    else Ok (Continue corrected)
  else if error_type == "missing_verb" then
    if Py.contains "name" low then
      if Py.contains "my" low || Py.contains "i" low
      then Ok (Continue (Py.replace_all "name" "name is" sentence))
      else Ok (Continue (match Py.split sentence with
                         | [] => sentence
                         | parts => "My name is " ++ last parts ""
                         end))
    else Ok (Continue corrected)
  else if error_type == "missing_article" then
    if Py.contains "i am" low then
      match Re.rmatch_at_start true re_i_am_gw low with
      | Some m =>
          let noun := grp 1 m in
          let article := if first_not_vowel noun then "a" else "an" in
          Ok (Break ("I am " ++ article ++ " " ++ Py.capitalize noun ++ "."))
      | None => Ok (Continue corrected)
      end
    else Ok (Continue corrected)
  else if error_type == "missing_infinitive" then
    if nonempty suggestion then Ok (Break suggestion)
    else Ok (Continue (orelse (infinitive_rewrite low infinitive_verbs) corrected))
  else Ok (Continue corrected).

Fixpoint structure_correction_loop (sentence : string) (errors : list Finding)
    (corrected : string) : result string :=
  match errors with
  | [] => Ok corrected
  | error :: errors' =>
      c <- structure_correction_step sentence error corrected;;
      match c with
      | Break corrected' => Ok corrected'
      | Continue corrected' => structure_correction_loop sentence errors' corrected'
      end
  end.

(** Strip, capitalise the first letter, end with a full stop: the
    closing block of [generate_structure_correction], which
    [correct_text] repeats. *)
Definition ensure_format (corrected : string) : string :=
  if nonempty corrected then
    let c1 := Py.strip corrected in
    let c2 := if nonempty c1 && negb (Py.first_isupper c1)
              then Py.upper_first c1 else c1 in
    if nonempty c2 && negb (Py.ends_terminal c2) then c2 ++ "." else c2
  else corrected.

Definition generate_structure_correction (sentence : string)
    (errors : list Finding) : result string :=
  let sentence_errors := sort_desc (filter (same_sentence sentence) errors) in
  corrected <- structure_correction_loop sentence sentence_errors sentence;;
  let corrected :=
    if corrected == sentence then
      let corrected_blob := textblob_correct env sentence in
      if negb (corrected_blob == sentence) then corrected_blob else corrected
    else corrected in
  Ok (ensure_format corrected).

(** *** analyze_sentence_structure *)

Fixpoint analyze_loop (sentences : list string) (errors : list Finding)
    (corrections : list Correction)
  : result (list Finding * list Correction) :=
  match sentences with
  | [] => Ok (errors, corrections)
  | raw :: sentences' =>
      let sentence := Py.strip raw in
      if Py.is_empty sentence then analyze_loop sentences' errors corrections
      else
        structure_errors <-
          match nlp_structure env with
          | Some nlp => detect_structure_errors_spacy (nlp sentence) sentence
          | None => detect_structure_errors_rulebased sentence
          end;;
        let errors := (errors ++ structure_errors)%list in
        match errors with
        | [] => analyze_loop sentences' errors corrections
        | _ :: _ =>
            correction <- generate_structure_correction sentence errors;;
            let corrections :=
              if nonempty correction && negb (correction == sentence)
              then (corrections
                      ++ [mkCorrection sentence correction
                            (map f_type (filter (same_sentence sentence) errors))])%list
              else corrections in
            analyze_loop sentences' errors corrections
        end
  end.

(** The [errors] and [corrections] of the returned dictionary. *)
Definition analyze_sentence_structure (text : string)
  : result (list Finding * list Correction) :=
  if Py.blank text then Ok ([], [])
  else analyze_loop (sent_tokenize env text) [] [].

(** *** correct_sentence_structure *)

Definition structure_change (original corrected : string)
    (errors_fixed : list string) : Change :=
  mkChange "structure_correction" original corrected None (Some errors_fixed).

Fixpoint apply_corrections (corrections : list Correction)
    (corrected_text : string) (changes : list Change) : string * list Change :=
  match corrections with
  | [] => (corrected_text, changes)
  | correction :: corrections' =>
      if Py.contains (co_original correction) corrected_text
      then apply_corrections corrections'
             (Py.replace_first (co_original correction) (co_corrected correction)
                corrected_text)
             (changes ++ [structure_change (co_original correction)
                            (co_corrected correction) (co_errors correction)])%list
      else apply_corrections corrections' corrected_text changes
  end.

Definition has_type (types : list string) (e : Finding) : bool :=
  Py.str_in (f_type e) types.

(** The error the "intelligent correction" block works on. *)
Definition pick_error (errors : list Finding) : option Finding :=
  let infinitive_errors := filter (has_type ["missing_infinitive"]) errors in
  let word_order_errors := filter (has_type ["word_order"; "missing_words"]) errors in
  let article_errors := filter (has_type ["missing_article"]) errors in
  let other_errors :=
    filter (fun e => Py.str_in (f_severity e) ["high"; "medium"]
                     && negb (has_type ["missing_infinitive"; "word_order";
                                        "missing_words"; "missing_article"] e))
           errors in
  match infinitive_errors, word_order_errors, article_errors, other_errors with
  | e :: _, _, _, _ => Some e
  | [], e :: _, _, _ => Some e
  | [], [], e :: _, _ => Some e
  | [], [], [], e :: _ => Some e
  | [], [], [], [] => None
  end.

(** The block under "If no corrections found, try intelligent
    correction", for the picked [error]: the new text and the change to
    append, if any. *)
Definition intelligent_correction (text : string) (error : Finding)
  : option (string * list Change) :=
  let suggestion := orelse (f_suggestion error) "" in
  let error_type := f_type error in
  let low := Py.lower text in
  let rewrite (corrected_text : string) (fixed : list string) :=
    Some (corrected_text, [structure_change text corrected_text fixed]) in
  if error_type == "missing_infinitive" then
    match infinitive_rewrite low infinitive_verbs with
    | Some corrected_text => rewrite corrected_text ["missing_infinitive"]
    | None =>
        if nonempty suggestion
        then rewrite (with_final_dot suggestion) ["missing_infinitive"]
        else None
    end
  else if nonempty suggestion then
    if Re.matches false re_i_w_name low then
      match Re.rmatch_at_start true re_i_gw_name low with
      | Some m => rewrite (my_name_is (grp 1 m)) ["word_order"; "missing_words"]
      | None => None
      end
    else if Re.matches false re_w_name low then
      match Re.rmatch_at_start true re_gw_name low with
      | Some m => rewrite (my_name_is (grp 1 m)) ["missing_words"; "word_order"]
      | None => None
      end
    else if Re.matches true re_gw_am_i low then
      match Re.rmatch_at_start true re_gw_am_i low with
      | Some m =>
          let name := grp 1 m in
          if negb (Py.str_in (Py.lower name) ["i"; "am"])
          then rewrite (my_name_is name) ["word_order"]
          else None
      | None => None
      end
    else if Re.matches true re_name_w_i low || Re.matches true re_w_name_i low then
      match first_name_part (Py.split low) with
      | Some name =>
          if nonempty name
          then rewrite (my_name_is name) ["word_order"; "missing_words"]
          else None
      | None => None
      end
    else if nonempty suggestion && Py.contains "My name is" suggestion then
      rewrite (with_final_dot suggestion) [error_type]
    else if (error_type == "missing_article") && Py.contains "i am" low then
      match Re.rmatch_at_start true re_i_am_gw low with
      | Some m =>
          let noun := grp 1 m in
          let article := if first_not_vowel noun then "a" else "an" in
          rewrite ("I am " ++ article ++ " " ++ Py.capitalize noun ++ ".")
                  ["missing_article"]
      | None => None
      end
    else if (error_type == "missing_infinitive") && Py.contains "i like" low then
      let corrected_text :=
        match Re.rmatch_at_start true (re_i_verb_gw_gw "like") low with
        | Some m =>
            "I like to " ++ grp 1 m ++ " " ++ Py.capitalize (grp 2 m) ++ "."
        | None =>
            match Re.rmatch_at_start true (re_i_verb_gw "like") low with
            | Some m => "I like to " ++ Py.capitalize (grp 1 m) ++ "."
            | None => text
            end
        end in
      if negb (corrected_text == text)
      then rewrite corrected_text ["missing_infinitive"]
      else None
    else if nonempty suggestion && negb (suggestion == text) then
      rewrite suggestion [error_type]
    else None
  else None.

Definition correct_sentence_structure (text : string) : result StructureResult :=
  if Py.blank text then Ok (mkStructureResult text text [] None None)
  else
    analysis <- analyze_sentence_structure text;;
    let '(errors, corrections) := analysis in
    let '(corrected_text, changes) := apply_corrections corrections text [] in
    let '(corrected_text, changes) :=
      if (corrected_text == text) && negb (length errors =? 0) then
        match pick_error errors with
        | Some error =>
            match intelligent_correction text error with
            | Some (corrected_text', change) =>
                (corrected_text', (changes ++ change)%list)
            | None => (corrected_text, changes)
            end
        | None => (corrected_text, changes)
        end
      else (corrected_text, changes) in
    Ok (mkStructureResult text corrected_text changes
          (Some (length errors)) (Some errors)).

End SentenceStructure.

(** ** core/ai_service.py *)

Section AIService.

Variable env : Env.

(** [is_ai_available()] *)
Definition is_ai_available : bool :=
  match ai_client env with Some _ => true | None => false end.

(** [generate_ai_response(prompt, system_prompt, ...)]: the stripped
    content of the first choice, [None] without a client, without a
    choice or when the call raises. *)
Definition generate_ai_response (prompt system_prompt : string) : option string :=
  match ai_client env with
  | None => None
  | Some client => option_map Py.strip (client prompt system_prompt)
  end.

End AIService.

(** ** core/grammar_analysis.py *)

Definition dq : string := String "034"%char EmptyString.
Definition nl : string := String "010"%char EmptyString.

Definition ai_prompt (text : string) : string :=
  "Correct this English sentence. Fix:" ++ nl ++
  "1. Grammar errors (subject-verb agreement, tense, etc.)" ++ nl ++
  "2. Spelling mistakes" ++ nl ++
  "3. Punctuation and capitalization" ++ nl ++
  "4. Sentence structure and word order (e.g., " ++ dq ++ "name Nishanth I" ++ dq
    ++ " → " ++ dq ++ "My name is Nishanth" ++ dq ++ ")" ++ nl ++
  "5. Sentence formation errors (missing words, incorrect word order, fragments)"
    ++ nl ++ nl ++
  "Only return the corrected sentence, nothing else." ++ nl ++ nl ++
  "Original: " ++ text ++ nl ++ nl ++
  "Corrected:".

Definition ai_system_prompt : string :=
  "You are an English grammar expert specializing in sentence structure and format correction. Correct sentences accurately, especially fixing word order and sentence formation issues.".

(** A lexical error: it has a span, a text and a correction. *)
Definition lexical_error (type message : string) (start stop : Z)
    (text correction severity : string) : Finding :=
  mkFinding type message None (Some start) (Some stop) (Some text) severity
            None (Some correction).

(* \b(A|B|..)\b.*\b(A|B|..)\b *)
Definition re_twice (words : list string) : Re.regex :=
  Re.seqs [Re.WordB; Re.Grp 1 (Re.alts words); Re.WordB; Re.Rep Re.dot 0;
           Re.WordB; Re.Grp 2 (Re.alts words); Re.WordB].

(* \b(A|B|..)\b *)
Definition re_once (words : list string) : Re.regex :=
  Re.seqs [Re.WordB; Re.Grp 1 (Re.alts words); Re.WordB].

(** The [common_mistakes] table, in its order: pattern, message,
    correction. *)
Definition common_mistakes : list (Re.regex * string * string) :=
  [ (re_twice ["your"; "you're"],
     "Check usage of 'your' vs 'you're'",
     "Use 'your' for possession, 'you're' for 'you are'");
    (re_twice ["its"; "it's"],
     "Check usage of 'its' vs 'it's'",
     "Use 'its' for possession, 'it's' for 'it is'");
    (re_twice ["their"; "they're"; "there"],
     "Check usage of 'their', 'they're', or 'there'",
     "Use 'their' for possession, 'they're' for 'they are', 'there' for location");
    (re_once ["could of"; "should of"; "would of"],
     "Incorrect: 'could of', 'should of', 'would of'",
     "Use 'could have', 'should have', 'would have'");
    (re_once ["loose"; "lose"],
     "Check 'loose' (not tight) vs 'lose' (misplace)",
     "Use 'lose' when you misplace something, 'loose' when something is not tight");
    (re_once ["affect"; "effect"],
     "Check 'affect' (verb) vs 'effect' (noun)",
     "Use 'affect' as a verb (to influence), 'effect' as a noun (result)");
    (re_once ["then"; "than"],
     "Check 'then' (time) vs 'than' (comparison)",
     "Use 'then' for time sequence, 'than' for comparisons") ].

Definition match_span (m : Re.rmatch) : Z * Z :=
  (Z.of_nat (Re.m_start m), Z.of_nat (Re.m_end m)).

Definition detect_common_mistakes (text : string) : list Finding :=
  flat_map
    (fun '(pattern, message, correction) =>
       map (fun m => lexical_error "common_mistake" message
                       (fst (match_span m)) (snd (match_span m))
                       (Re.m_text m) correction "medium")
           (Re.finditer true pattern text))
    common_mistakes.

(* \s{2,} *)
Definition detect_double_spaces (text : string) : list Finding :=
  map (fun m => lexical_error "formatting" "Double space detected"
                  (fst (match_span m)) (snd (match_span m))
                  (Re.m_text m) "Use single space" "low")
      (Re.finditer false (Re.Rep Re.space 2) text).

Definition len (s : string) : Z := Z.of_nat (String.length s).

Section GrammarAnalysis.

Variable env : Env.

(** The "there is" check, inside its [try ... except: pass]. *)
Definition detect_there_is (text sentence : string) : list Finding :=
  let words := word_tokenize env sentence in
  match pos_tag env words with
  | None => []
  | Some pos_tags =>
      if 3 <=? length pos_tags then
        match words with
        | [] => []
        | word0 :: _ =>
            if (Py.lower word0 == "there") && (1 <? length words) then
              if (Py.lower (nth 1 words "") == "is")
                 && existsb (fun tag => snd tag == "NNS") (skipn 2 pos_tags)
              then
                let start_pos := Py.findZ sentence text in
                [lexical_error "subject_verb_agreement"
                   "Subject-verb agreement: 'there is' should be 'there are' for plural"
                   (start_pos + Py.findZ "there is" sentence)%Z
                   (start_pos + Py.findZ "there is" sentence + 8)%Z
                   "there is" "there are" "high"]
              else []
            else []
        end
      else []
  end.

(** The checks made on one sentence of [sent_tokenize(text)]. *)
Definition detect_sentence_errors (text raw : string) : list Finding :=
  let sentence := Py.strip raw in
  if Py.is_empty sentence then []
  else
    let start_pos := Py.findZ sentence text in
    let e1 :=
      if negb (Py.first_isupper sentence)
      then [lexical_error "capitalization"
              "Sentence should start with capital letter"
              start_pos (start_pos + len sentence)%Z
              (Py.take 50 sentence)
              (if 1 <? String.length sentence then Py.upper_first sentence
               else Py.upper sentence)
              "low"]
      else [] in
    let e2 :=
      if negb (Py.ends_terminal sentence)
      then [lexical_error "punctuation"
              "Sentence should end with punctuation (. ! or ?)"
              (start_pos + len sentence - 1)%Z (start_pos + len sentence)%Z
              (Py.last_n 10 sentence) (sentence ++ ".") "medium"]
      else [] in
    let words := word_tokenize env (Py.lower sentence) in
    let e3 :=
      if (length words <? 3) && negb (Py.ends_terminal sentence)
      then [lexical_error "sentence_fragment"
              "Sentence fragment detected - incomplete thought"
              start_pos (start_pos + len sentence)%Z
              sentence ("Complete the thought: " ++ sentence) "high"]
      else [] in
    let e4 :=
      if (100 <? String.length sentence)
         && (Py.count_char ","%char sentence <? 2)
      then [lexical_error "run_on_sentence"
              "Run-on sentence detected - consider breaking into shorter sentences"
              start_pos (start_pos + len sentence)%Z
              (Py.take 50 sentence ++ "...")
              "Break into multiple sentences or add proper punctuation" "medium"]
      else [] in
    (e1 ++ e2 ++ e3 ++ e4 ++ detect_there_is text sentence)%list.

(** The missing-article check on the parse of the whole text; [prev]
    is [doc[token.i - 1]], absent for the first token. *)
Fixpoint detect_articles_spacy (prev : option Token) (doc : list Token)
  : result (list Finding) :=
  match doc with
  | [] => Ok []
  | token :: doc' =>
      here <-
        (match prev with
         | Some prev_token =>
             if (tok_pos token == "NOUN")
                && negb (Py.str_in (tok_pos prev_token)
                           ["DET"; "ADJ"; "NOUN"; "PROPN"])
             then
               match tok_text token with
               | EmptyString => Raised IndexError
               | String c _ =>
                   if Py.islower c
                      && negb (Py.str_in (Py.lower (tok_text token))
                                 ["i"; "you"; "he"; "she"; "it"; "we"; "they"])
                   then Ok [lexical_error "missing_article"
                              ("Consider adding an article (a/an/the) before '"
                                 ++ tok_text token ++ "'")
                              (Z.of_nat (tok_idx token))
                              (Z.of_nat (tok_idx token
                                         + String.length (tok_text token)))
                              (tok_text token)
                              (if Py.mem_char (Py.lower_char c) "aeiou"
                               then "the " ++ tok_text token
                               else "a " ++ tok_text token)
                              "low"]
                   else Ok []
               end
             else Ok []
         | None => Ok []
         end);;
      rest <- detect_articles_spacy (Some token) doc';;
      Ok (here ++ rest)%list
  end.

(** The TextBlob spell check.  [text.lower().find(orig, k)] with [k]
    the first occurrence of [orig] is that first occurrence. *)
Definition detect_spelling (text : string) : list Finding :=
  let corrected := textblob_correct env text in
  if negb (corrected == text) then
    let original_words := word_tokenize env (Py.lower text) in
    let corrected_words := word_tokenize env (Py.lower corrected) in
    flat_map
      (fun '(orig, corr) =>
         if negb (orig == corr) then
           match Py.find orig (Py.lower text) with
           | Some pos =>
               [lexical_error "spelling"
                  ("Possible spelling error: '" ++ orig ++ "'")
                  (Z.of_nat pos) (Z.of_nat (pos + String.length orig))
                  orig corr "medium"]
           | None => []
           end
         else [])
      (combine original_words corrected_words)
  else [].

Definition detect_grammar_errors (text : string) : result (list Finding) :=
  if Py.blank text then Ok []
  else
    structure_analysis <- analyze_sentence_structure env text;;
    let structure_errors := fst structure_analysis in
    article_errors <-
      match nlp_grammar env with
      | Some nlp => detect_articles_spacy None (nlp text)
      | None => Ok []
      end;;
    Ok (structure_errors
          ++ detect_common_mistakes text
          ++ detect_double_spaces text
          ++ flat_map (detect_sentence_errors text) (sent_tokenize env text)
          ++ article_errors
          ++ detect_spelling text)%list.

(** *** correct_grammar *)

(** The try block of the AI-enhanced correction: [Some] when it
    returns a result, [None] when control falls through to the
    rule-based correction (AI switched off, unavailable, declined, or
    an exception caught). *)
Definition ai_stage (text : string) (use_ai : bool) : option GrammarResult :=
  if use_ai then
    if is_ai_available env then
      match generate_ai_response env (ai_prompt text) ai_system_prompt with
      | Some ai_corrected =>
          if nonempty ai_corrected && nonempty (Py.strip ai_corrected)
             && negb (Py.strip ai_corrected == text)
          then
            let corrected_text := Py.strip ai_corrected in
            let changes :=
              if negb (Py.lower corrected_text == Py.lower text)
              then [mkChange "ai_correction" text corrected_text
                      (Some "AI-enhanced grammar correction applied") None]
              else [] in
            match correct_sentence_structure env text with
            | Ok structure_check =>
                Some (mkGrammarResult text corrected_text
                        (changes ++ sr_changes structure_check)%list
                        (Some (length (match sr_structure_errors structure_check with
                                       | Some l => l
                                       | None => []
                                       end)))
                        (Some "ai_enhanced"))
            | Raised _ => None
            end
          else None
      | None => None
      end
    else None
  else None.

Definition CorrectionState : Type := (string * list Change)%type.

(** "For simple replacements": the first occurrence of the error's
    text is replaced by its correction. *)
Definition fragment_fix (error : Finding) (st : CorrectionState)
  : result CorrectionState :=
  let '(corrected_text, changes) := st in
  match f_correction error with
  | Some correction =>
      if nonempty correction
         && has_type ["spelling"; "common_mistake"; "subject_verb_agreement"] error
      then
        match f_text error with
        | None => Raised KeyError
        | Some original =>
            if Py.contains original corrected_text
            then Ok (Py.replace_first original correction corrected_text,
                     (changes ++ [mkChange (f_type error) original correction
                                    (Some (f_message error)) None])%list)
            else Ok st
        end
      else Ok st
  | None => Ok st
  end.

(** "Handle structure errors with suggestions": the sentence is
    replaced by the suggestion. *)
Definition sentence_fix (error : Finding) (st : CorrectionState) : CorrectionState :=
  let '(corrected_text, changes) := st in
  if has_type ["word_order"; "missing_words"; "missing_subject"; "missing_verb"] error
  then
    let suggestion := orelse (f_suggestion error) "" in
    match f_sentence error with
    | Some original_sentence =>
        if nonempty suggestion && nonempty original_sentence
           && Py.contains original_sentence corrected_text
           && negb (Py.contains "My name is" corrected_text)
        then (with_final_dot
                (Py.replace_first original_sentence suggestion corrected_text),
              (changes ++ [mkChange (f_type error) original_sentence suggestion
                             (Some (f_message error)) None])%list)
        else st
    | None => st
    end
  else st.

Fixpoint apply_fixes (errors : list Finding) (st : CorrectionState)
  : result CorrectionState :=
  match errors with
  | [] => Ok st
  | error :: errors' =>
      st1 <- fragment_fix error st;;
      apply_fixes errors' (sentence_fix error st1)
  end.

(** The loop over [sorted(errors, key=start, reverse=True)]. *)
Definition rule_based_stage (errors : list Finding) (st : CorrectionState)
  : result CorrectionState :=
  apply_fixes (sort_desc errors) st.

(** "Use T5 for advanced correction if available".  The test
    [len(t5_corrected) > len(text) * 0.5] is on exact halves, so it is
    [len(text) < 2 * len(t5_corrected)]. *)
Definition t5_stage (text : string) (st : CorrectionState) : CorrectionState :=
  let '(corrected_text, changes) := st in
  match corrector env with
  | Some run =>
      if corrected_text == text then
        match run ("grammar: " ++ text) with
        | Some (first :: _) =>
            let t5_corrected := orelse first text in
            if negb (t5_corrected == text)
               && (String.length text <? 2 * String.length t5_corrected)
            then (t5_corrected,
                  (changes ++ [mkChange "auto_correction" text t5_corrected
                                 (Some "AI-powered grammar correction") None])%list)
            else st
        | _ => st
        end
      else st
  | None => st
  end.

(** "Fallback to TextBlob correction" *)
Definition textblob_stage (text : string) (st : CorrectionState) : CorrectionState :=
  let '(corrected_text, changes) := st in
  if (length changes =? 0) || (corrected_text == text) then
    let blob_corrected := textblob_correct env text in
    if negb (blob_corrected == text)
    then (blob_corrected,
          (changes ++ [mkChange "textblob_correction" text blob_corrected
                         (Some "Spell and grammar correction") None])%list)
    else st
  else st.

Definition fix_sentence (raw : string) : list string :=
  let sentence := Py.strip raw in
  if nonempty sentence then
    let s1 := if negb (Py.first_isupper sentence)
              then Py.upper_first sentence else sentence in
    let s2 := if negb (Py.ends_terminal s1) then s1 ++ "." else s1 in
    [s2]
  else [].

(** "Apply capitalization and punctuation fixes" *)
Definition formatting_stage (st : CorrectionState) : CorrectionState :=
  let '(corrected_text, changes) := st in
  let final_corrected :=
    Py.join_space (flat_map fix_sentence (sent_tokenize env corrected_text)) in
  if negb (final_corrected == corrected_text)
  then (final_corrected,
        (changes ++ [mkChange "formatting" corrected_text final_corrected
                       (Some "Capitalization and punctuation fixes") None])%list)
  else st.

Definition correct_grammar (text : string) (use_ai : bool) : result GrammarResult :=
  if Py.blank text then Ok (mkGrammarResult text text [] None None)
  else
    match ai_stage text use_ai with
    | Some r => Ok r
    | None =>
        structure_correction <- correct_sentence_structure env text;;
        let corrected_text := sr_corrected structure_correction in
        let changes := sr_changes structure_correction in
        let structure_was_corrected :=
          negb (corrected_text == text) && (0 <? length changes) in
        if structure_was_corrected then
          Ok (mkGrammarResult text corrected_text changes
                (Some (length (match sr_structure_errors structure_correction with
                               | Some l => l
                               | None => []
                               end)))
                (Some "rule_based"))
        else
          errors <- detect_grammar_errors text;;
          st1 <- rule_based_stage errors (corrected_text, changes);;
          let st2 := t5_stage text st1 in
          let st3 := textblob_stage text st2 in
          let '(corrected_text', changes') := formatting_stage st3 in
          Ok (mkGrammarResult text corrected_text' changes'
                (Some (length errors)) None)
    end.

End GrammarAnalysis.

(** ** core/grammar_corrector.py *)

Section GrammarCorrector.

Variable env : Env.

(** The transformer branch: [Some] is the [corrected] it returns. *)
Definition model_stage (original_text : string) (use_model : bool)
  : option string :=
  if use_model then
    match grammar_model env with
    | ModelUnavailable => None
    | ModelPipeline run =>
        match run ("grammar: " ++ original_text) with
        | Some (first :: _) =>
            let corrected := orelse first original_text in
            if nonempty corrected && negb (corrected == original_text)
            then Some (Py.strip corrected)
            else None
        | _ => None
        end
    | ModelManual generate =>
        match generate ("grammar: " ++ original_text) with
        | Some corrected =>
            if nonempty corrected && negb (corrected == original_text)
            then Some (Py.strip corrected)
            else None
        | None => None
        end
    end
  else None.

(** The rule-based fallback inside its [try]: [Some] is the
    [corrected] it returns. *)
Definition structure_stage (original_text : string) : option string :=
  match correct_sentence_structure env original_text with
  | Ok result =>
      let corrected := ensure_format (sr_corrected result) in
      if nonempty corrected && negb (corrected == original_text)
      then Some corrected
      else None
  | Raised _ => None
  end.

Definition correct_text (text : string) (use_model : bool) : TextResult :=
  if Py.blank text then mkTextResult text text "none"
  else
    let original_text := Py.strip text in
    match model_stage original_text use_model with
    | Some corrected => mkTextResult original_text corrected "t5_model"
    | None =>
        match structure_stage original_text with
        | Some corrected => mkTextResult original_text corrected "rule_based"
        | None => mkTextResult original_text original_text "none"
        end
    end.

Definition correct_batch (texts : list string) : list TextResult :=
  map (fun text => correct_text text true) texts.

End GrammarCorrector.

(** ** core/explanation_engine.py *)

(** An entry of [explanations]: LanguageTool entries have
    [suggestions], rule-based ones have [example]. *)
Record Explanation : Type := mkExplanation {
  ex_type : string;
  ex_message : string;
  ex_suggestions : option (list string);
  ex_rule : string;
  ex_example : option string
}.

(** An entry of [errors]. *)
Record ErrorInfo : Type := mkErrorInfo {
  ei_error : string;
  ei_suggestions : list string;
  ei_context : string;
  ei_offset : nat;
  ei_errorLength : nat;
  ei_rule_id : string;
  ei_category : string
}.

(** The dictionary [explain_correction] returns; [correction_applied]
    is absent when no text was provided. *)
Record ExplanationBundle : Type := mkBundle {
  eb_summary : string;
  eb_explanations : list Explanation;
  eb_errors : list ErrorInfo;
  eb_suggestions : list string;
  eb_correction_applied : option bool
}.

(** The module-level [language_tool]. *)
Definition LanguageToolState : Type :=
  option (string -> option (list LTMatch)).

Definition generate_rule_based_explanations (original corrected : string)
  : result (list Explanation) :=
  let original_lower := Py.lower original in
  let corrected_lower := Py.lower corrected in
  let e1 :=
    if Py.contains "my name is" corrected_lower && Py.contains "i" original_lower
       && Py.contains "name" original_lower
    then
      if negb (Py.contains "my name is" original_lower)
      then [mkExplanation "word_order"
              "Sentence structure corrected: English follows Subject-Verb-Object order."
              None
              "English sentence structure: 'My name is [name]' is the standard format."
              (Some ("❌ '" ++ original ++ "' → ✅ '" ++ corrected ++ "'"))]
      else []
    else [] in
  let e2 :=
    if Py.contains "i am a" corrected_lower || Py.contains "i am an" corrected_lower
    then
      if negb (Py.contains "i am a" original_lower)
         && negb (Py.contains "i am an" original_lower)
      then [mkExplanation "missing_article"
              "Added article 'a' or 'an' before the noun." None
              "Use 'a' before consonant sounds, 'an' before vowel sounds."
              (Some "I am student → I am a student")]
      else []
    else [] in
  let e3 :=
    if Py.contains "to" corrected_lower && negb (Py.contains "to" original_lower)
    then
      if existsb (fun verb => Py.contains verb original_lower)
                 ["like"; "want"; "need"; "try"]
      then [mkExplanation "missing_infinitive"
              "Added 'to' before the verb to form an infinitive." None
              "After verbs like 'like', 'want', 'need', use 'to' + base verb."
              (Some "I like play → I like to play")]
      else []
    else [] in
  match corrected with
  | EmptyString => Raised IndexError
  | String c _ =>
      e4 <-
        (if Py.isupper c then
           match original with
           | EmptyString => Raised IndexError
           | String o _ =>
               if Py.islower o
               then Ok [mkExplanation "capitalization"
                          "Capitalized the first letter of the sentence." None
                          "Sentences must begin with a capital letter."
                          (Some ("'" ++ original ++ "' → '" ++ corrected ++ "'"))]
               else Ok []
           end
         else Ok []);;
      let e5 :=
        if Py.endswith_dot corrected && negb (Py.endswith_dot original)
        then [mkExplanation "punctuation"
                "Added period at the end of the sentence." None
                "Declarative sentences end with a period."
                (Some ("'" ++ original ++ "' → '" ++ corrected ++ "'"))]
        else [] in
      Ok (e1 ++ e2 ++ e3 ++ e4 ++ e5)%list
  end.

(** [str(error_types)] prints the categories as keys and their counts:
    a run of letters is in it exactly when it is in a category. *)
Definition generate_correction_summary (original corrected : string)
    (errors : list ErrorInfo) : string :=
  if (length errors =? 0) && (original == corrected)
  then "Your sentence is grammatically correct."
  else
    let in_types (name : string) :=
      existsb (fun e => Py.contains name (ei_category e)) errors in
    let p1 := if in_types "GRAMMAR" then ["Fixed grammatical errors"] else [] in
    let p2 := if in_types "TYPOS" then ["Corrected spelling mistakes"] else [] in
    let p3 := if in_types "STYLE" then ["Improved writing style"] else [] in
    let p4 :=
      if Py.contains "my name is" (Py.lower corrected)
         && negb (Py.contains "my name is" (Py.lower original))
      then ["Restructured sentence to follow English word order"] else [] in
    let p5 :=
      if Py.contains "to" (Py.lower corrected)
         && negb (Py.contains "to" (Py.lower original))
      then ["Added missing infinitive marker 'to'"] else [] in
    let p6 :=
      if existsb (fun article => Py.contains article (Py.lower corrected))
                 [" a "; " an "]
         && negb (existsb (fun article => Py.contains article (Py.lower original))
                          [" a "; " an "])
      then ["Added missing articles"] else [] in
    let summary_parts := (p1 ++ p2 ++ p3 ++ p4 ++ p5 ++ p6)%list in
    match summary_parts with
    | [] => "Rephrased to follow standard English syntax and subject-verb order."
    | _ :: _ => String.concat " | " summary_parts ++ "."
    end.

Section ExplanationEngine.

Variable env : Env.

(** [load_language_tool()]: its answer, the instance to use and the
    new value of the global. *)
Definition load_language_tool (language_tool : LanguageToolState)
  : LanguageToolState :=
  match language_tool with
  | Some tool => Some tool
  | None => language_tool_loader env
  end.

Definition error_info (m : LTMatch) : ErrorInfo :=
  mkErrorInfo (lt_message m) (firstn 3 (lt_replacements m)) (lt_context m)
              (lt_offset m) (lt_errorLength m) (lt_ruleId m) (lt_category m).

Definition language_tool_explanation (m : LTMatch) : Explanation :=
  mkExplanation "language_tool" (lt_message m)
                (Some (firstn 3 (lt_replacements m))) (lt_ruleId m) None.

(** The suggestions of an explanation: at most two of them. *)
Definition explanation_suggestions (exp : Explanation) : list string :=
  match ex_suggestions exp with
  | Some l => firstn 2 l
  | None => []
  end.

(** [explain_correction(original, corrected)], with the global
    [language_tool] threaded through. *)
Definition explain_correction (language_tool : LanguageToolState)
    (original corrected : string)
  : result ExplanationBundle * LanguageToolState :=
  if Py.blank original
  then (Ok (mkBundle "No text provided." [] [] [] None), language_tool)
  else
    let language_tool' := load_language_tool language_tool in
    let matches :=
      match language_tool' with
      | Some tool => match tool original with Some l => l | None => [] end
      | None => []
      end in
    let errors := map error_info matches in
    let explanations := map language_tool_explanation matches in
    (rule_based <- generate_rule_based_explanations original corrected;;
     let explanations := (explanations ++ rule_based)%list in
     let summary :=
       if negb (original == corrected)
       then generate_correction_summary original corrected errors
       else "Your sentence is grammatically correct." in
     let suggestions := flat_map explanation_suggestions explanations in
     Ok (mkBundle summary explanations errors
           (firstn 5 (set_order env suggestions))
           (Some (negb (original == corrected)))),
     language_tool').

End ExplanationEngine.

(** ** Stand-ins for the libraries

    They give the examples something to run on: one sentence per text,
    a tokenizer that splits on white space and detaches a final
    punctuation mark, a spell checker that changes nothing, no parser,
    no model, no AI client, no LanguageTool. *)

Definition one_sentence (text : string) : list string := [text].

Definition detach_final_mark (word : string) : list string :=
  match Py.last_char word with
  | Some c =>
      if Py.mem_char c ".!?," && (1 <? String.length word)
      then [Py.take (String.length word - 1) word; String c EmptyString]
      else [word]
  | None => []
  end.

Definition simple_word_tokenize (text : string) : list string :=
  flat_map detach_final_mark (Py.split text).

Definition plain_env : Env :=
  mkEnv one_sentence simple_word_tokenize (fun _ => None) (fun s => s)
        None None None ModelUnavailable None None (nodup string_dec).

(** An environment with one field replaced. *)
Definition with_sent_tokenize (f : string -> list string) (e : Env) : Env :=
  mkEnv f (word_tokenize e) (pos_tag e) (textblob_correct e)
        (nlp_structure e) (nlp_grammar e) (corrector e) (grammar_model e)
        (ai_client e) (language_tool_loader e) (set_order e).

Definition with_word_tokenize (f : string -> list string) (e : Env) : Env :=
  mkEnv (sent_tokenize e) f (pos_tag e) (textblob_correct e)
        (nlp_structure e) (nlp_grammar e) (corrector e) (grammar_model e)
        (ai_client e) (language_tool_loader e) (set_order e).

Definition with_textblob (f : string -> string) (e : Env) : Env :=
  mkEnv (sent_tokenize e) (word_tokenize e) (pos_tag e) f
        (nlp_structure e) (nlp_grammar e) (corrector e) (grammar_model e)
        (ai_client e) (language_tool_loader e) (set_order e).

Definition with_nlp_structure (p : option (string -> list Token)) (e : Env) : Env :=
  mkEnv (sent_tokenize e) (word_tokenize e) (pos_tag e) (textblob_correct e)
        p (nlp_grammar e) (corrector e) (grammar_model e)
        (ai_client e) (language_tool_loader e) (set_order e).

Definition with_nlp_grammar (p : option (string -> list Token)) (e : Env) : Env :=
  mkEnv (sent_tokenize e) (word_tokenize e) (pos_tag e) (textblob_correct e)
        (nlp_structure e) p (corrector e) (grammar_model e)
        (ai_client e) (language_tool_loader e) (set_order e).

Definition with_corrector (c : option (string -> option (list (option string))))
    (e : Env) : Env :=
  mkEnv (sent_tokenize e) (word_tokenize e) (pos_tag e) (textblob_correct e)
        (nlp_structure e) (nlp_grammar e) c (grammar_model e)
        (ai_client e) (language_tool_loader e) (set_order e).

Definition with_grammar_model (m : GrammarModel) (e : Env) : Env :=
  mkEnv (sent_tokenize e) (word_tokenize e) (pos_tag e) (textblob_correct e)
        (nlp_structure e) (nlp_grammar e) (corrector e) m
        (ai_client e) (language_tool_loader e) (set_order e).

Definition with_ai_client (c : option (string -> string -> option string))
    (e : Env) : Env :=
  mkEnv (sent_tokenize e) (word_tokenize e) (pos_tag e) (textblob_correct e)
        (nlp_structure e) (nlp_grammar e) (corrector e) (grammar_model e)
        c (language_tool_loader e) (set_order e).

(** A library function with its answer on one argument fixed. *)
Definition override {A : Type} (k : string) (v : A) (f : string -> A)
  : string -> A :=
  fun s => if s == k then v else f s.

(** The advice of the missing-verb error of the rule-based detector. *)
Definition add_a_verb : string :=
  "Add a verb like 'is', 'am', 'are', 'have', etc.".

(** A spell checker that knows one misspelling. *)
Definition teh_env : Env :=
  with_textblob (Py.replace_all "teh" "the") plain_env.

(** A spell checker that takes the word "sed" for "said". *)
Definition sed_env : Env :=
  with_textblob (Py.replace_all " sed" " said") plain_env.

(** The correction of the lose/loose entry of [common_mistakes]. *)
Definition lose_advice : string :=
  "Use 'lose' when you misplace something, 'loose' when something is not tight".

(** The substitution by offsets the specification describes: the
    characters of [text] from [start] to [stop] make room for
    [correction]. *)
Definition spec_substitute_span (start stop : nat) (correction text : string)
  : string :=
  Py.take start text ++ correction ++ Py.drop stop text.

(** The types the "simple replacements" of [correct_grammar] apply to. *)
Definition fragment_types : list string :=
  ["spelling"; "common_mistake"; "subject_verb_agreement"].

Definition fragment_change (e : Finding) : Change :=
  mkChange (f_type e) (orelse (f_text e) "") (orelse (f_correction e) "")
           (Some (f_message e)) None.

(** A T5 corrector that answers in lower case and without full stop. *)
Definition t5_env : Env :=
  with_corrector (Some (fun _ => Some [Some "the cat sleeps"])) plain_env.

(** A fine-tuned grammar model that answers with a single word. *)
Definition short_model_env : Env :=
  with_grammar_model (ModelPipeline (fun _ => Some [Some "Cat"])) plain_env.

Definition auto_change (text t5_corrected : string) : Change :=
  mkChange "auto_correction" text t5_corrected
           (Some "AI-powered grammar correction") None.

(** ** Predicates of the statements *)

(** The strings [strip] leaves alone. *)
Definition stripped (s : string) : Prop := Py.strip s = s.

(** The tags the specification lists. *)
Definition spec_method_tags : list string :=
  ["ai_enhanced"; "structural"; "model_based"; "rule_based"; "none"].

(** [result.get("method", "none")], the way routers/corrector.py reads
    the method of a result. *)
Definition method_or_none (r : GrammarResult) : string :=
  orelse (gr_method r) "none".

Definition not_auto (c : Change) : Prop := ch_type c <> "auto_correction".

(** The text after the formatting stage. *)
Definition normalized (env : Env) (text : string) : string :=
  Py.join_space (flat_map fix_sentence (sent_tokenize env text)).

(** What the code relies on from the libraries: NLTK finds a token in
    a text that is not blank, and a spaCy token has a text. *)
Definition env_wf (env : Env) : Prop :=
  (forall s, Py.blank s = false -> word_tokenize env s <> [])
  /\ (forall nlp s t, nlp_structure env = Some nlp -> In t (nlp s) ->
                      tok_text t <> "").

(** The suggestion of a missing-subject error has a first word. *)
Definition subject_ok (e : Finding) : Prop :=
  f_type e = "missing_subject" -> Py.split (orelse (f_suggestion e) "") <> [].

Definition no_subject (e : Finding) : Prop := f_type e <> "missing_subject".

(** The spans and texts of matches, for the examples. *)
Definition spans (l : list Re.rmatch) : list (nat * nat * string) :=
  map (fun m => (Re.m_start m, Re.m_end m, Re.m_text m)) l.


(** ** Definitions for the further properties *)

(** The three steps after the strip, on a stripped string. *)
Definition capitalize_and_stop (c1 : string) : string :=
  let c2 := if nonempty c1 && negb (Py.first_isupper c1)
            then Py.upper_first c1 else c1 in
  if nonempty c2 && negb (Py.ends_terminal c2) then c2 ++ "." else c2.

(** A change entry as [correct_sentence_structure] writes it. *)
Definition is_structure_change (c : Change) : Prop :=
  ch_type c = "structure_correction"
  /\ ch_message c = None
  /\ ch_errors_fixed c <> None.

(** A grammar model that answers with white space. *)
Definition blank_model_env : Env :=
  with_grammar_model (ModelPipeline (fun _ => Some [Some "   "])) plain_env.

(** The AI-enhanced stage has nothing to offer: no client, no
    completion, or a completion that is empty or the text itself once
    stripped. *)
Definition ai_declines (env : Env) (text : string) : Prop :=
  match ai_client env with
  | None => True
  | Some client =>
      match client (ai_prompt text) ai_system_prompt with
      | None => True
      | Some raw => Py.strip raw = "" \/ Py.strip raw = text
      end
  end.


(** An error dictionary on which [error["text"]] cannot fail. *)
Definition keyed (e : Finding) : Prop :=
  f_correction e = None \/ f_text e <> None.

(** The state after a stage: the change list has grown, and if it has
    not, the text is the same. *)
Definition grows (st st' : CorrectionState) : Prop :=
  exists extra,
    snd st' = (snd st ++ extra)%list /\ (extra = [] -> fst st' = fst st).

(** The types of the errors of the rule-based structure detector. *)
Definition rulebased_types : list string :=
  ["sentence_fragment"; "word_order"; "missing_words"; "missing_verb";
   "missing_article"; "missing_article_or_preposition"; "missing_infinitive"].

(** An error as the rule-based structure detector writes it for
    [sentence]: it names the sentence and a suggestion and has no span,
    text or correction. *)
Definition rulebased_finding (sentence : string) (e : Finding) : Prop :=
  f_sentence e = Some sentence
  /\ f_suggestion e <> None
  /\ f_start e = None /\ f_end e = None /\ f_text e = None
  /\ f_correction e = None
  /\ In (f_type e) rulebased_types
  /\ In (f_severity e) ["high"; "medium"; "low"].

Definition no_correction (e : Finding) : Prop := f_correction e = None.

(** A spaCy token of the parse used by [detect_grammar_errors] has a
    text. *)
Definition grammar_parser_wf (env : Env) : Prop :=
  forall nlp s t, nlp_grammar env = Some nlp -> In t (nlp s) -> tok_text t <> "".

(** The errors of [l] whose sort key is [k], in the order of [l]. *)
Definition with_key (k : Z) (l : list Finding) : list Finding :=
  filter (fun e => (start_key e =? k)%Z) l.

(** A list of errors in non-increasing order of their sort key. *)
Fixpoint descending (l : list Finding) : Prop :=
  match l with
  | [] => True
  | x :: l' => Forall (fun y => (start_key y <= start_key x)%Z) l' /\ descending l'
  end.

(** The matches [explain_correction] gets from LanguageTool: none when
    it cannot be loaded or when [check] raises. *)
Definition language_tool_matches (env : Env) (language_tool : LanguageToolState)
    (original : string) : list LTMatch :=
  match load_language_tool env language_tool with
  | Some tool => match tool original with Some l => l | None => [] end
  | None => []
  end.

Definition summary_correct : string := "Your sentence is grammatically correct.".

(** A text that does not start with a lower-case letter and ends in a
    full stop, exclamation mark or question mark. *)
Definition formatted (s : string) : Prop :=
  Py.first_islower s = false /\ Py.ends_terminal s = true.

(** The types of the change entries of [correct_grammar] that are not
    structure corrections. *)
Definition edit_types : list string :=
  ["ai_correction"; "spelling"; "common_mistake"; "subject_verb_agreement";
   "word_order"; "missing_words"; "missing_subject"; "missing_verb";
   "auto_correction"; "textblob_correction"; "formatting"].

(** A change entry as [correct_grammar] writes it: a structure
    correction, or an edit with a message and no list of errors. *)
Definition known_change (c : Change) : Prop :=
  is_structure_change c
  \/ (In (ch_type c) edit_types /\ ch_message c <> None /\ ch_errors_fixed c = None).

(** A stage appends changes that satisfy [P]. *)
Definition adds (P : Change -> Prop) (st st' : CorrectionState) : Prop :=
  exists extra, snd st' = (snd st ++ extra)%list /\ Forall P extra.

(** A correction as [analyze_sentence_structure] offers it for a text
    cut into [sentences]: it is for one of the sentences, stripped,
    and it is a formatted text other than the sentence. *)
Definition sound_correction (sentences : list string) (c : Correction) : Prop :=
  (exists raw, In raw sentences /\ co_original c = Py.strip raw)
  /\ co_original c <> ""
  /\ co_corrected c <> co_original c
  /\ co_corrected c <> ""
  /\ stripped (co_corrected c)
  /\ formatted (co_corrected c).

(** The change of the formatting stage. *)
Definition formatting_change (original corrected : string) : Change :=
  mkChange "formatting" original corrected
           (Some "Capitalization and punctuation fixes") None.

(** The matcher went from [st] to [st'] by reading characters of the
    text. *)
Definition reaches (st st' : Re.rstate) : Prop :=
  exists n,
    Re.rs_pos st' = Re.rs_pos st + n
    /\ n <= String.length (Re.rs_rest st)
    /\ Re.rs_rest st' = Py.drop n (Re.rs_rest st).

(** A match lies in the text and its text is the slice it spans. *)
Definition match_in (text : string) (m : Re.rmatch) : Prop :=
  Re.m_start m <= Re.m_end m <= String.length text
  /\ Re.m_text m = Py.slice (Re.m_start m) (Re.m_end m) text.

(** Matches in ascending order from [from] on, none overlapping the
    one before. *)
Fixpoint ascending (text : string) (from : nat) (l : list Re.rmatch) : Prop :=
  match l with
  | [] => True
  | m :: l' => from <= Re.m_start m /\ match_in text m /\ ascending text (Re.m_end m) l'
  end.

(** An error whose span lies in the text and whose text is the slice
    [text[start:end]]. *)
Definition span_in (text : string) (e : Finding) : Prop :=
  exists a b,
    f_start e = Some (Z.of_nat a) /\ f_end e = Some (Z.of_nat b)
    /\ a <= b <= String.length text
    /\ f_text e = Some (Py.slice a b text).

(** A T5 corrector that answers with a single word. *)
Definition short_corrector_env : Env :=
  with_corrector (Some (fun _ => Some [Some "Cat"])) plain_env.




(** ** core/contextual_grammar.py *)

(** [str(n)] *)
Definition str_of_nat (n : nat) : string :=
  NilZero.string_of_uint (Nat.to_uint n).

(** An entry of the [changes] of a paragraph: a change with the index
    of its sentence, and the context note the fallback adds. *)
Record ParagraphChange : Type := mkParagraphChange {
  pc_change : Change;
  pc_sentence_index : nat;
  pc_context_note : option string
}.

(** The dictionary of a paragraph; [method], [sentence_count] and
    [corrections_applied] are absent when no text was provided. *)
Record ParagraphResult : Type := mkParagraphResult {
  pr_original : string;
  pr_corrected : string;
  pr_changes : list ParagraphChange;
  pr_context_preserved : bool;
  pr_method : option string;
  pr_sentence_count : option nat;
  pr_corrections_applied : option nat
}.

(** What [correct_paragraph_with_context] returns: the dictionary of
    [correct_grammar] for a single sentence, its own otherwise. *)
Inductive ParagraphOutcome : Type :=
| SingleSentence (r : GrammarResult)
| Paragraph (r : ParagraphResult).

Definition paragraph_prompt (text : string) : string :=
  "Correct this English paragraph while preserving context and coherence across sentences. Fix:"
    ++ nl ++
  "1. Grammar errors in each sentence" ++ nl ++
  "2. Spelling mistakes" ++ nl ++
  "3. Punctuation and capitalization" ++ nl ++
  "4. Sentence structure and word order" ++ nl ++
  "5. Cross-sentence coherence (pronoun references, tense consistency, logical flow)"
    ++ nl ++
  "6. Paragraph structure and transitions" ++ nl ++ nl ++
  "Maintain the original meaning and context. Return the fully corrected paragraph."
    ++ nl ++ nl ++
  "Original Paragraph:" ++ nl ++ text ++ nl ++ nl ++
  "Corrected Paragraph:".

Definition paragraph_system_prompt : string :=
  "You are an English grammar expert specializing in contextual paragraph correction. Preserve meaning and coherence while fixing all errors.".

(** The loop over [enumerate(zip(sentences, corrected_sentences))],
    from index [i]. *)
Fixpoint contextual_changes (i : nat) (sentences corrected_sentences : list string)
  : list ParagraphChange :=
  match sentences, corrected_sentences with
  | orig_sent :: sentences', corr_sent :: corrected_sentences' =>
      let message :=
        "Sentence " ++ str_of_nat (i + 1) ++ " corrected with context awareness" in
      ((if negb (Py.strip orig_sent == Py.strip corr_sent)
        then [mkParagraphChange
                (mkChange "contextual_correction" (Py.strip orig_sent)
                   (Py.strip corr_sent) (Some message) None)
                i None]
        else [])
       ++ contextual_changes (S i) sentences' corrected_sentences')%list
  | _, _ => []
  end.

Section ContextualGrammar.

Variable env : Env.

(** The try block of the contextual correction: [Some] when it returns
    a result, [None] when control falls through to the correction
    sentence by sentence. *)
Definition contextual_ai_stage (text : string) (sentences : list string)
    (use_ai : bool) : option ParagraphResult :=
  if use_ai && is_ai_available env then
    match generate_ai_response env (paragraph_prompt text) paragraph_system_prompt with
    | Some ai_corrected =>
        if nonempty ai_corrected && nonempty (Py.strip ai_corrected)
           && negb (Py.strip ai_corrected == text)
        then
          let corrected_sentences := sent_tokenize env (Py.strip ai_corrected) in
          let changes :=
            contextual_changes 0 sentences
              (firstn (length sentences) corrected_sentences) in
          Some (mkParagraphResult text (Py.strip ai_corrected) changes true
                  (Some "ai_contextual") (Some (length sentences))
                  (Some (length changes)))
        else None
    | None => None
    end
  else None.

(** The loop of the fallback over [enumerate(sentences)] from index
    [i], in a paragraph of [count] sentences: the corrected sentences
    and the changes. *)
Fixpoint sentence_by_sentence (use_ai : bool) (count i : nat)
    (sentences : list string) : result (list string * list ParagraphChange) :=
  match sentences with
  | [] => Ok ([], [])
  | sentence :: sentences' =>
      let context_note :=
        "Part of paragraph with " ++ str_of_nat count ++ " sentences" in
      correction <- correct_grammar env sentence use_ai;;
      rest <- sentence_by_sentence use_ai count (S i) sentences';;
      Ok (gr_corrected correction :: fst rest,
          (map (fun change => mkParagraphChange change i (Some context_note))
               (gr_changes correction)
           ++ snd rest)%list)
  end.

Definition correct_paragraph_with_context (text : string) (use_ai : bool)
  : result ParagraphOutcome :=
  if Py.blank text
  then Ok (Paragraph (mkParagraphResult text text [] true None None None))
  else
    let sentences := sent_tokenize env (Py.strip text) in
    if length sentences =? 1
    then r <- correct_grammar env text use_ai;; Ok (SingleSentence r)
    else
      match contextual_ai_stage text sentences use_ai with
      | Some r => Ok (Paragraph r)
      | None =>
          loop <- sentence_by_sentence use_ai (length sentences) 0 sentences;;
          let '(corrected_sentences, all_changes) := loop in
          Ok (Paragraph
                (mkParagraphResult text (Py.join_space corrected_sentences)
                   all_changes true (Some "sentence_by_sentence")
                   (Some (length sentences)) (Some (length all_changes))))
      end.

End ContextualGrammar.

(** The indices of the changes of a paragraph lie below [count]. *)
Definition indexed_below (count : nat) (changes : list ParagraphChange) : Prop :=
  Forall (fun c => pc_sentence_index c < count) changes.

(** A tokenizer that takes every full stop for the end of a sentence:
    the stand-in for NLTK's on paragraphs. *)
Fixpoint split_sentences (s cur : string) : list string :=
  match s with
  | EmptyString => if Py.is_empty (Py.strip cur) then [] else [Py.strip cur]
  | String c s' =>
      if Ascii.eqb c "."%char
      then Py.strip (cur ++ ".") :: split_sentences s' ""
      else split_sentences s' (cur ++ String c EmptyString)
  end.

Definition paragraph_env : Env :=
  with_sent_tokenize (fun s => split_sentences s "") plain_env.

(** ** core/grammar_analysis.py: rephrase_sentence *)

(** [l[i]] for an index of either sign. *)
Definition py_index (l : list string) (i : Z) : result string :=
  let n := Z.of_nat (length l) in
  if (0 <=? i)%Z && (i <? n)%Z then Ok (nth (Z.to_nat i) l "")
  else if (i <? 0)%Z && (0 <=? n + i)%Z then Ok (nth (Z.to_nat (n + i)) l "")
  else Raised IndexError.

(** The position a slice bound [i] stands for in a list of length
    [n]. *)
Definition slice_bound (n : nat) (i : Z) : nat :=
  if (i <? 0)%Z then Z.to_nat (Z.max 0 (Z.of_nat n + i))
  else Z.to_nat (Z.min i (Z.of_nat n)).

(** [l[:i]] and [l[i:]] *)
Definition slice_to (l : list string) (i : Z) : list string :=
  firstn (slice_bound (length l) i) l.

Definition slice_from (l : list string) (i : Z) : list string :=
  skipn (slice_bound (length l) i) l.

(** [re.sub(r, repl, s)] on the matches [re.finditer] yields. *)
Fixpoint sub_matches (repl : Re.rmatch -> string) (s : string) (pos : nat)
    (l : list Re.rmatch) : string :=
  match l with
  | [] => Py.drop pos s
  | m :: l' =>
      Py.slice pos (Re.m_start m) s ++ repl m ++ sub_matches repl s (Re.m_end m) l'
  end.

Definition re_sub (ic : bool) (r : Re.regex) (repl : Re.rmatch -> string)
    (s : string) : string :=
  sub_matches repl s 0 (Re.finditer ic r s).

(** An entry of [suggestions]. *)
Record Suggestion : Type := mkSuggestion {
  sg_type : string;
  sg_original : string;
  sg_suggestion : string;
  sg_explanation : string
}.

(** The dictionary [rephrase_sentence] returns. *)
Record RephraseResult : Type := mkRephraseResult {
  rr_original : string;
  rr_rephrased : string;
  rr_suggestions : list Suggestion
}.

(* \bvery\s+(\w+)\b  and  \breally\s+(\w+)\b *)
Definition re_redundant (word : string) : Re.regex :=
  Re.seqs [Re.WordB; Re.lit word; sp; gw 1; Re.WordB].

Definition redundant_patterns : list Re.regex :=
  [re_redundant "very"; re_redundant "really"].

(** The loop over [redundant_patterns]: the replacement is [\1]. *)
Fixpoint remove_redundant (patterns : list Re.regex) (sentence rephrased : string)
  : string * list Suggestion :=
  match patterns with
  | [] => (rephrased, [])
  | pattern :: patterns' =>
      match Re.search true pattern sentence with
      | Some _ =>
          let rephrased' := re_sub true pattern (grp 1) rephrased in
          let '(final, rest) := remove_redundant patterns' sentence rephrased' in
          (final,
           mkSuggestion "redundancy" sentence rephrased'
             "Removed redundant word for clarity" :: rest)
      | None => remove_redundant patterns' sentence rephrased
      end
  end.

(** The loop over [range(mid_point - 5, mid_point + 5)], as the list
    of its values. *)
Fixpoint find_break (words : list string) (candidates : list Z) (default : Z)
  : result Z :=
  match candidates with
  | [] => Ok default
  | i :: candidates' =>
      if (i <? Z.of_nat (length words))%Z then
        word <- py_index words i;;
        if Py.str_in (Py.lower word) [","; "and"; "but"; "or"]
        then Ok i
        else find_break words candidates' default
      else find_break words candidates' default
  end.

Definition range10 (from : Z) : list Z :=
  map (fun k => (from + Z.of_nat k)%Z) (seq 0 10).

(** "Break long sentences": the suggestion for a sentence of more
    than 80 characters cut into [words]. *)
Definition break_suggestion (sentence : string) (words : list string)
  : result Suggestion :=
  let mid_point := Z.of_nat (length words / 2) in
  break_point <- find_break words (range10 (mid_point - 5)) mid_point;;
  let first_part := Py.join_space (slice_to words break_point) in
  let second_part := Py.join_space (slice_from words break_point) in
  match second_part with
  | EmptyString => Raised IndexError
  | String c rest =>
      Ok (mkSuggestion "sentence_length" sentence
            (first_part ++ ". " ++ String (Py.upper_char c) rest)
            "Break long sentence into shorter, clearer sentences")
  end.

Definition rephrase_ai_prompt (text style : string) : string :=
  "Rephrase this text in a " ++ style ++ " style:" ++ nl ++ nl ++ text.

Definition rephrase_ai_system_prompt (style : string) : string :=
  "You are a text rephrasing expert. Rephrase text in a " ++ style
    ++ " style while maintaining the original meaning.".

Section Rephrase.

Variable env : Env.

(** The body of the loop over the sentences, for a sentence that is
    not empty once stripped: the rephrased sentence and the
    suggestions made for it. *)
Definition rephrase_one (sentence : string) : result (string * list Suggestion) :=
  let '(rephrased, redundancy) :=
    remove_redundant redundant_patterns sentence sentence in
  let voice :=
    if Py.contains "was" (Py.lower sentence) || Py.contains "were" (Py.lower sentence)
    then [mkSuggestion "voice" sentence sentence
            "Consider using active voice for clearer writing"]
    else [] in
  long <-
    (if 80 <? String.length sentence
     then s <- break_suggestion sentence (word_tokenize env sentence);; Ok [s]
     else Ok []);;
  Ok (rephrased, (redundancy ++ voice ++ long)%list).

Fixpoint rephrase_loop (sentences : list string)
  : result (list string * list Suggestion) :=
  match sentences with
  | [] => Ok ([], [])
  | raw :: sentences' =>
      let sentence := Py.strip raw in
      if Py.is_empty sentence then rephrase_loop sentences'
      else
        here <- rephrase_one sentence;;
        rest <- rephrase_loop sentences';;
        Ok (fst here :: fst rest, (snd here ++ snd rest)%list)
  end.

(** The try block of the AI rephrasing: [Some] when it returns a
    result. *)
Definition rephrase_ai_stage (text style : string) (use_ai : bool)
  : option RephraseResult :=
  if use_ai && is_ai_available env then
    match generate_ai_response env (rephrase_ai_prompt text style)
            (rephrase_ai_system_prompt style) with
    | Some ai_rephrased =>
        if nonempty ai_rephrased && nonempty (Py.strip ai_rephrased)
           && negb (Py.strip ai_rephrased == text)
        then
          Some (mkRephraseResult text (Py.strip ai_rephrased)
                  [mkSuggestion "ai_rephrasing" text (Py.strip ai_rephrased)
                     ("AI-enhanced rephrasing in a " ++ style ++ " style.")])
        else None
    | None => None
    end
  else None.

Definition rephrase_sentence (text style : string) (use_ai : bool)
  : result RephraseResult :=
  if Py.blank text then Ok (mkRephraseResult text text [])
  else
    match rephrase_ai_stage text style use_ai with
    | Some r => Ok r
    | None =>
        loop <- rephrase_loop (sent_tokenize env text);;
        let '(rephrased_sentences, suggestions) := loop in
        let rephrased_text := Py.join_space rephrased_sentences in
        let rephrased_text :=
          if rephrased_text == text then
            let corrected := textblob_correct env text in
            if negb (corrected == text) then corrected else rephrased_text
          else rephrased_text in
        Ok (mkRephraseResult text rephrased_text (firstn 5 suggestions))
    end.

End Rephrase.

(** The types of the suggestions. *)
Definition suggestion_types : list string :=
  ["ai_rephrasing"; "redundancy"; "voice"; "sentence_length"].



(** * Properties *)

(** ** Facts on the string primitives *)

Section PyFacts.

Import Py.

Lemma rstrip_idem : forall s, rstrip (rstrip s) = rstrip s.
Proof.
  induction s as [|c s IH]; simpl; [reflexivity|].
  destruct (rstrip s) as [|d r] eqn:E.
  - destruct (isspace c) eqn:Ec; simpl; [reflexivity|].
    now rewrite Ec.
  - simpl in *. now rewrite IH.
Qed.

Lemma lstrip_head : forall s c r, lstrip s = String c r -> isspace c = false.
Proof.
  induction s as [|d s IH]; simpl; intros c r H; [discriminate|].
  destruct (isspace d) eqn:Ed.
  - eauto.
  - now inversion H; subst.
Qed.

Lemma rstrip_keeps_head : forall c s,
  isspace c = false -> exists r, rstrip (String c s) = String c r.
Proof.
  intros c s Hc. simpl. destruct (rstrip s).
  - rewrite Hc. eauto.
  - eauto.
Qed.

Lemma lstrip_fixed : forall c s, isspace c = false -> lstrip (String c s) = String c s.
Proof. intros c s H. simpl. now rewrite H. Qed.

Lemma strip_head : forall s c r, strip s = String c r -> isspace c = false.
Proof.
  unfold strip. intros s c r H.
  destruct (lstrip s) as [|d t] eqn:E; [discriminate|].
  pose proof (lstrip_head _ _ _ E) as Hd.
  destruct (rstrip_keeps_head d t Hd) as [r' Hr].
  rewrite Hr in H. now inversion H; subst.
Qed.

Lemma lstrip_strip : forall s, lstrip (strip s) = strip s.
Proof.
  intros s. destruct (strip s) as [|c r] eqn:E; [reflexivity|].
  apply lstrip_fixed. eapply strip_head; eauto.
Qed.

(** [strip] is idempotent. *)
Lemma strip_idem : forall s, strip (strip s) = strip s.
Proof.
  intros s. unfold strip at 1. rewrite lstrip_strip.
  unfold strip. apply rstrip_idem.
Qed.

Lemma blank_strip : forall s, blank s = false -> blank (strip s) = false.
Proof.
  unfold blank. intros s H. apply orb_false_iff in H as [_ H].
  rewrite strip_idem, H. now destruct (strip s).
Qed.

Lemma is_empty_true : forall s, is_empty s = true -> s = "".
Proof. now destruct s. Qed.

Lemma blank_true_strip : forall s, blank s = true -> strip s = "".
Proof.
  unfold blank. intros s H. apply orb_true_iff in H as [H|H].
  - apply is_empty_true in H. now subst.
  - now apply is_empty_true.
Qed.

Lemma lstrip_all_space : forall s, is_empty (lstrip s) = all_space s.
Proof.
  induction s as [|c s IH]; cbn; [reflexivity|].
  destruct (isspace c); [exact IH | reflexivity].
Qed.

Lemma strip_empty_lstrip : forall s, is_empty (strip s) = is_empty (lstrip s).
Proof.
  intros s. unfold strip.
  destruct (lstrip s) as [|c r] eqn:E; [reflexivity|].
  destruct (rstrip_keeps_head c r (lstrip_head _ _ _ E)) as [r' Hr].
  now rewrite Hr.
Qed.

(** The test [not text or not text.strip()] holds of the empty text
    and of the texts of white space. *)
Lemma blank_all_space : forall s, blank s = all_space s.
Proof.
  intros s. unfold blank.
  rewrite strip_empty_lstrip, lstrip_all_space.
  now destruct s.
Qed.

Lemma upper_char_not_space : forall c, isspace (upper_char c) = isspace c.
Proof.
  intros c.
  destruct c as [[] [] [] [] [] [] [] []]; reflexivity.
Qed.

Lemma rstrip_append_dot : forall s, rstrip (s ++ ".") = s ++ ".".
Proof.
  induction s as [|c s IH]; [reflexivity|].
  cbn [append rstrip]. rewrite IH.
  destruct (s ++ ".") eqn:E; [|reflexivity].
  now destruct s.
Qed.

Lemma rstrip_change_head : forall c d s,
  isspace c = false -> isspace d = false ->
  rstrip (String c s) = String c s -> rstrip (String d s) = String d s.
Proof.
  intros c d s Hc Hd H. simpl in *.
  destruct (rstrip s) as [|e r] eqn:E.
  - rewrite Hc in H. rewrite Hd. inversion H. reflexivity.
  - inversion H. reflexivity.
Qed.

Lemma stripped_strip : forall s, stripped (strip s).
Proof. intros s. apply strip_idem. Qed.

Lemma stripped_rstrip : forall s, stripped s -> rstrip s = s.
Proof.
  unfold stripped. intros s H.
  rewrite <- H at 1. unfold strip. rewrite rstrip_idem. exact H.
Qed.

Lemma stripped_upper_first : forall s, stripped s -> stripped (upper_first s).
Proof.
  intros [|c s] H; [exact H|].
  pose proof (strip_head _ _ _ H) as Hc.
  pose proof (stripped_rstrip _ H) as Hr.
  unfold stripped, strip. cbn [upper_first].
  assert (Hu : isspace (upper_char c) = false) by now rewrite upper_char_not_space.
  rewrite lstrip_fixed by exact Hu.
  now apply rstrip_change_head with (c := c).
Qed.

Lemma stripped_append_dot : forall s, s <> "" -> stripped s -> stripped (s ++ ".").
Proof.
  intros [|c s] Hne H; [congruence|].
  pose proof (strip_head _ _ _ H) as Hc.
  unfold stripped, strip. cbn [append].
  rewrite lstrip_fixed by exact Hc.
  change (String c (s ++ ".")) with (String c s ++ ".").
  apply rstrip_append_dot.
Qed.

Lemma eqb_false_neq : forall a b : string, (a == b) = false -> a <> b.
Proof. intros a b H. now apply String.eqb_neq. Qed.

Lemma nonempty_true : forall s, nonempty s = true -> s <> "".
Proof. now destruct s. Qed.

End PyFacts.

(** ** What is known of a library is put into the environment *)

Section Tabulate.

Lemma override_same : forall (A : Type) (f : string -> A) k v,
  f k = v -> override k v f = f.
Proof.
  intros A f k v H. apply functional_extensionality. intros s.
  unfold override. destruct (s == k) eqn:E; [|reflexivity].
  apply String.eqb_eq in E. now subst.
Qed.

Lemma tab_sent_tokenize : forall env k v,
  sent_tokenize env k = v ->
  env = with_sent_tokenize (override k v (sent_tokenize env)) env.
Proof.
  intros [] k v H. cbn in *. unfold with_sent_tokenize. cbn.
  f_equal. symmetry. now apply override_same.
Qed.

Lemma tab_word_tokenize : forall env k v,
  word_tokenize env k = v ->
  env = with_word_tokenize (override k v (word_tokenize env)) env.
Proof.
  intros [] k v H. cbn in *. unfold with_word_tokenize. cbn.
  f_equal. symmetry. now apply override_same.
Qed.

Lemma tab_textblob : forall env k v,
  textblob_correct env k = v ->
  env = with_textblob (override k v (textblob_correct env)) env.
Proof.
  intros [] k v H. cbn in *. unfold with_textblob. cbn.
  f_equal. symmetry. now apply override_same.
Qed.

Lemma tab_nlp_structure : forall env p,
  nlp_structure env = p -> env = with_nlp_structure p env.
Proof. intros [] p H. cbn in *. unfold with_nlp_structure. cbn. now f_equal. Qed.

Lemma tab_nlp_grammar : forall env p,
  nlp_grammar env = p -> env = with_nlp_grammar p env.
Proof. intros [] p H. cbn in *. unfold with_nlp_grammar. cbn. now f_equal. Qed.

Lemma tab_corrector : forall env c,
  corrector env = c -> env = with_corrector c env.
Proof. intros [] c H. cbn in *. unfold with_corrector. cbn. now f_equal. Qed.

Lemma tab_grammar_model : forall env m,
  grammar_model env = m -> env = with_grammar_model m env.
Proof. intros [] m H. cbn in *. unfold with_grammar_model. cbn. now f_equal. Qed.

Lemma tab_ai_client : forall env c,
  ai_client env = c -> env = with_ai_client c env.
Proof. intros [] c H. cbn in *. unfold with_ai_client. cbn. now f_equal. Qed.

End Tabulate.

(** [tabulate H] moves the equation [H] on a field of [env] into the
    environment of the goal, after which the goal computes. *)
Ltac tabulate H :=
  first
    [ rewrite (tab_sent_tokenize _ _ _ H)
    | rewrite (tab_word_tokenize _ _ _ H)
    | rewrite (tab_textblob _ _ _ H)
    | rewrite (tab_nlp_structure _ _ H)
    | rewrite (tab_nlp_grammar _ _ H)
    | rewrite (tab_corrector _ _ H)
    | rewrite (tab_grammar_model _ _ H)
    | rewrite (tab_ai_client _ _ H) ].

(** ** correct_text and correct_grammar: input handling and method tags *)

Lemma ensure_format_stripped : forall c, stripped (ensure_format c).
Proof.
  intros c. unfold ensure_format.
  destruct (nonempty c) eqn:Hc.
  - set (c1 := Py.strip c).
    assert (H1 : stripped c1) by apply stripped_strip.
    set (c2 := if nonempty c1 && negb (Py.first_isupper c1)
               then Py.upper_first c1 else c1).
    assert (H2 : stripped c2).
    { unfold c2. destruct (nonempty c1 && negb (Py.first_isupper c1));
        [now apply stripped_upper_first | exact H1]. }
    destruct (nonempty c2 && negb (Py.ends_terminal c2)) eqn:E; [|exact H2].
    apply andb_true_iff in E as [E _].
    apply stripped_append_dot; [now apply nonempty_true | exact H2].
  - destruct c; [reflexivity | discriminate].
Qed.

Lemma model_stage_stripped : forall env original_text use_model corrected,
  model_stage env original_text use_model = Some corrected -> stripped corrected.
Proof.
  unfold model_stage. intros env o b c H.
  destruct b; [|discriminate].
  destruct (grammar_model env) as [|run|generate]; [discriminate| |].
  - destruct (run _) as [[|first l]|]; try discriminate.
    destruct (_ && _); [|discriminate].
    inversion H. apply stripped_strip.
  - destruct (generate _); [|discriminate].
    destruct (_ && _); [|discriminate].
    inversion H. apply stripped_strip.
Qed.

Lemma structure_stage_stripped : forall env original_text corrected,
  structure_stage env original_text = Some corrected -> stripped corrected.
Proof.
  unfold structure_stage. intros env o c H.
  destruct (correct_sentence_structure env o); [|discriminate].
  destruct (_ && _); [|discriminate].
  inversion H. apply ensure_format_stripped.
Qed.

(** C3. Empty-input handling: on an empty or white-space-only text
    neither entry point raises; [correct_text] returns the input as
    [original] and as [corrected] with method "none", and
    [correct_grammar] returns the input as [original] and as
    [corrected] with an empty change list; its dictionary has no
    method key, which reads as "none". *)
Theorem empty_input_returned_unchanged :
  forall env text use_model use_ai,
    Py.all_space text = true ->
    correct_text env text use_model = mkTextResult text text "none"
    /\ exists r,
         correct_grammar env text use_ai = Ok r
         /\ gr_original r = text
         /\ gr_corrected r = text
         /\ gr_changes r = []
         /\ method_or_none r = "none".
Proof.
  intros env text use_model use_ai H. rewrite <- blank_all_space in H.
  unfold correct_text, correct_grammar. rewrite H. split; [reflexivity|].
  eexists. repeat split.
Qed.

Lemma empty_input_returned_unchanged_witness :
  correct_text plain_env "   " true = mkTextResult "   " "   " "none"
  /\ exists r,
       correct_grammar plain_env "   " true = Ok r
       /\ gr_original r = "   "
       /\ gr_corrected r = "   "
       /\ gr_changes r = []
       /\ method_or_none r = "none".
Proof.
  apply (empty_input_returned_unchanged plain_env "   " true true). reflexivity.
Defined.

(** C10. Input normalization of [correct_text]: when the text has a
    character that is not white space, [original] is [text.strip()],
    neither [original] nor [corrected] has leading or trailing white
    space, and the whole result is the one of the stripped text: no
    stage sees the surrounding white space. *)
Theorem correct_text_strips_input :
  forall env text use_model,
    Py.all_space text = false ->
    let r := correct_text env text use_model in
    tr_original r = Py.strip text
    /\ stripped (tr_original r)
    /\ stripped (tr_corrected r)
    /\ r = correct_text env (Py.strip text) use_model.
Proof.
  intros env text use_model H r. subst r. rewrite <- blank_all_space in H.
  assert (Hs : Py.blank (Py.strip text) = false) by now apply blank_strip.
  unfold correct_text. rewrite H, Hs, strip_idem.
  destruct (model_stage env (Py.strip text) use_model) as [c|] eqn:Em.
  - cbn. repeat split; try apply stripped_strip.
    eapply model_stage_stripped; eauto.
  - destruct (structure_stage env (Py.strip text)) as [c|] eqn:Es.
    + cbn. repeat split; try apply stripped_strip.
      eapply structure_stage_stripped; eauto.
    + cbn. repeat split; apply stripped_strip.
Qed.

Lemma correct_text_strips_input_witness :
  let r := correct_text plain_env "  i nishanth name  " true in
  tr_original r = "i nishanth name"
  /\ stripped (tr_original r)
  /\ stripped (tr_corrected r)
  /\ r = correct_text plain_env "i nishanth name" true.
Proof.
  apply (correct_text_strips_input plain_env "  i nishanth name  " true).
  reflexivity.
Defined.

Lemma ai_stage_method : forall env text use_ai r,
  ai_stage env text use_ai = Some r -> gr_method r = Some "ai_enhanced".
Proof.
  unfold ai_stage. intros env text use_ai r H.
  destruct use_ai; [|discriminate].
  destruct (is_ai_available env); [|discriminate].
  destruct (generate_ai_response _ _ _); [|discriminate].
  destruct (_ && _); [|discriminate].
  destruct (correct_sentence_structure env text); [|discriminate].
  now inversion H.
Qed.

Lemma correct_grammar_method : forall env text use_ai r,
  correct_grammar env text use_ai = Ok r ->
  In (gr_method r) [Some "ai_enhanced"; Some "rule_based"; None].
Proof.
  unfold correct_grammar. intros env text use_ai r H.
  destruct (Py.blank text).
  { inversion H. cbn. auto. }
  destruct (ai_stage env text use_ai) as [r'|] eqn:Ea.
  { inversion H; subst. rewrite (ai_stage_method _ _ _ _ Ea). cbn. auto. }
  destruct (correct_sentence_structure env text) as [sc|]; [|discriminate].
  cbn [bind] in H.
  destruct (_ && _).
  { inversion H. cbn. auto. }
  destruct (detect_grammar_errors env text); [|discriminate].
  cbn [bind] in H.
  destruct (rule_based_stage _ _); [|discriminate].
  cbn [bind] in H.
  destruct (formatting_stage _ _) as [c' ch'].
  inversion H. cbn. auto.
Qed.

(** C8, as the code has it.  The method of [correct_text] is one of
    "none", "t5_model" and "rule_based"; a method that a result of
    [correct_grammar] carries is "ai_enhanced" or "rule_based". *)
Theorem method_tags_of_the_code :
  forall env text use_model use_ai,
    In (tr_method (correct_text env text use_model))
       ["none"; "t5_model"; "rule_based"]
    /\ match correct_grammar env text use_ai with
       | Ok r =>
           match gr_method r with
           | Some m => In m ["ai_enhanced"; "rule_based"]
           | None => True
           end
       | Raised _ => True
       end.
Proof.
  intros env text use_model use_ai. split.
  - unfold correct_text.
    destruct (Py.blank text); [cbn; auto|].
    destruct (model_stage _ _ _); [cbn; auto|].
    destruct (structure_stage _ _); cbn; auto.
  - destruct (correct_grammar env text use_ai) eqn:E; [|exact I].
    pose proof (correct_grammar_method _ _ _ _ E) as H.
    destruct (gr_method a) as [m|]; [|exact I].
    cbn in H. destruct H as [H|[H|[H|[]]]]; inversion H; cbn; auto.
Qed.

(** ** The structure check does not raise *)

Section StripMap.

Import Py.

Variable f : ascii -> ascii.
Hypothesis f_space : forall c, isspace (f c) = isspace c.

Lemma lstrip_map : forall s, lstrip (map_str f s) = map_str f (lstrip s).
Proof.
  induction s as [|c s IH]; cbn; [reflexivity|].
  rewrite f_space. destruct (isspace c); [exact IH | reflexivity].
Qed.

Lemma rstrip_map : forall s, rstrip (map_str f s) = map_str f (rstrip s).
Proof.
  induction s as [|c s IH]; cbn; [reflexivity|].
  rewrite IH, f_space. destruct (rstrip s); cbn; [|reflexivity].
  destruct (isspace c); reflexivity.
Qed.

Lemma strip_map : forall s, strip (map_str f s) = map_str f (strip s).
Proof. intros s. unfold strip. now rewrite lstrip_map, rstrip_map. Qed.

Lemma is_empty_map : forall s, is_empty (map_str f s) = is_empty s.
Proof. now destruct s. Qed.

Lemma blank_map : forall s, blank (map_str f s) = blank s.
Proof. intros s. unfold blank. now rewrite strip_map, !is_empty_map. Qed.

End StripMap.

Lemma lower_char_space : forall c, Py.isspace (Py.lower_char c) = Py.isspace c.
Proof. intros c. destruct c as [[] [] [] [] [] [] [] []]; reflexivity. Qed.

Lemma blank_lower : forall s, Py.blank (Py.lower s) = Py.blank s.
Proof. apply blank_map, lower_char_space. Qed.

Lemma strip_nonempty_not_blank : forall raw,
  Py.is_empty (Py.strip raw) = false -> Py.blank (Py.strip raw) = false.
Proof. intros raw H. unfold Py.blank. now rewrite strip_idem, H. Qed.

Lemma no_subject_ok : forall l, Forall no_subject l -> Forall subject_ok l.
Proof.
  intros l H. eapply Forall_impl; [|exact H].
  intros e He Hty. destruct (He Hty).
Qed.

Ltac split_cases :=
  repeat match goal with
         | |- context [if ?b then _ else _] => destruct b
         | |- context [match ?x with Some _ => _ | None => _ end] => destruct x
         | |- context [match ?x with [] => _ | _ :: _ => _ end] => destruct x
         end.

Ltac no_subject_list :=
  split_cases;
  repeat (constructor; [unfold no_subject; cbn; discriminate|]);
  try constructor.

Lemma detect_infinitive_no_subject : forall sentence verbs,
  Forall no_subject (detect_infinitive sentence verbs).
Proof.
  induction verbs as [|v vs IH]; cbn; [constructor|].
  destruct (Re.matches _ _ _); [|exact IH].
  destruct (Re.rmatch_at_start _ _ _); [|exact IH].
  destruct (_ || _); [|exact IH].
  destruct (nonempty _); repeat constructor; unfold no_subject; cbn; discriminate.
Qed.

Lemma rulebased_total : forall env sentence,
  word_tokenize env (Py.lower sentence) <> [] ->
  exists l, detect_structure_errors_rulebased env sentence = Ok l
            /\ Forall subject_ok l.
Proof.
  intros env sentence Hw. unfold detect_structure_errors_rulebased.
  destruct (word_tokenize env (Py.lower sentence)) as [|word0 words]; [congruence|].
  eexists. split; [reflexivity|].
  apply no_subject_ok.
  repeat (apply Forall_app; split);
    try apply detect_infinitive_no_subject; no_subject_list.
Qed.

Lemma word_order_no_subject : forall doc sentence,
  Forall no_subject (detect_word_order_errors doc sentence).
Proof.
  induction doc as [|t doc IH]; intros sentence; cbn; [constructor|].
  apply Forall_app. split; [|apply IH].
  destruct doc as [|t1 [|t2 doc']]; try constructor.
  unfold detect_word_order_error_at. no_subject_list.
Qed.

Lemma missing_articles_total : forall doc prev sentence,
  (forall t, In t doc -> tok_text t <> "") ->
  exists l, detect_missing_articles_from prev doc sentence = Ok l
            /\ Forall no_subject l.
Proof.
  induction doc as [|t doc IH]; intros prev sentence H; cbn.
  - eexists. split; [reflexivity | constructor].
  - destruct (IH (Some t) sentence) as [l [El Hl]].
    { intros t' Ht'. apply H. now right. }
    rewrite El.
    assert (Ht : tok_text t <> "") by (apply H; now left).
    destruct (tok_text t) as [|c u] eqn:Et; [congruence|].
    split_cases; cbn [bind]; eexists; (split; [reflexivity|]);
      try exact Hl;
      (constructor; [unfold no_subject; cbn; discriminate | exact Hl]).
Qed.

Lemma prepositions_no_subject : forall doc sentence,
  Forall no_subject (detect_missing_prepositions doc sentence).
Proof.
  intros doc sentence. unfold detect_missing_prepositions.
  apply Forall_forall. intros e He.
  apply in_flat_map in He as [[[words prep] prep0] [_ He]].
  apply in_flat_map in He as [m [_ He]].
  destruct (Re.search _ _ _); [destruct He|].
  destruct He as [<-|[]]. unfold no_subject. cbn. discriminate.
Qed.

Lemma spacy_total : forall doc sentence,
  (forall t, In t doc -> tok_text t <> "") ->
  exists l, detect_structure_errors_spacy doc sentence = Ok l
            /\ Forall subject_ok l.
Proof.
  intros doc sentence H. unfold detect_structure_errors_spacy, detect_missing_articles.
  destruct (missing_articles_total doc None sentence H) as [l [El Hl]].
  rewrite El. cbn [bind]. eexists. split; [reflexivity|].
  apply Forall_app; split;
    [|apply Forall_app; split;
      [|apply Forall_app; split; [|apply Forall_app; split]]].
  - split_cases; repeat constructor.
    unfold subject_ok. intros _. vm_compute. discriminate.
  - apply no_subject_ok. no_subject_list.
  - apply no_subject_ok, word_order_no_subject.
  - apply no_subject_ok, Hl.
  - apply no_subject_ok, prepositions_no_subject.
Qed.

Lemma replace_all_nonempty : forall old new s,
  new <> "" -> s <> "" -> Py.replace_all old new s <> "".
Proof.
  intros old new [|c s] Hn Hs; [congruence|].
  unfold Py.replace_all. cbn [Py.replace_all_aux].
  destruct (Py.starts_with old (String c s)); [|discriminate].
  destruct new; [congruence | discriminate].
Qed.


Lemma infinitive_rewrite_nonempty : forall low verbs r,
  infinitive_rewrite low verbs = Some r -> r <> "".
Proof.
  induction verbs as [|v vs IH]; intros r H; cbn [infinitive_rewrite] in H;
    [discriminate|].
  destruct (Re.rmatch_at_start true (re_i_verb_gw_gw v) low).
  { inversion H; subst. discriminate. }
  destruct (Re.rmatch_at_start true (re_i_verb_gw v) low).
  { inversion H; subst. discriminate. }
  now apply IH.
Qed.

Lemma append_nonempty_r : forall a b : string, b <> "" -> a ++ b <> "".
Proof. intros [|x a] b H; cbn; [exact H | discriminate]. Qed.

(** One round neither raises nor leaves the empty string behind. *)
Lemma structure_correction_step_total : forall sentence error corrected,
  sentence <> "" -> corrected <> "" -> subject_ok error ->
  exists c, structure_correction_step sentence error corrected = Ok c
            /\ forall corrected', c = Continue corrected' -> corrected' <> "".
Proof.
  intros sentence error corrected Hs Hc Hok.
  unfold structure_correction_step.
  destruct (f_type error == "word_order") eqn:E1.
  { split_cases; eexists; (split; [reflexivity|]);
      intros c' Hc'; inversion Hc'; subst; assumption. }
  destruct (f_type error == "missing_words") eqn:E2.
  { split_cases; eexists; (split; [reflexivity|]);
      intros c' Hc'; inversion Hc'; subst; assumption. }
  destruct (f_type error == "missing_subject") eqn:E3.
  { apply String.eqb_eq in E3. specialize (Hok E3).
    destruct (nonempty _).
    - destruct corrected as [|c t]; [congruence|].
      destruct (Py.islower c).
      + destruct (Py.split _) as [|first rest]; [congruence|].
        eexists. split; [reflexivity|].
        intros c' Hc'. inversion Hc'. apply append_nonempty_r. discriminate.
      + eexists. split; [reflexivity|].
        intros c' Hc'. inversion Hc'. apply append_nonempty_r. discriminate.
    - eexists. split; [reflexivity|].
      intros c' Hc'. inversion Hc'; subst; assumption. }
  destruct (f_type error == "missing_verb") eqn:E4.
  { destruct (Py.contains "name" _).
    - destruct (_ || _).
      + eexists. split; [reflexivity|].
        intros c' Hc'. inversion Hc'.
        apply replace_all_nonempty; [discriminate | assumption].
      + eexists. split; [reflexivity|].
        intros c' Hc'. inversion Hc'.
        destruct (Py.split sentence); [assumption | discriminate].
    - eexists. split; [reflexivity|].
      intros c' Hc'. inversion Hc'; subst; assumption. }
  destruct (f_type error == "missing_article") eqn:E5.
  { split_cases; eexists; (split; [reflexivity|]);
      intros c' Hc'; inversion Hc'; subst; assumption. }
  destruct (f_type error == "missing_infinitive") eqn:E6.
  { destruct (nonempty _).
    - eexists. split; [reflexivity|]. intros c' Hc'. inversion Hc'.
    - assert (Hr : orelse (infinitive_rewrite (Py.lower sentence) infinitive_verbs)
                          corrected <> "").
      { destruct (infinitive_rewrite (Py.lower sentence) infinitive_verbs) eqn:Ei;
          cbn [orelse]; [|assumption].
        eapply infinitive_rewrite_nonempty; eauto. }
      set (r := orelse _ corrected) in *.
      eexists. split; [reflexivity|]. intros c' Hc'. now injection Hc' as <-. }
  eexists. split; [reflexivity|].
  intros c' Hc'. inversion Hc'; subst; assumption.
Qed.

Lemma structure_correction_loop_total : forall sentence errors corrected,
  sentence <> "" -> corrected <> "" -> Forall subject_ok errors ->
  exists r, structure_correction_loop sentence errors corrected = Ok r.
Proof.
  induction errors as [|e es IH]; intros corrected Hs Hc Hok; cbn.
  - eauto.
  - inversion Hok; subst.
    destruct (structure_correction_step_total sentence e corrected Hs Hc H1)
      as [c [Ec Hn]].
    rewrite Ec. cbn [bind]. destruct c as [c'|c']; [eauto|].
    apply IH; auto.
Qed.

Lemma insert_desc_Forall : forall (P : Finding -> Prop) x l,
  P x -> Forall P l -> Forall P (insert_desc x l).
Proof.
  induction l as [|y l IH]; intros Hx Hl; cbn; [now constructor|].
  inversion Hl; subst.
  destruct (_ <? _)%Z; constructor; auto.
Qed.

Lemma sort_desc_Forall : forall (P : Finding -> Prop) l,
  Forall P l -> Forall P (sort_desc l).
Proof.
  induction l as [|x l IH]; intros H; cbn; [constructor|].
  inversion H; subst. apply insert_desc_Forall; auto.
Qed.

Lemma filter_Forall : forall (P : Finding -> Prop) f l,
  Forall P l -> Forall P (filter f l).
Proof.
  intros P f l H. apply Forall_forall. intros x Hx.
  apply filter_In in Hx as [Hx _]. rewrite Forall_forall in H. auto.
Qed.

Lemma generate_structure_correction_total : forall env sentence errors,
  sentence <> "" -> Forall subject_ok errors ->
  exists r, generate_structure_correction env sentence errors = Ok r.
Proof.
  intros env sentence errors Hs Hok. unfold generate_structure_correction.
  destruct (structure_correction_loop_total sentence
              (sort_desc (filter (same_sentence sentence) errors)) sentence Hs Hs)
    as [r Er].
  { apply sort_desc_Forall, filter_Forall, Hok. }
  rewrite Er. cbn [bind]. eauto.
Qed.

Lemma is_empty_false : forall s, Py.is_empty s = false -> s <> "".
Proof. intros [|c s] H; [discriminate | discriminate]. Qed.

Lemma analyze_loop_total : forall env sentences errors corrections,
  env_wf env -> Forall subject_ok errors ->
  exists r, analyze_loop env sentences errors corrections = Ok r.
Proof.
  intros env sentences errors corrections [Hw Hp].
  revert errors corrections.
  induction sentences as [|raw ss IH]; intros errors corrections Hok; cbn.
  - eauto.
  - destruct (Py.is_empty (Py.strip raw)) eqn:Ee; [now apply IH|].
    assert (Hs : Py.strip raw <> "") by now apply is_empty_false.
    assert (Hd : exists l,
               match nlp_structure env with
               | Some nlp => detect_structure_errors_spacy (nlp (Py.strip raw)) (Py.strip raw)
               | None => detect_structure_errors_rulebased env (Py.strip raw)
               end = Ok l /\ Forall subject_ok l).
    { destruct (nlp_structure env) as [nlp|] eqn:En.
      - apply spacy_total. intros t Ht. eapply Hp; eauto.
      - apply rulebased_total. apply Hw.
        rewrite blank_lower. now apply strip_nonempty_not_blank. }
    destruct Hd as [l [El Hl]]. rewrite El. cbn [bind].
    assert (Hall : Forall subject_ok (errors ++ l)) by (apply Forall_app; auto).
    destruct (errors ++ l)%list as [|e es] eqn:Eapp; [now apply IH|].
    destruct (generate_structure_correction_total env (Py.strip raw) (e :: es) Hs Hall)
      as [r Er].
    rewrite Er. cbn [bind]. now apply IH.
Qed.

(** Under [env_wf] the structure check returns. *)
Lemma correct_sentence_structure_total : forall env text,
  env_wf env -> exists sc, correct_sentence_structure env text = Ok sc.
Proof.
  intros env text Hwf. unfold correct_sentence_structure, analyze_sentence_structure.
  destruct (Py.blank text); [eauto|].
  destruct (analyze_loop_total env (sent_tokenize env text) [] [] Hwf (Forall_nil _))
    as [[errors corrections] Er].
  rewrite Er. cbn [bind].
  destruct (apply_corrections corrections text []) as [ct chs].
  destruct (_ && _); [|eauto].
  destruct (pick_error errors); [|eauto].
  destruct (intelligent_correction text f) as [[ct' ch]|]; eauto.
Qed.


(** The stand-in tokenizer is as [env_wf] wants it. *)
Lemma split_aux_head : forall s cur,
  cur <> "" -> exists w ws, Py.split_aux s cur = w :: ws /\ w <> "".
Proof.
  induction s as [|c s IH]; intros cur Hc; cbn.
  - destruct cur; [congruence|]. cbn. eauto.
  - destruct (Py.isspace c).
    + destruct cur; [congruence|]. cbn. eauto.
    + apply IH. apply append_nonempty_r. discriminate.
Qed.

Lemma split_aux_lstrip : forall s, Py.split_aux s "" = Py.split_aux (Py.lstrip s) "".
Proof.
  induction s as [|c s IH]; [reflexivity|].
  cbn [Py.lstrip]. destruct (Py.isspace c) eqn:E; [|reflexivity].
  cbn [Py.split_aux]. rewrite E. exact IH.
Qed.

Lemma split_not_blank : forall s,
  Py.blank s = false -> exists w ws, Py.split s = w :: ws /\ w <> "".
Proof.
  intros s H. unfold Py.split. rewrite split_aux_lstrip.
  unfold Py.blank in H. apply orb_false_iff in H as [_ H].
  unfold Py.strip in H.
  destruct (Py.lstrip s) as [|c r] eqn:E; [discriminate|].
  pose proof (lstrip_head _ _ _ E) as Hc.
  cbn [Py.split_aux]. rewrite Hc. apply split_aux_head. discriminate.
Qed.

Lemma last_char_nonempty : forall s, s <> "" -> exists c, Py.last_char s = Some c.
Proof.
  induction s as [|c s IH]; intros H; [congruence|].
  cbn. destruct s; [eauto|]. apply IH. discriminate.
Qed.

Lemma simple_word_tokenize_total : forall s,
  Py.blank s = false -> simple_word_tokenize s <> [].
Proof.
  intros s H. unfold simple_word_tokenize.
  destruct (split_not_blank s H) as [w [ws [E Hw]]].
  rewrite E. cbn [flat_map].
  unfold detach_final_mark.
  destruct (last_char_nonempty w Hw) as [c Ec]. rewrite Ec.
  destruct (_ && _); discriminate.
Qed.

Lemma plain_env_wf : env_wf plain_env.
Proof.
  split.
  - intros s H. apply simple_word_tokenize_total, H.
  - intros nlp s t H. discriminate H.
Qed.

(** ** The AI-enhanced stage *)

(** C1. Stage priority.  When the client is available and its
    completion, stripped, is not empty and differs from the text, the
    result of [correct_grammar] has that stripped completion as its
    corrected text and the method "ai_enhanced": the rule-based stages
    do not touch the corrected text, whatever they would have produced
    (the witness has a text the rule-based stage corrects otherwise).
    The text is not blank: a blank text is returned before the client
    is asked. *)
Theorem ai_enhanced_stage_priority :
  forall env client text raw,
    env_wf env ->
    Py.all_space text = false ->
    ai_client env = Some client ->
    client (ai_prompt text) ai_system_prompt = Some raw ->
    Py.strip raw <> "" ->
    Py.strip raw <> text ->
    exists r,
      correct_grammar env text true = Ok r
      /\ gr_original r = text
      /\ gr_corrected r = Py.strip raw
      /\ gr_method r = Some "ai_enhanced".
Proof.
  intros env client text raw Hwf Hb Hc Hr Hne Hdiff.
  rewrite <- blank_all_space in Hb.
  destruct (correct_sentence_structure_total env text Hwf) as [sc Hsc].
  unfold correct_grammar, ai_stage, is_ai_available, generate_ai_response.
  rewrite Hb, Hc, Hr. cbn [option_map].
  rewrite strip_idem, Hsc.
  assert (E1 : nonempty (Py.strip raw) = true)
    by (destruct (Py.strip raw); [congruence | reflexivity]).
  assert (E2 : (Py.strip raw == text) = false) by now apply String.eqb_neq.
  rewrite E1, E2. cbn.
  eexists. repeat split.
Qed.

(** The rule-based correction of "i nishanth name" is another one than
    the completion "I am Nishanth.", which wins. *)
Lemma ai_enhanced_stage_priority_witness :
  (exists r,
     correct_grammar (with_ai_client (Some (fun _ _ => Some " I am Nishanth. "))
                        plain_env)
                     "i nishanth name" true = Ok r
     /\ gr_original r = "i nishanth name"
     /\ gr_corrected r = "I am Nishanth."
     /\ gr_method r = Some "ai_enhanced")
  /\ (exists r,
        correct_grammar plain_env "i nishanth name" true = Ok r
        /\ gr_corrected r = "My name is Nishanth.").
Proof.
  split.
  - apply (ai_enhanced_stage_priority
             (with_ai_client (Some (fun _ _ => Some " I am Nishanth. ")) plain_env)
             (fun _ _ => Some " I am Nishanth. ") "i nishanth name"
             " I am Nishanth. ");
      try reflexivity; try (vm_compute; discriminate).
    exact plain_env_wf.
  - eexists. split; vm_compute; reflexivity.
Defined.

(** ** The explanation generator *)




(** ** The worked examples of the specification *)

(** C6. Fallback completeness.  Without AI client, parser and model,
    when NLTK takes "i nishanth name" for one sentence of three words,
    both entry points correct it to "My name is Nishanth." with the
    method "rule_based". *)
Theorem fallback_completeness :
  forall env use_model use_ai,
    ai_client env = None ->
    nlp_structure env = None ->
    grammar_model env = ModelUnavailable ->
    sent_tokenize env "i nishanth name" = ["i nishanth name"] ->
    word_tokenize env "i nishanth name" = ["i"; "nishanth"; "name"] ->
    correct_text env "i nishanth name" use_model
    = mkTextResult "i nishanth name" "My name is Nishanth." "rule_based"
    /\ exists r,
         correct_grammar env "i nishanth name" use_ai = Ok r
         /\ gr_corrected r = "My name is Nishanth."
         /\ gr_method r = Some "rule_based".
Proof.
  intros env use_model use_ai Ha Hn Hm Hs Hw.
  tabulate Ha. tabulate Hn. tabulate Hm. tabulate Hs. tabulate Hw.
  split.
  - destruct use_model; vm_compute; reflexivity.
  - eexists. destruct use_ai; vm_compute; repeat split.
Qed.

Lemma fallback_completeness_witness :
  correct_text plain_env "i nishanth name" true
  = mkTextResult "i nishanth name" "My name is Nishanth." "rule_based"
  /\ exists r,
       correct_grammar plain_env "i nishanth name" true = Ok r
       /\ gr_corrected r = "My name is Nishanth."
       /\ gr_method r = Some "rule_based".
Proof.
  apply (fallback_completeness plain_env true true); reflexivity.
Defined.

(** C2, on the code.  Without parser and model, with NLTK splitting
    the two texts in the usual way and TextBlob leaving "I like to
    play." alone: "i like play" is corrected to "I like to play.", and
    correcting that again replaces it by the advice of the
    missing-verb error.  So the correction is not idempotent, and a
    correct sentence does not come back unchanged. *)
Theorem correct_text_twice :
  forall env use_model,
    nlp_structure env = None ->
    grammar_model env = ModelUnavailable ->
    sent_tokenize env "i like play" = ["i like play"] ->
    word_tokenize env "i like play" = ["i"; "like"; "play"] ->
    sent_tokenize env "I like to play." = ["I like to play."] ->
    word_tokenize env "i like to play." = ["i"; "like"; "to"; "play"; "."] ->
    textblob_correct env "I like to play." = "I like to play." ->
    let once := correct_text env "i like play" use_model in
    let twice := correct_text env (tr_corrected once) use_model in
    once = mkTextResult "i like play" "I like to play." "rule_based"
    /\ twice = mkTextResult "I like to play." add_a_verb "rule_based"
    /\ tr_corrected twice <> tr_corrected once.
Proof.
  intros env use_model Hn Hm Hs1 Hw1 Hs2 Hw2 Hb.
  tabulate Hn. tabulate Hm. tabulate Hs1. tabulate Hw1.
  tabulate Hs2. tabulate Hw2. tabulate Hb.
  destruct use_model; vm_compute; repeat split; discriminate.
Qed.

Lemma correct_text_twice_witness :
  let once := correct_text plain_env "i like play" true in
  let twice := correct_text plain_env (tr_corrected once) true in
  once = mkTextResult "i like play" "I like to play." "rule_based"
  /\ twice = mkTextResult "I like to play." add_a_verb "rule_based"
  /\ tr_corrected twice <> tr_corrected once.
Proof.
  apply (correct_text_twice plain_env true); reflexivity.
Defined.

(** The no-op example of the specification does hold: "I am happy."
    has no structure error and comes back as it is. *)
Lemma i_am_happy_unchanged :
  forall env use_model,
    nlp_structure env = None ->
    grammar_model env = ModelUnavailable ->
    sent_tokenize env "I am happy." = ["I am happy."] ->
    word_tokenize env "i am happy." = ["i"; "am"; "happy"; "."] ->
    correct_text env "I am happy." use_model
    = mkTextResult "I am happy." "I am happy." "none".
Proof.
  intros env use_model Hn Hm Hs Hw.
  tabulate Hn. tabulate Hm. tabulate Hs. tabulate Hw.
  destruct use_model; vm_compute; reflexivity.
Qed.

(** C7, on the code.  Without parser and model, with NLTK splitting
    "I like play football." in the usual way and TextBlob leaving it
    alone: the only structure error found is "missing_verb" (the
    patterns of the missing-infinitive rule end in [$] and the full
    stop defeats them), and the corrected text is the advice of that
    error. *)
Theorem i_like_play_football_with_full_stop :
  forall env use_model,
    nlp_structure env = None ->
    grammar_model env = ModelUnavailable ->
    sent_tokenize env "I like play football." = ["I like play football."] ->
    word_tokenize env "i like play football."
      = ["i"; "like"; "play"; "football"; "."] ->
    textblob_correct env "I like play football." = "I like play football." ->
    correct_text env "I like play football." use_model
    = mkTextResult "I like play football." add_a_verb "rule_based"
    /\ exists sr errors,
         correct_sentence_structure env "I like play football." = Ok sr
         /\ sr_corrected sr = add_a_verb
         /\ sr_structure_errors sr = Some errors
         /\ map f_type errors = ["missing_verb"].
Proof.
  intros env use_model Hn Hm Hs Hw Hb.
  tabulate Hn. tabulate Hm. tabulate Hs. tabulate Hw. tabulate Hb.
  split.
  - destruct use_model; vm_compute; reflexivity.
  - do 2 eexists. vm_compute. repeat split.
Qed.

Lemma i_like_play_football_with_full_stop_witness :
  correct_text plain_env "I like play football." true
  = mkTextResult "I like play football." add_a_verb "rule_based"
  /\ exists sr errors,
       correct_sentence_structure plain_env "I like play football." = Ok sr
       /\ sr_corrected sr = add_a_verb
       /\ sr_structure_errors sr = Some errors
       /\ map f_type errors = ["missing_verb"].
Proof.
  apply (i_like_play_football_with_full_stop plain_env true); reflexivity.
Defined.

(** Without the full stop the rule fires as the specification says. *)
Lemma i_like_play_football_without_full_stop :
  forall env use_model,
    nlp_structure env = None ->
    grammar_model env = ModelUnavailable ->
    sent_tokenize env "I like play football" = ["I like play football"] ->
    word_tokenize env "i like play football"
      = ["i"; "like"; "play"; "football"] ->
    correct_text env "I like play football" use_model
    = mkTextResult "I like play football" "I like to play football." "rule_based"
    /\ exists sr errors,
         correct_sentence_structure env "I like play football" = Ok sr
         /\ sr_structure_errors sr = Some errors
         /\ map f_type errors = ["missing_verb"; "missing_infinitive"].
Proof.
  intros env use_model Hn Hm Hs Hw.
  tabulate Hn. tabulate Hm. tabulate Hs. tabulate Hw.
  split.
  - destruct use_model; vm_compute; reflexivity.
  - do 2 eexists. vm_compute. repeat split.
Qed.

(** ** The rule-based composite stage *)

Section FindReplace.

Import Py.

Lemma append_assoc' : forall a b c : string, (a ++ b) ++ c = a ++ b ++ c.
Proof. induction a as [|x a IH]; intros; cbn; [reflexivity | now rewrite IH]. Qed.

Lemma append_length' : forall a b : string,
  String.length (a ++ b) = String.length a + String.length b.
Proof. induction a as [|x a IH]; intros; cbn; [reflexivity | now rewrite IH]. Qed.

Lemma starts_with_self : forall f b, starts_with f (f ++ b) = true.
Proof.
  induction f as [|x f IH]; intros b; cbn; [reflexivity|].
  now rewrite Ascii.eqb_refl, IH.
Qed.

Lemma drop_app : forall f b, drop (String.length f) (f ++ b) = b.
Proof. induction f as [|x f IH]; intros b; cbn; [reflexivity | apply IH]. Qed.

Lemma take_app : forall f b, take (String.length f) (f ++ b) = f.
Proof. induction f as [|x f IH]; intros b; cbn; [reflexivity | now rewrite IH]. Qed.

Lemma find_here : forall f s, starts_with f s = true -> find f s = Some 0.
Proof. intros f s H. destruct s; cbn [find]; now rewrite H. Qed.

Lemma replace_first_here : forall f c s,
  starts_with f s = true ->
  replace_first f c s = c ++ drop (String.length f) s.
Proof. intros f c s H. destruct s; cbn [replace_first]; now rewrite H. Qed.

(** Whether [f] starts a string is read off its first [length f]
    characters. *)
Lemma starts_with_tail_indep : forall f x b b',
  String.length f <= String.length x ->
  starts_with f (x ++ b) = starts_with f (x ++ b').
Proof.
  induction f as [|c f IH]; intros x b b' H; [reflexivity|].
  destruct x as [|d x]; cbn in H; [lia|].
  cbn. rewrite (IH x b b') by lia. reflexivity.
Qed.

(** The first occurrence of [f] does not depend on what follows it. *)
Lemma find_tail_indep : forall f a b b',
  find f (a ++ f ++ b) = Some (String.length a) ->
  find f (a ++ f ++ b') = Some (String.length a).
Proof.
  induction a as [|x a IH]; intros b b' H.
  - cbn [append]. apply find_here, starts_with_self.
  - cbn [append String.length] in *.
    unfold find in *; fold find in *.
    assert (E : starts_with f (String x (a ++ f ++ b'))
                = starts_with f (String x (a ++ f ++ b))).
    { change (String x (a ++ f ++ b')) with (String x a ++ f ++ b').
      change (String x (a ++ f ++ b)) with (String x a ++ f ++ b).
      rewrite <- !append_assoc'.
      apply starts_with_tail_indep. rewrite append_length'. lia. }
    rewrite E.
    destruct (starts_with f (String x (a ++ f ++ b))); [discriminate|].
    destruct (find f (a ++ f ++ b)) as [n|] eqn:En; [|discriminate].
    cbn in H. inversion H; subst n.
    now rewrite (IH b b' En).
Qed.

(** [replace(f, c, 1)] rewrites the first occurrence of [f]. *)
Lemma replace_first_found : forall f c a b,
  find f (a ++ f ++ b) = Some (String.length a) ->
  replace_first f c (a ++ f ++ b) = a ++ c ++ b.
Proof.
  induction a as [|x a IH]; intros b H.
  - cbn [append]. rewrite replace_first_here by apply starts_with_self.
    now rewrite drop_app.
  - cbn [append String.length] in *.
    unfold find in H; fold find in H.
    unfold replace_first; fold replace_first.
    destruct (starts_with f (String x (a ++ f ++ b))); [discriminate|].
    destruct (find f (a ++ f ++ b)) as [n|] eqn:En; [|discriminate].
    cbn in H. inversion H; subst n.
    now rewrite (IH b En).
Qed.

Lemma find_contains : forall f s n, find f s = Some n -> contains f s = true.
Proof. unfold contains. intros f s n H. now rewrite H. Qed.

Lemma islower_upper_char : forall c, islower (upper_char c) = false.
Proof. intros c. destruct c as [[] [] [] [] [] [] [] []]; reflexivity. Qed.

Lemma isupper_not_islower : forall c, isupper c = true -> islower c = false.
Proof.
  intros c. destruct c as [[] [] [] [] [] [] [] []]; vm_compute; intros H;
    first [reflexivity | discriminate H].
Qed.

Lemma last_char_append_dot : forall s, last_char (s ++ ".") = Some "."%char.
Proof.
  induction s as [|c s IH]; [reflexivity|].
  cbn [append last_char]. rewrite IH.
  destruct (s ++ ".") eqn:E; [now destruct s | reflexivity].
Qed.

End FindReplace.

Lemma fragment_type_has_type : forall e,
  In (f_type e) fragment_types ->
  has_type ["spelling"; "common_mistake"; "subject_verb_agreement"] e = true
  /\ has_type ["word_order"; "missing_words"; "missing_subject"; "missing_verb"] e
     = false.
Proof.
  unfold has_type, fragment_types. intros e H.
  cbn in H. destruct H as [H|[H|[H|[]]]]; rewrite <- H; split; reflexivity.
Qed.

(** One round of the loop on a lexical error whose text is first
    found at its own offset. *)
Lemma apply_fix_found : forall e f c a b changes,
  In (f_type e) fragment_types ->
  f_text e = Some f ->
  f_correction e = Some c ->
  c <> "" ->
  Py.find f (a ++ f ++ b) = Some (String.length a) ->
  exists st,
    fragment_fix e (a ++ f ++ b, changes) = Ok st
    /\ sentence_fix e st = (a ++ c ++ b, (changes ++ [fragment_change e])%list).
Proof.
  intros e f c a b changes Hty Hf Hc Hne Hfind.
  destruct (fragment_type_has_type e Hty) as [H1 H2].
  unfold fragment_fix. rewrite Hc, H1, Hf.
  assert (Hn : nonempty c = true) by (destruct c; [congruence | reflexivity]).
  rewrite Hn. cbn [andb].
  rewrite (find_contains _ _ _ Hfind).
  eexists. split; [reflexivity|].
  unfold sentence_fix. rewrite H2.
  rewrite replace_first_found by exact Hfind.
  unfold fragment_change. now rewrite Hf, Hc.
Qed.

(** Every sentence the formatting stage emits starts with no
    lower-case letter and ends in a terminal mark. *)
Lemma fix_sentence_normalized : forall raw s,
  In s (fix_sentence raw) ->
  Py.first_islower s = false /\ Py.ends_terminal s = true.
Proof.
  unfold fix_sentence. intros raw s H.
  destruct (Py.strip raw) as [|c t] eqn:E; [destruct H|].
  cbn [nonempty Py.is_empty negb] in H.
  set (s1 := if negb (Py.first_isupper (String c t))
             then Py.upper_first (String c t) else String c t) in *.
  assert (H1 : Py.first_islower s1 = false).
  { unfold s1. cbn. destruct (Py.isupper c) eqn:Eu; cbn.
    - now apply isupper_not_islower.
    - apply islower_upper_char. }
  assert (Hs1 : exists d u, s1 = String d u).
  { unfold s1. cbn. destruct (negb (Py.isupper c)); eauto. }
  destruct Hs1 as [d [u Hs1]].
  destruct (Py.ends_terminal s1) eqn:Et; cbn in H; destruct H as [H|[]]; subst s.
  - now split.
  - split.
    + rewrite Hs1 in *. exact H1.
    + unfold Py.ends_terminal. now rewrite last_char_append_dot.
Qed.

(** When the replacement by first occurrence is safe.  The errors are
    taken in descending order of their start, and a lexical error is
    applied by replacing the first occurrence of its text.  When the
    texts of two such errors,
    [f1] at the offset of [a]'s length and [f2] further right, are
    first found in the text at these offsets, both spans are replaced
    and nothing else, whatever the length of the corrections and the
    order in which the detector listed the errors; the formatting
    stage normalizes the sentences afterwards. *)
Theorem fragments_replaced_in_descending_order :
  forall a f1 m f2 b (e1 e2 : Finding) c1 c2 errors,
    let text := a ++ f1 ++ m ++ f2 ++ b in
    f1 <> "" ->
    Py.find f1 text = Some (String.length a) ->
    Py.find f2 text = Some (String.length (a ++ f1 ++ m)) ->
    In (f_type e1) fragment_types -> In (f_type e2) fragment_types ->
    f_start e1 = Some (Z.of_nat (String.length a)) ->
    f_start e2 = Some (Z.of_nat (String.length (a ++ f1 ++ m))) ->
    f_text e1 = Some f1 -> f_text e2 = Some f2 ->
    f_correction e1 = Some c1 -> f_correction e2 = Some c2 ->
    c1 <> "" -> c2 <> "" ->
    errors = [e1; e2] \/ errors = [e2; e1] ->
    sort_desc errors = [e2; e1]
    /\ rule_based_stage errors (text, [])
       = Ok (a ++ c1 ++ m ++ c2 ++ b, [fragment_change e2; fragment_change e1])
    /\ forall raw s, In s (fix_sentence raw) ->
         Py.first_islower s = false /\ Py.ends_terminal s = true.
Proof.
  intros a f1 m f2 b e1 e2 c1 c2 errors text Hf1 Hfind1 Hfind2 Ht1 Ht2
         Hs1 Hs2 Hx1 Hx2 Hc1 Hc2 Hn1 Hn2 Herr.
  assert (Hlt : (start_key e1 <? start_key e2)%Z = true).
  { unfold start_key. rewrite Hs1, Hs2. apply Z.ltb_lt.
    rewrite !append_length'. destruct f1; [congruence|]. cbn. lia. }
  assert (Hge : (start_key e2 <? start_key e1)%Z = false).
  { apply Z.ltb_ge. apply Z.ltb_lt in Hlt. lia. }
  assert (Hsort : sort_desc errors = [e2; e1]).
  { destruct Herr; subst errors; cbn; [now rewrite Hlt | now rewrite Hge]. }
  split; [exact Hsort|]. split; [|apply fix_sentence_normalized].
  unfold rule_based_stage. rewrite Hsort.
  assert (Htext : text = (a ++ f1 ++ m) ++ f2 ++ b).
  { unfold text. now rewrite !append_assoc'. }
  rewrite Htext.
  destruct (apply_fix_found e2 f2 c2 (a ++ f1 ++ m) b [] Ht2 Hx2 Hc2 Hn2)
    as [st2 [F2 S2]].
  { rewrite <- Htext. exact Hfind2. }
  cbn [apply_fixes]. rewrite F2. cbn [bind]. rewrite S2.
  assert (Hfind1' : Py.find f1 (a ++ f1 ++ m ++ c2 ++ b) = Some (String.length a)).
  { apply find_tail_indep with (b := m ++ f2 ++ b). exact Hfind1. }
  destruct (apply_fix_found e1 f1 c1 a (m ++ c2 ++ b) ([] ++ [fragment_change e2])
              Ht1 Hx1 Hc1 Hn1 Hfind1') as [st1 [F1 S1]].
  rewrite !append_assoc'. rewrite F1. cbn [bind]. rewrite S1. reflexivity.
Qed.

(** The spans [5,8] and [20,25] of "What teh dog did it loose.". *)
Lemma fragments_replaced_in_descending_order_witness :
  let e1 := lexical_error "spelling" "Possible spelling error: 'teh'" 5 8
                          "teh" "the" "medium" in
  let e2 := lexical_error "common_mistake"
                          "Check 'loose' (not tight) vs 'lose' (misplace)" 20 25
                          "loose" lose_advice "medium" in
  sort_desc [e1; e2] = [e2; e1]
  /\ rule_based_stage [e1; e2] ("What teh dog did it loose.", [])
     = Ok ("What the dog did it " ++ lose_advice ++ ".",
           [fragment_change e2; fragment_change e1])
  /\ forall raw s, In s (fix_sentence raw) ->
       Py.first_islower s = false /\ Py.ends_terminal s = true.
Proof.
  intros e1 e2.
  apply (fragments_replaced_in_descending_order
           "What " "teh" " dog did it " "loose" "." e1 e2 "the" lose_advice [e1; e2]);
    try reflexivity; try discriminate; cbn; auto.
Defined.

(** C4, on the code.  The errors are sorted by descending start, but
    a fragment is replaced where its text first occurs, not at its
    offset.  In "I am teh loosest or loose." the
    detector finds "teh" at [5,8] and "loose" at [20,25]; the
    replacement of "loose" lands on "loosest", and the fragment at
    [20,25] is never replaced.  In "unloosed it and yet loose sed."
    the replacement of "loose" lands on [2,7] and destroys the span
    [5,8] of "sed".  Neither result is the text with the two spans
    replaced. *)
Lemma fragment_substitution_misplaced :
  let span (e : Finding) := (f_type e, f_start e, f_end e, f_text e) in
  (exists errors r,
     detect_grammar_errors teh_env "I am teh loosest or loose." = Ok errors
     /\ map span errors
        = [("common_mistake", Some 20%Z, Some 25%Z, Some "loose");
           ("spelling", Some 5%Z, Some 8%Z, Some "teh")]
     /\ correct_grammar teh_env "I am teh loosest or loose." false = Ok r
     /\ gr_corrected r = "I am the " ++ lose_advice ++ "st or loose."
     /\ spec_substitute_span 5 8 "the"
          (spec_substitute_span 20 25 lose_advice "I am teh loosest or loose.")
        = "I am the loosest or " ++ lose_advice ++ "."
     /\ gr_corrected r
        <> spec_substitute_span 5 8 "the"
             (spec_substitute_span 20 25 lose_advice "I am teh loosest or loose."))
  /\ (exists errors st,
        detect_grammar_errors sed_env "unloosed it and yet loose sed." = Ok errors
        /\ map span (filter (fun e => Py.str_in (f_type e) fragment_types) errors)
           = [("common_mistake", Some 20%Z, Some 25%Z, Some "loose");
              ("spelling", Some 5%Z, Some 8%Z, Some "sed")]
        /\ rule_based_stage errors ("unloosed it and yet loose sed.", []) = Ok st
        /\ fst st = "un" ++ lose_advice ++ "d it and yet loose said."
        /\ fst st
           <> spec_substitute_span 5 8 "said"
                (spec_substitute_span 20 25 lose_advice
                   "unloosed it and yet loose sed.")).
Proof.
  split.
  - do 2 eexists. vm_compute. repeat split. discriminate.
  - do 2 eexists. vm_compute. repeat split. discriminate.
Qed.

(** ** The model-based stage of correct_grammar *)

Lemma str_in_not_auto : forall s l,
  Py.str_in s l = true -> ~ In "auto_correction" l -> s <> "auto_correction".
Proof.
  unfold Py.str_in. intros s l H Hn ->.
  apply existsb_exists in H as [x [Hx E]].
  apply String.eqb_eq in E. subst x. contradiction.
Qed.

Lemma apply_corrections_not_auto : forall corrections text changes,
  Forall not_auto changes ->
  Forall not_auto (snd (apply_corrections corrections text changes)).
Proof.
  induction corrections as [|c cs IH]; intros text changes H; cbn; [exact H|].
  destruct (Py.contains _ _); [|now apply IH].
  apply IH. apply Forall_app. split; [exact H|].
  constructor; [|constructor]. unfold not_auto. cbn. discriminate.
Qed.

Lemma intelligent_correction_not_auto : forall text error c chs,
  intelligent_correction text error = Some (c, chs) -> Forall not_auto chs.
Proof.
  unfold intelligent_correction. intros text error c chs H.
  repeat match type of H with
         | context [if ?b then _ else _] => destruct b
         | context [match ?x with Some _ => _ | None => _ end] => destruct x
         end;
    try discriminate; inversion H; subst;
    (constructor; [unfold not_auto; cbn; discriminate | constructor]).
Qed.

Lemma structure_changes_not_auto : forall env text sc,
  correct_sentence_structure env text = Ok sc -> Forall not_auto (sr_changes sc).
Proof.
  unfold correct_sentence_structure. intros env text sc H.
  destruct (Py.blank text).
  { inversion H. constructor. }
  destruct (analyze_sentence_structure env text) as [[errors corrections]|];
    [|discriminate].
  cbn [bind] in H.
  pose proof (apply_corrections_not_auto corrections text [] (Forall_nil _)) as Ha.
  destruct (apply_corrections corrections text []) as [ct chs]. cbn [snd] in Ha.
  destruct ((ct == text) && negb (length errors =? 0)).
  - destruct (pick_error errors) as [error|].
    + destruct (intelligent_correction text error) as [[ct' ch]|] eqn:Ei.
      * inversion H. cbn. apply Forall_app. split; [exact Ha|].
        eapply intelligent_correction_not_auto; eauto.
      * inversion H. exact Ha.
    + inversion H. exact Ha.
  - inversion H. exact Ha.
Qed.

Lemma ai_stage_not_auto : forall env text use_ai r,
  ai_stage env text use_ai = Some r -> Forall not_auto (gr_changes r).
Proof.
  unfold ai_stage. intros env text use_ai r H.
  destruct use_ai; [|discriminate].
  destruct (is_ai_available env); [|discriminate].
  destruct (generate_ai_response _ _ _); [|discriminate].
  destruct (_ && _); [|discriminate].
  destruct (correct_sentence_structure env text) as [sc|] eqn:Es; [|discriminate].
  inversion H. cbn. apply Forall_app. split.
  - destruct (negb _); repeat constructor. unfold not_auto. cbn. discriminate.
  - eapply structure_changes_not_auto; eauto.
Qed.

Lemma fragment_fix_not_auto : forall e st st',
  fragment_fix e st = Ok st' -> Forall not_auto (snd st) -> Forall not_auto (snd st').
Proof.
  unfold fragment_fix. intros e [ct chs] st' H Hf. cbn [snd] in Hf.
  destruct (f_correction e) as [c|]; [|now inversion H].
  destruct (nonempty c && has_type _ e) eqn:E; [|now inversion H].
  apply andb_true_iff in E as [_ E].
  destruct (f_text e) as [o|]; [|discriminate].
  destruct (Py.contains o ct); [|now inversion H].
  inversion H. cbn. apply Forall_app. split; [exact Hf|].
  constructor; [|constructor]. unfold not_auto. cbn.
  eapply str_in_not_auto; [exact E|].
  cbn. intuition discriminate.
Qed.

Lemma sentence_fix_not_auto : forall e st,
  Forall not_auto (snd st) -> Forall not_auto (snd (sentence_fix e st)).
Proof.
  unfold sentence_fix. intros e [ct chs] Hf. cbn [snd] in Hf.
  destruct (has_type _ e) eqn:E; [|exact Hf].
  destruct (f_sentence e) as [s|]; [|exact Hf].
  destruct (_ && _); [|exact Hf].
  cbn. apply Forall_app. split; [exact Hf|].
  constructor; [|constructor]. unfold not_auto. cbn.
  eapply str_in_not_auto; [exact E|].
  cbn. intuition discriminate.
Qed.

Lemma apply_fixes_not_auto : forall errors st st',
  apply_fixes errors st = Ok st' ->
  Forall not_auto (snd st) -> Forall not_auto (snd st').
Proof.
  induction errors as [|e es IH]; intros st st' H Hf; cbn in H.
  - now inversion H; subst.
  - destruct (fragment_fix e st) as [st1|] eqn:E1; [|discriminate].
    cbn [bind] in H. eapply IH; [exact H|].
    apply sentence_fix_not_auto. eapply fragment_fix_not_auto; eauto.
Qed.

(** What the T5 stage does to a state. *)
Lemma t5_stage_cases : forall env text st,
  t5_stage env text st = st
  \/ exists run first rest,
       corrector env = Some run
       /\ run ("grammar: " ++ text) = Some (first :: rest)
       /\ orelse first text <> text
       /\ String.length text < 2 * String.length (orelse first text)
       /\ t5_stage env text st
          = (orelse first text,
             (snd st ++ [auto_change text (orelse first text)])%list).
Proof.
  unfold t5_stage. intros env text [ct chs].
  destruct (corrector env) as [run|]; [|now left].
  destruct (ct == text); [|now left].
  destruct (run ("grammar: " ++ text)) as [[|first rest]|] eqn:Er;
    [now left| |now left].
  destruct (negb (orelse first text == text)
            && (String.length text <? 2 * String.length (orelse first text)))
    eqn:E; [|now left].
  right. apply andb_true_iff in E as [E1 E2].
  apply negb_true_iff, String.eqb_neq in E1. apply Nat.ltb_lt in E2.
  exists run, first, rest. repeat split; auto.
Qed.

Lemma textblob_stage_changes : forall env text st,
  exists extra, snd (textblob_stage env text st) = (snd st ++ extra)%list
                /\ Forall not_auto extra.
Proof.
  unfold textblob_stage. intros env text [ct chs].
  destruct (_ || _).
  - destruct (negb _).
    + eexists. split; [reflexivity|].
      repeat constructor. unfold not_auto. cbn. discriminate.
    + exists []. now rewrite app_nil_r.
  - exists []. now rewrite app_nil_r.
Qed.

Lemma formatting_stage_changes : forall env st,
  exists extra, snd (formatting_stage env st) = (snd st ++ extra)%list
                /\ Forall not_auto extra.
Proof.
  unfold formatting_stage. intros env [ct chs].
  destruct (negb _).
  - eexists. split; [reflexivity|].
    repeat constructor. unfold not_auto. cbn. discriminate.
  - exists []. now rewrite app_nil_r.
Qed.

Lemma not_auto_absurd : forall l c,
  Forall not_auto l -> In c l -> ch_type c = "auto_correction" -> False.
Proof.
  intros l c Hf Hin Hty. rewrite Forall_forall in Hf. exact (Hf c Hin Hty).
Qed.

Lemma formatting_stage_text : forall env ct chs,
  fst (formatting_stage env (ct, chs)) = normalized env ct.
Proof.
  unfold formatting_stage, normalized. intros env ct chs.
  destruct (negb _) eqn:E; [reflexivity|].
  apply negb_false_iff, String.eqb_eq in E. cbn. now rewrite E.
Qed.

(** X27. The guard of the T5 stage of [correct_grammar].  A change
    of type "auto_correction" is in the result only if the T5
    corrector is present and its output differs from the text and is
    longer than half of the text, strictly (an output of at most half
    the length is turned down).  The T5 output is not final: the
    corrected text of the result is the output after the formatting
    stage. *)
Theorem t5_output_guard :
  forall env text use_ai r c,
    correct_grammar env text use_ai = Ok r ->
    In c (gr_changes r) ->
    ch_type c = "auto_correction" ->
    (exists run first rest,
       corrector env = Some run
       /\ run ("grammar: " ++ text) = Some (first :: rest)
       /\ c = auto_change text (orelse first text))
    /\ ch_corrected c <> text
    /\ String.length text < 2 * String.length (ch_corrected c)
    /\ gr_corrected r = normalized env (ch_corrected c).
Proof.
  unfold correct_grammar. intros env text use_ai r c H Hin Hty.
  destruct (Py.blank text).
  { inversion H; subst. destruct Hin. }
  destruct (ai_stage env text use_ai) as [r'|] eqn:Ea.
  { inversion H; subst.
    destruct (not_auto_absurd _ _ (ai_stage_not_auto _ _ _ _ Ea) Hin Hty). }
  destruct (correct_sentence_structure env text) as [sc|] eqn:Es; [|discriminate].
  cbn [bind] in H.
  pose proof (structure_changes_not_auto _ _ _ Es) as Hsc.
  destruct (_ && _).
  { inversion H; subst. destruct (not_auto_absurd _ _ Hsc Hin Hty). }
  destruct (detect_grammar_errors env text) as [errors|]; [|discriminate].
  cbn [bind] in H.
  destruct (rule_based_stage errors _) as [st1|] eqn:E1; [|discriminate].
  cbn [bind] in H.
  pose proof (apply_fixes_not_auto _ _ _ E1 Hsc) as H1.
  destruct (formatting_stage_changes env (textblob_stage env text (t5_stage env text st1)))
    as [x3 [F3 N3]].
  destruct (textblob_stage_changes env text (t5_stage env text st1)) as [x2 [F2 N2]].
  pose proof (formatting_stage_text env
                (fst (textblob_stage env text (t5_stage env text st1)))
                (snd (textblob_stage env text (t5_stage env text st1)))) as Ft.
  rewrite <- surjective_pairing in Ft.
  destruct (formatting_stage env _) as [cf chf]. cbn [fst snd] in *.
  inversion H; subst r; cbn [gr_changes gr_corrected] in *. clear H.
  subst chf. rewrite F2 in Hin.
  destruct (t5_stage_cases env text st1) as [T|[run [first [rest [Hc [Hr [Hd [Hl T]]]]]]]].
  - rewrite T in Hin.
    apply in_app_or in Hin as [Hin|Hin]; [apply in_app_or in Hin as [Hin|Hin]|].
    + destruct (not_auto_absurd _ _ H1 Hin Hty).
    + destruct (not_auto_absurd _ _ N2 Hin Hty).
    + destruct (not_auto_absurd _ _ N3 Hin Hty).
  - assert (Hc' : c = auto_change text (orelse first text)).
    { rewrite T in Hin. cbn [snd] in Hin.
      apply in_app_or in Hin as [Hin|Hin]; [apply in_app_or in Hin as [Hin|Hin]|].
      - apply in_app_or in Hin as [Hin|Hin].
        + destruct (not_auto_absurd _ _ H1 Hin Hty).
        + destruct Hin as [Hin|[]]. now symmetry.
      - destruct (not_auto_absurd _ _ N2 Hin Hty).
      - destruct (not_auto_absurd _ _ N3 Hin Hty). }
    subst c. cbn [ch_corrected auto_change].
    split; [exists run, first, rest; auto|].
    repeat split; auto.
    rewrite Ft. f_equal. rewrite T.
    unfold textblob_stage.
    assert (E : (orelse first text == text) = false) by now apply String.eqb_neq.
    rewrite E. destruct (snd st1); reflexivity.
Qed.

Lemma t5_output_guard_witness :
  exists r c,
    correct_grammar (with_corrector (Some (fun _ => Some [Some "The cat sleeps."]))
                       plain_env) "The cat sleep." false = Ok r
    /\ In c (gr_changes r)
    /\ ch_type c = "auto_correction"
    /\ ch_corrected c <> "The cat sleep."
    /\ String.length "The cat sleep." < 2 * String.length (ch_corrected c)
    /\ gr_corrected r = "The cat sleeps.".
Proof.
  set (env := with_corrector (Some (fun _ => Some [Some "The cat sleeps."])) plain_env).
  destruct (correct_grammar env "The cat sleep." false) as [r|] eqn:E;
    [|vm_compute in E; discriminate].
  assert (Hin : In (auto_change "The cat sleep." "The cat sleeps.") (gr_changes r)).
  { vm_compute in E. inversion E. cbn. auto. }
  destruct (t5_output_guard env "The cat sleep." false r _ E Hin eq_refl)
    as [_ [Hd [Hl Hc]]].
  exists r, (auto_change "The cat sleep." "The cat sleeps.").
  repeat split; auto.
Defined.

(** The T5 output "the cat sleeps" is taken over by
    [correct_grammar], the result carries no method tag, and the
    formatting stage still runs and changes the text that was taken
    over. *)
Lemma t5_output_is_formatted :
  exists r,
    correct_grammar t5_env "The cat sleep." false = Ok r
    /\ gr_changes r
       = [auto_change "The cat sleep." "the cat sleeps";
          mkChange "formatting" "the cat sleeps" "The cat sleeps."
                   (Some "Capitalization and punctuation fixes") None]
    /\ gr_method r <> Some "model_based"
    /\ gr_corrected r = "The cat sleeps."
    /\ gr_corrected r <> "the cat sleeps".
Proof.
  eexists. split; [vm_compute; reflexivity|].
  cbn. repeat split; discriminate.
Qed.

(** C5, on the code.  [correct_text] commits the output of its
    grammar model without any test of its length: the answer "Cat" to
    "The cat sleep.", 3 characters for 14, comes back as the corrected
    text with method "t5_model".  The T5 stage of [correct_grammar]
    has the test, and turns the same answer to the same text down:
    the text comes back unchanged, without a change entry. *)
Theorem correct_text_commits_truncated_output :
  correct_text short_model_env "The cat sleep." true
  = mkTextResult "The cat sleep." "Cat" "t5_model"
  /\ 2 * String.length "Cat" < String.length "The cat sleep."
  /\ correct_grammar short_corrector_env "The cat sleep." false
     = Ok (mkGrammarResult "The cat sleep." "The cat sleep." [] (Some 0) None).
Proof.
  split; [vm_compute; reflexivity|].
  split; [vm_compute; lia | vm_compute; reflexivity].
Qed.

(** The claim C8 as stated fails: "t5_model" is none of the tags the
    specification lists. *)
Lemma method_tag_counterexample :
  tr_method (correct_text short_model_env "the cat sleep now" true) = "t5_model"
  /\ ~ In (tr_method (correct_text short_model_env "the cat sleep now" true))
          spec_method_tags.
Proof.
  split; [vm_compute; reflexivity|].
  vm_compute. intuition discriminate.
Qed.

(** * Further properties of the code *)

(** ** The closing format of a corrected sentence *)

Lemma upper_char_idem : forall c, Py.upper_char (Py.upper_char c) = Py.upper_char c.
Proof. intros c. destruct c as [[] [] [] [] [] [] [] []]; reflexivity. Qed.

Lemma upper_char_of_upper : forall c, Py.isupper c = true -> Py.upper_char c = c.
Proof.
  intros c. destruct c as [[] [] [] [] [] [] [] []]; vm_compute; intros H;
    first [reflexivity | discriminate H].
Qed.

Lemma isupper_upper_char : forall c,
  Py.isupper (Py.upper_char c) = false -> Py.islower c = false.
Proof.
  intros c. destruct c as [[] [] [] [] [] [] [] []]; vm_compute; intros H;
    first [reflexivity | discriminate H].
Qed.

Lemma ends_terminal_append_dot : forall s, Py.ends_terminal (s ++ ".") = true.
Proof. intros s. unfold Py.ends_terminal. now rewrite last_char_append_dot. Qed.

Lemma ensure_format_unfold : forall c,
  c <> "" -> ensure_format c = capitalize_and_stop (Py.strip c).
Proof. intros [|a c] H; [congruence | reflexivity]. Qed.

Lemma capitalize_and_stop_shape : forall c1,
  c1 <> "" ->
  capitalize_and_stop c1 <> ""
  /\ Py.first_islower (capitalize_and_stop c1) = false
  /\ Py.ends_terminal (capitalize_and_stop c1) = true
  /\ (Py.first_isupper (capitalize_and_stop c1) = false ->
      Py.upper_first (capitalize_and_stop c1) = capitalize_and_stop c1).
Proof.
  intros [|a t] H; [congruence|]. unfold capitalize_and_stop.
  cbn [nonempty Py.is_empty negb andb Py.first_isupper Py.upper_first].
  destruct (Py.isupper a) eqn:Ea; cbn [negb].
  - destruct (Py.ends_terminal (String a t)) eqn:Et; cbn [negb].
    + repeat split; try discriminate; auto.
      * cbn. now apply isupper_not_islower.
      * cbn. congruence.
    + repeat split; try discriminate.
      * cbn. now apply isupper_not_islower.
      * change (String a t ++ ".") with (String a t ++ ".").
        apply ends_terminal_append_dot.
      * cbn. congruence.
  - destruct (Py.ends_terminal (String (Py.upper_char a) t)) eqn:Et; cbn [negb].
    + repeat split; try discriminate; auto.
      * cbn. apply islower_upper_char.
      * cbn. intros _. now rewrite upper_char_idem.
    + repeat split; try discriminate.
      * cbn. apply islower_upper_char.
      * change (String (Py.upper_char a) t ++ ".")
          with (String (Py.upper_char a) t ++ ".").
        apply ends_terminal_append_dot.
      * cbn. intros _. now rewrite upper_char_idem.
Qed.

Lemma capitalize_and_stop_fixed : forall s,
  s <> "" ->
  Py.ends_terminal s = true ->
  (Py.first_isupper s = false -> Py.upper_first s = s) ->
  capitalize_and_stop s = s.
Proof.
  intros [|a t] H Ht Hu; [congruence|]. unfold capitalize_and_stop.
  cbn [nonempty Py.is_empty negb andb].
  destruct (Py.first_isupper (String a t)) eqn:Ea; cbn [negb].
  - now rewrite Ht.
  - rewrite (Hu eq_refl), Ht. reflexivity.
Qed.

Lemma ensure_format_shape : forall c,
  ensure_format c <> "" ->
  Py.first_islower (ensure_format c) = false
  /\ Py.ends_terminal (ensure_format c) = true.
Proof.
  intros [|a c'] H; [exfalso; apply H; reflexivity|].
  rewrite ensure_format_unfold in * by discriminate.
  destruct (Py.strip (String a c')) as [|b t]; [exfalso; apply H; reflexivity|].
  destruct (capitalize_and_stop_shape (String b t)) as [_ [H2 [H3 _]]];
    [discriminate | auto].
Qed.

(** X1. The closing block of [generate_structure_correction] and of
    [correct_text] (strip, capitalise the first letter, end with a full
    stop) is idempotent, and a result that is not empty has no white
    space around it, does not start with a lower-case letter and ends
    in a full stop, exclamation mark or question mark. *)
Theorem ensure_format_idempotent :
  forall c,
    ensure_format (ensure_format c) = ensure_format c
    /\ (ensure_format c <> "" ->
        stripped (ensure_format c)
        /\ Py.first_islower (ensure_format c) = false
        /\ Py.ends_terminal (ensure_format c) = true).
Proof.
  intros c.
  destruct c as [|a c'];
    [split; [reflexivity | intros H; exfalso; apply H; reflexivity]|].
  set (c := String a c').
  assert (Hc : c <> "") by discriminate.
  rewrite (ensure_format_unfold c Hc).
  destruct (Py.strip c) as [|b t] eqn:Es.
  { split; [reflexivity | intros H; exfalso; apply H; reflexivity]. }
  assert (Hne : String b t <> "") by discriminate.
  destruct (capitalize_and_stop_shape (String b t) Hne) as [H1 [H2 [H3 H4]]].
  assert (Hst : stripped (capitalize_and_stop (String b t))).
  { rewrite <- Es, <- (ensure_format_unfold c Hc). apply ensure_format_stripped. }
  split.
  - rewrite (ensure_format_unfold _ H1). rewrite Hst.
    now apply capitalize_and_stop_fixed.
  - intros _. auto.
Qed.

Lemma ensure_format_idempotent_witness :
  ensure_format (ensure_format "  hello world") = ensure_format "  hello world"
  /\ Py.ends_terminal (ensure_format "  hello world") = true.
Proof.
  destruct (ensure_format_idempotent "  hello world") as [H1 H2].
  split; [exact H1|]. apply H2. vm_compute. discriminate.
Defined.

(** ** correct_text *)

(** X2. What the method of [correct_text] says of the result: with
    "none" the corrected text is the original; with "rule_based" it
    differs from the original, is not empty, has no white space
    around it, does not start with a lower-case letter and ends in a
    full stop, exclamation mark or question mark. *)
Theorem correct_text_result_shape :
  forall env text use_model,
    let r := correct_text env text use_model in
    (tr_method r = "none" -> tr_corrected r = tr_original r)
    /\ (tr_method r = "rule_based" ->
        tr_corrected r <> tr_original r
        /\ tr_corrected r <> ""
        /\ stripped (tr_corrected r)
        /\ Py.first_islower (tr_corrected r) = false
        /\ Py.ends_terminal (tr_corrected r) = true).
Proof.
  intros env text use_model r. subst r. unfold correct_text.
  destruct (Py.blank text); [cbn; split; [reflexivity | discriminate]|].
  destruct (model_stage env (Py.strip text) use_model);
    [cbn; split; discriminate|].
  destruct (structure_stage env (Py.strip text)) as [c|] eqn:Es;
    [|cbn; split; [reflexivity | discriminate]].
  cbn. split; [discriminate|]. intros _.
  unfold structure_stage in Es.
  destruct (correct_sentence_structure env (Py.strip text)) as [sr|];
    [|discriminate].
  destruct (nonempty (ensure_format (sr_corrected sr))
            && negb (ensure_format (sr_corrected sr) == Py.strip text)) eqn:E;
    [|discriminate].
  inversion Es; subst c. apply andb_true_iff in E as [E1 E2].
  apply nonempty_true in E1. apply negb_true_iff, String.eqb_neq in E2.
  destruct (ensure_format_shape _ E1) as [H1 H2].
  repeat split; auto. apply ensure_format_stripped.
Qed.

Lemma correct_text_result_shape_witness :
  let r := correct_text plain_env "i nishanth name" false in
  tr_corrected r <> tr_original r
  /\ tr_corrected r <> ""
  /\ stripped (tr_corrected r)
  /\ Py.first_islower (tr_corrected r) = false
  /\ Py.ends_terminal (tr_corrected r) = true.
Proof.
  apply (proj2 (correct_text_result_shape plain_env "i nishanth name" false)).
  reflexivity.
Defined.

(** X3. The transformer branch of [correct_text] with the pipeline
    loaded: the generated text is taken when it is not empty and not
    the stripped input, compared before it is stripped itself, so the
    corrected text handed back with "t5_model" is the stripped output
    (it may be empty, or the input again); any other answer gives what
    [correct_text] gives without the model. *)
Theorem correct_text_model_stage :
  forall env text run first rest,
    Py.all_space text = false ->
    grammar_model env = ModelPipeline run ->
    run ("grammar: " ++ Py.strip text) = Some (first :: rest) ->
    let out := orelse first (Py.strip text) in
    correct_text env text true
    = if nonempty out && negb (out == Py.strip text)
      then mkTextResult (Py.strip text) (Py.strip out) "t5_model"
      else correct_text env text false.
Proof.
  intros env text run first rest Hb Hm Hr out. subst out.
  rewrite <- blank_all_space in Hb.
  unfold correct_text, model_stage. rewrite Hb, Hm, Hr.
  destruct (nonempty (orelse first (Py.strip text))
            && negb (orelse first (Py.strip text) == Py.strip text));
    reflexivity.
Qed.

Lemma correct_text_model_stage_witness :
  correct_text blank_model_env "the cat" true = mkTextResult "the cat" "" "t5_model".
Proof.
  apply (correct_text_model_stage blank_model_env "the cat"
           (fun _ => Some [Some "   "]) (Some "   ") []); reflexivity.
Defined.

(** ** correct_sentence_structure *)

Lemma apply_corrections_grows : forall corrections text changes,
  exists extra,
    snd (apply_corrections corrections text changes) = (changes ++ extra)%list
    /\ Forall is_structure_change extra
    /\ (extra = [] -> fst (apply_corrections corrections text changes) = text).
Proof.
  induction corrections as [|c cs IH]; intros text changes; cbn.
  - exists []. rewrite app_nil_r. repeat split; auto.
  - destruct (Py.contains (co_original c) text).
    + destruct (IH (Py.replace_first (co_original c) (co_corrected c) text)
                   (changes ++ [structure_change (co_original c) (co_corrected c)
                                  (co_errors c)])%list)
        as [extra [H1 [H2 H3]]].
      exists (structure_change (co_original c) (co_corrected c) (co_errors c) :: extra).
      rewrite H1, <- app_assoc. repeat split; auto.
      * constructor; [|exact H2]. repeat split; cbn; congruence.
      * discriminate.
    + apply IH.
Qed.

Lemma intelligent_correction_change : forall text error c chs,
  intelligent_correction text error = Some (c, chs) ->
  exists fixed, chs = [structure_change text c fixed].
Proof.
  unfold intelligent_correction. intros text error c chs H.
  repeat match type of H with
         | context [if ?b then _ else _] => destruct b
         | context [match ?x with Some _ => _ | None => _ end] => destruct x
         end;
    try discriminate; inversion H; subst; eauto.
Qed.

(** X4. The dictionary of [correct_sentence_structure]: [original] is
    the text as given; every change is a "structure_correction" with
    the list of errors fixed and no message; the error count is the
    length of the error list; and without a change entry the text is
    handed back unchanged. *)
Theorem correct_sentence_structure_changes :
  forall env text sr,
    correct_sentence_structure env text = Ok sr ->
    sr_original sr = text
    /\ Forall is_structure_change (sr_changes sr)
    /\ sr_errors_found sr = option_map (@length Finding) (sr_structure_errors sr)
    /\ (sr_changes sr = [] -> sr_corrected sr = text).
Proof.
  unfold correct_sentence_structure. intros env text sr H.
  destruct (Py.blank text).
  { inversion H. cbn. repeat split; auto. }
  destruct (analyze_sentence_structure env text) as [[errors corrections]|];
    [|discriminate].
  cbn [bind] in H.
  destruct (apply_corrections_grows corrections text []) as [extra [H1 [H2 H3]]].
  destruct (apply_corrections corrections text []) as [ct chs].
  cbn [fst snd app] in *. subst chs.
  destruct ((ct == text) && negb (length errors =? 0)) eqn:E.
  - destruct (pick_error errors) as [error|].
    + destruct (intelligent_correction text error) as [[ct' ch]|] eqn:Ei.
      * destruct (intelligent_correction_change _ _ _ _ Ei) as [fixed ->].
        inversion H. cbn. repeat split; auto.
        -- apply Forall_app. split; [exact H2|].
           repeat constructor; cbn; congruence.
        -- intros Hnil. destruct extra; discriminate Hnil.
      * inversion H. cbn. repeat split; auto.
    + inversion H. cbn. repeat split; auto.
  - inversion H. cbn. repeat split; auto.
Qed.

Lemma correct_sentence_structure_changes_witness :
  exists sr,
    correct_sentence_structure plain_env "i nishanth name" = Ok sr
    /\ sr_original sr = "i nishanth name"
    /\ Forall is_structure_change (sr_changes sr)
    /\ sr_errors_found sr = option_map (@length Finding) (sr_structure_errors sr)
    /\ (sr_changes sr = [] -> sr_corrected sr = "i nishanth name").
Proof.
  destruct (correct_sentence_structure plain_env "i nishanth name") as [sr|] eqn:E;
    [|vm_compute in E; discriminate].
  exists sr. split; [reflexivity|].
  exact (correct_sentence_structure_changes plain_env "i nishanth name" sr E).
Defined.

(** ** correct_grammar *)

Lemma grows_refl : forall st, grows st st.
Proof. intros st. exists []. now rewrite app_nil_r. Qed.

Lemma grows_trans : forall a b c, grows a b -> grows b c -> grows a c.
Proof.
  intros a b c [x [Hx1 Hx2]] [y [Hy1 Hy2]].
  exists (x ++ y)%list. split.
  - now rewrite Hy1, Hx1, app_assoc.
  - intros E. apply app_eq_nil in E as [-> ->].
    now rewrite Hy2, Hx2.
Qed.

Lemma grows_append : forall t t' ch c, grows (t, ch) (t', (ch ++ [c])%list).
Proof. intros. exists [c]. split; [reflexivity | discriminate]. Qed.

Lemma fragment_fix_grows : forall e st st',
  fragment_fix e st = Ok st' -> grows st st'.
Proof.
  unfold fragment_fix. intros e [ct chs] st' H.
  destruct (f_correction e) as [c|]; [|inversion H; apply grows_refl].
  destruct (nonempty c && has_type _ e); [|inversion H; apply grows_refl].
  destruct (f_text e) as [o|]; [|discriminate].
  destruct (Py.contains o ct); inversion H;
    [apply grows_append | apply grows_refl].
Qed.

Lemma sentence_fix_grows : forall e st, grows st (sentence_fix e st).
Proof.
  unfold sentence_fix. intros e [ct chs].
  destruct (has_type _ e); [|apply grows_refl].
  destruct (f_sentence e); [|apply grows_refl].
  destruct (_ && _); [apply grows_append | apply grows_refl].
Qed.

Lemma apply_fixes_grows : forall errors st st',
  apply_fixes errors st = Ok st' -> grows st st'.
Proof.
  induction errors as [|e es IH]; intros st st' H; cbn [apply_fixes] in H.
  - inversion H. apply grows_refl.
  - destruct (fragment_fix e st) as [st1|] eqn:E1; [|discriminate].
    cbn [bind] in H.
    eapply grows_trans; [eapply fragment_fix_grows; eauto|].
    eapply grows_trans; [apply (sentence_fix_grows e)|].
    now apply IH.
Qed.

Lemma t5_stage_grows : forall env text st, grows st (t5_stage env text st).
Proof.
  unfold t5_stage. intros env text [ct chs].
  destruct (corrector env) as [run|]; [|apply grows_refl].
  destruct (ct == text); [|apply grows_refl].
  destruct (run _) as [[|first rest]|]; try apply grows_refl.
  destruct (_ && _); [apply grows_append | apply grows_refl].
Qed.

Lemma textblob_stage_grows : forall env text st, grows st (textblob_stage env text st).
Proof.
  unfold textblob_stage. intros env text [ct chs].
  destruct (_ || _); [|apply grows_refl].
  destruct (negb _); [apply grows_append | apply grows_refl].
Qed.

Lemma formatting_stage_grows : forall env st, grows st (formatting_stage env st).
Proof.
  unfold formatting_stage. intros env [ct chs].
  destruct (negb _); [apply grows_append | apply grows_refl].
Qed.

Lemma structure_result_facts : forall env text sr,
  correct_sentence_structure env text = Ok sr ->
  sr_original sr = text /\ (sr_changes sr = [] -> sr_corrected sr = text).
Proof.
  unfold correct_sentence_structure. intros env text sr H.
  destruct (Py.blank text).
  { inversion H. cbn. auto. }
  destruct (analyze_sentence_structure env text) as [[errors corrections]|];
    [|discriminate].
  cbn [bind] in H.
  destruct (apply_corrections_grows corrections text []) as [extra [H1 [H2 H3]]].
  destruct (apply_corrections corrections text []) as [ct chs].
  cbn [fst snd app] in *. subst chs.
  destruct ((ct == text) && negb (length errors =? 0)) eqn:E.
  - destruct (pick_error errors) as [error|].
    + destruct (intelligent_correction text error) as [[ct' ch]|] eqn:Ei.
      * destruct (intelligent_correction_change _ _ _ _ Ei) as [fixed ->].
        inversion H. cbn. split; auto.
        intros Hnil. destruct extra; discriminate Hnil.
      * inversion H. cbn. auto.
    + inversion H. cbn. auto.
  - inversion H. cbn. auto.
Qed.

Lemma correct_grammar_accounts : forall env text use_ai r,
  correct_grammar env text use_ai = Ok r ->
  gr_original r = text
  /\ (gr_method r <> Some "ai_enhanced" -> gr_changes r = [] ->
      gr_corrected r = text).
Proof.
  unfold correct_grammar. intros env text use_ai r H.
  destruct (Py.blank text).
  { inversion H. cbn. auto. }
  destruct (ai_stage env text use_ai) as [r'|] eqn:Ea.
  { inversion H; subst r'. split.
    - revert Ea. unfold ai_stage.
      destruct use_ai; [|discriminate].
      destruct (is_ai_available env); [|discriminate].
      destruct (generate_ai_response _ _ _); [|discriminate].
      destruct (_ && _); [|discriminate].
      destruct (correct_sentence_structure env text); [|discriminate].
      intros Ea. now inversion Ea.
    - intros Hm. destruct Hm. eapply ai_stage_method; eauto. }
  destruct (correct_sentence_structure env text) as [sc|] eqn:Es; [|discriminate].
  cbn [bind] in H.
  destruct (structure_result_facts _ _ _ Es) as [_ Hsc].
  destruct (negb (sr_corrected sc == text) && (0 <? length (sr_changes sc))) eqn:E.
  { inversion H. cbn. split; [reflexivity|]. intros _ Hnil.
    apply andb_true_iff in E as [_ E]. rewrite Hnil in E. discriminate. }
  destruct (detect_grammar_errors env text) as [errors|]; [|discriminate].
  cbn [bind] in H.
  destruct (rule_based_stage errors _) as [st1|] eqn:E1; [|discriminate].
  cbn [bind] in H.
  assert (G : grows (sr_corrected sc, sr_changes sc)
                    (formatting_stage env
                       (textblob_stage env text (t5_stage env text st1)))).
  { eapply grows_trans; [eapply apply_fixes_grows; exact E1|].
    eapply grows_trans; [apply t5_stage_grows|].
    eapply grows_trans; [apply textblob_stage_grows|].
    apply formatting_stage_grows. }
  destruct (formatting_stage env _) as [cf chf].
  inversion H. cbn. split; [reflexivity|]. intros _ Hnil.
  destruct G as [extra [G1 G2]]. cbn [fst snd] in *.
  rewrite Hnil in G1. symmetry in G1. apply app_eq_nil in G1 as [G1 G3].
  rewrite (G2 G3). now apply Hsc.
Qed.

Lemma correct_grammar_original : forall env text use_ai r,
  correct_grammar env text use_ai = Ok r -> gr_original r = text.
Proof. intros. eapply correct_grammar_accounts; eauto. Qed.

Lemma ai_stage_off : forall env text, ai_stage env text false = None.
Proof. reflexivity. Qed.

Lemma correct_grammar_off_method : forall env text r,
  correct_grammar env text false = Ok r -> gr_method r <> Some "ai_enhanced".
Proof.
  unfold correct_grammar. intros env text r H.
  destruct (Py.blank text).
  { inversion H. discriminate. }
  rewrite ai_stage_off in H.
  destruct (correct_sentence_structure env text) as [sc|]; [|discriminate].
  cbn [bind] in H.
  destruct (_ && _).
  { inversion H. discriminate. }
  destruct (detect_grammar_errors env text); [|discriminate].
  cbn [bind] in H.
  destruct (rule_based_stage _ _); [|discriminate].
  cbn [bind] in H.
  destruct (formatting_stage _ _) as [c' ch'].
  inversion H. discriminate.
Qed.

(** X5. The change list of [correct_grammar] accounts for every
    change of the text, unless the AI-enhanced stage answered: a
    result that is not tagged "ai_enhanced" and has an empty change
    list has the text itself as corrected text, and so has every
    result with [use_ai=False] and an empty change list.  [original]
    is always the text as given. *)
Theorem correct_grammar_no_change_no_edit :
  forall env text use_ai r,
    correct_grammar env text use_ai = Ok r ->
    gr_original r = text
    /\ (gr_method r <> Some "ai_enhanced" -> gr_changes r = [] ->
        gr_corrected r = text)
    /\ (use_ai = false -> gr_changes r = [] -> gr_corrected r = text).
Proof.
  intros env text use_ai r H.
  destruct (correct_grammar_accounts _ _ _ _ H) as [H1 H2].
  repeat split; auto.
  intros -> Hnil. apply H2; [|exact Hnil].
  eapply correct_grammar_off_method; eauto.
Qed.

Lemma correct_grammar_no_change_no_edit_witness :
  exists r,
    correct_grammar plain_env "I am happy." false = Ok r
    /\ gr_original r = "I am happy."
    /\ gr_corrected r = "I am happy.".
Proof.
  eexists. split; [vm_compute; reflexivity|].
  destruct (correct_grammar_no_change_no_edit plain_env "I am happy." false _
              eq_refl) as [H1 [_ H3]].
  split; [exact H1 | apply H3; reflexivity].
Defined.

Lemma ai_declines_stage : forall env text,
  ai_declines env text -> ai_stage env text true = None.
Proof.
  unfold ai_declines, ai_stage, is_ai_available, generate_ai_response.
  intros env text H.
  destruct (ai_client env) as [client|]; [|reflexivity].
  destruct (client (ai_prompt text) ai_system_prompt) as [raw|]; [|reflexivity].
  cbn [option_map]. rewrite strip_idem.
  destruct H as [H|H]; rewrite H.
  - reflexivity.
  - rewrite String.eqb_refl. now rewrite !andb_false_r.
Qed.

(** X6. An AI client that is absent, that fails, or whose completion
    is empty or the text itself once stripped, changes nothing:
    [correct_grammar] with [use_ai=True] gives exactly what it gives
    with [use_ai=False]. *)
Theorem ai_declined_is_no_ai :
  forall env text,
    ai_declines env text ->
    correct_grammar env text true = correct_grammar env text false.
Proof.
  intros env text H. unfold correct_grammar.
  rewrite (ai_declines_stage env text H). reflexivity.
Qed.

Lemma ai_declined_is_no_ai_witness :
  correct_grammar (with_ai_client (Some (fun _ _ => Some " i nishanth name ")) plain_env)
                  "i nishanth name" true
  = correct_grammar (with_ai_client (Some (fun _ _ => Some " i nishanth name "))
                       plain_env)
                    "i nishanth name" false.
Proof.
  apply (ai_declined_is_no_ai
           (with_ai_client (Some (fun _ _ => Some " i nishanth name ")) plain_env)
           "i nishanth name").
  right. reflexivity.
Defined.



(** ** The detectors *)

Ltac finding_ok :=
  unfold rulebased_finding, rulebased_types, structure_error;
  cbn [f_type f_sentence f_start f_end f_text f_severity f_suggestion
       f_correction In];
  repeat split; try discriminate; auto 10.

Ltac rulebased_list :=
  split_cases;
  repeat (apply Forall_cons; [finding_ok|]);
  try apply Forall_nil.

Lemma detect_infinitive_findings : forall sentence verbs,
  Forall (rulebased_finding sentence) (detect_infinitive sentence verbs).
Proof.
  induction verbs as [|v vs IH]; cbn [detect_infinitive]; [constructor|].
  destruct (Re.matches _ _ _); [|exact IH].
  destruct (Re.rmatch_at_start _ _ _); [|exact IH].
  destruct (_ || _); [|exact IH].
  destruct (nonempty _); (apply Forall_cons; [finding_ok | apply Forall_nil]).
Qed.

Lemma Ok_eq : forall (A : Type) (a b : A), Ok a = Ok b -> a = b.
Proof. intros A a b H. congruence. Qed.

Lemma rulebased_findings : forall env sentence l,
  detect_structure_errors_rulebased env sentence = Ok l ->
  Forall (rulebased_finding sentence) l.
Proof.
  intros env sentence l H. unfold detect_structure_errors_rulebased in H.
  destruct (word_tokenize env (Py.lower sentence)) as [|word0 words];
    [discriminate|].
  apply Ok_eq in H. rewrite <- H. clear H.
  repeat (apply Forall_app; split);
    try apply detect_infinitive_findings; rulebased_list.
Qed.

(** X8. The rule-based structure detector raises (an IndexError,
    from [words[0]]) exactly when NLTK finds no token in the sentence.
    Otherwise each of its errors names the sentence and a suggestion,
    has no span, text or correction, has one of seven types and a
    severity "high", "medium" or "low". *)
Theorem rulebased_detector_findings :
  forall env sentence,
    (detect_structure_errors_rulebased env sentence = Raised IndexError
     <-> word_tokenize env (Py.lower sentence) = [])
    /\ match detect_structure_errors_rulebased env sentence with
       | Ok l => Forall (rulebased_finding sentence) l
       | Raised e => e = IndexError
       end.
Proof.
  intros env sentence. split.
  - unfold detect_structure_errors_rulebased.
    destruct (word_tokenize env (Py.lower sentence)) as [|word0 words].
    + split; reflexivity.
    + split; discriminate.
  - destruct (detect_structure_errors_rulebased env sentence) as [l|e] eqn:E.
    + eapply rulebased_findings; eauto.
    + unfold detect_structure_errors_rulebased in E.
      destruct (word_tokenize env (Py.lower sentence)); [|discriminate].
      now inversion E.
Qed.

Lemma rulebased_no_correction : forall env sentence l,
  detect_structure_errors_rulebased env sentence = Ok l ->
  Forall no_correction l.
Proof.
  intros env sentence l H.
  eapply Forall_impl; [|eapply rulebased_findings; eauto].
  intros e He. apply He.
Qed.

Lemma word_order_no_correction : forall doc sentence,
  Forall no_correction (detect_word_order_errors doc sentence).
Proof.
  induction doc as [|t doc IH]; intros sentence; cbn; [constructor|].
  apply Forall_app. split; [|apply IH].
  destruct doc as [|t1 [|t2 doc']]; try constructor.
  unfold detect_word_order_error_at.
  destruct (_ && _); repeat constructor.
Qed.

Lemma missing_articles_no_correction : forall doc prev sentence l,
  detect_missing_articles_from prev doc sentence = Ok l ->
  Forall no_correction l.
Proof.
  induction doc as [|t doc IH]; intros prev sentence l H; cbn in H.
  - inversion H. constructor.
  - destruct (detect_missing_articles_from (Some t) doc sentence) as [rest|] eqn:Er.
    + specialize (IH _ _ _ Er).
      revert H. destruct (tok_text t) as [|c u];
        split_cases; cbn [bind]; intros H; try discriminate H;
        apply Ok_eq in H; rewrite <- H; cbn [app];
        try exact IH; (apply Forall_cons; [reflexivity | exact IH]).
    + revert H. destruct (tok_text t) as [|c u];
        split_cases; cbn [bind]; discriminate.
Qed.

Lemma prepositions_no_correction : forall doc sentence,
  Forall no_correction (detect_missing_prepositions doc sentence).
Proof.
  intros doc sentence. unfold detect_missing_prepositions.
  apply Forall_forall. intros e He.
  apply in_flat_map in He as [[[words prep] prep0] [_ He]].
  apply in_flat_map in He as [m [_ He]].
  destruct (Re.search _ _ _); [destruct He|].
  destruct He as [<-|[]]. reflexivity.
Qed.

Lemma spacy_no_correction : forall doc sentence l,
  detect_structure_errors_spacy doc sentence = Ok l -> Forall no_correction l.
Proof.
  unfold detect_structure_errors_spacy, detect_missing_articles.
  intros doc sentence l H.
  destruct (detect_missing_articles_from None doc sentence) as [arts|] eqn:Ea;
    [|discriminate].
  cbn [bind] in H. apply Ok_eq in H. rewrite <- H. clear H.
  apply Forall_app; split;
    [|apply Forall_app; split;
      [|apply Forall_app; split; [|apply Forall_app; split]]].
  - split_cases; repeat constructor.
  - split_cases; repeat constructor.
  - apply word_order_no_correction.
  - eapply missing_articles_no_correction; eauto.
  - apply prepositions_no_correction.
Qed.

Lemma analyze_loop_no_correction : forall env sentences errors corrections r,
  analyze_loop env sentences errors corrections = Ok r ->
  Forall no_correction errors -> Forall no_correction (fst r).
Proof.
  induction sentences as [|raw ss IH]; intros errors corrections r H Hf;
    cbn [analyze_loop] in H.
  - now inversion H.
  - destruct (Py.is_empty (Py.strip raw)); [eapply IH; eauto|].
    destruct (match nlp_structure env with
              | Some nlp => detect_structure_errors_spacy (nlp (Py.strip raw)) (Py.strip raw)
              | None => detect_structure_errors_rulebased env (Py.strip raw)
              end) as [l|] eqn:El; [|discriminate].
    cbn [bind] in H.
    assert (Hl : Forall no_correction l).
    { destruct (nlp_structure env).
      - eapply spacy_no_correction; eauto.
      - eapply rulebased_no_correction; eauto. }
    assert (Hall : Forall no_correction (errors ++ l)) by (apply Forall_app; auto).
    destruct (errors ++ l)%list as [|e es]; [eapply IH; eauto|].
    destruct (generate_structure_correction env (Py.strip raw) (e :: es));
      [|discriminate].
    cbn [bind] in H. eapply IH; eauto.
Qed.

Lemma no_correction_keyed : forall l, Forall no_correction l -> Forall keyed l.
Proof. intros l H. eapply Forall_impl; [|exact H]. intros e He. now left. Qed.

Lemma lexical_error_keyed : forall type message start stop text correction severity,
  keyed (lexical_error type message start stop text correction severity).
Proof. intros. right. cbn. discriminate. Qed.

Ltac keyed_list :=
  split_cases;
  repeat (constructor; [apply lexical_error_keyed|]);
  try constructor.

Lemma common_mistakes_keyed : forall text, Forall keyed (detect_common_mistakes text).
Proof.
  intros text. unfold detect_common_mistakes.
  apply Forall_forall. intros e He.
  apply in_flat_map in He as [[[pattern message] correction] [_ He]].
  apply in_map_iff in He as [m [<- _]]. apply lexical_error_keyed.
Qed.

Lemma double_spaces_keyed : forall text, Forall keyed (detect_double_spaces text).
Proof.
  intros text. unfold detect_double_spaces.
  apply Forall_forall. intros e He.
  apply in_map_iff in He as [m [<- _]]. apply lexical_error_keyed.
Qed.

Lemma there_is_keyed : forall env text sentence,
  Forall keyed (detect_there_is env text sentence).
Proof. intros. unfold detect_there_is. keyed_list. Qed.

Lemma sentence_errors_keyed : forall env text raw,
  Forall keyed (detect_sentence_errors env text raw).
Proof.
  intros. unfold detect_sentence_errors.
  destruct (Py.is_empty (Py.strip raw)); [constructor|].
  repeat (apply Forall_app; split); try apply there_is_keyed; keyed_list.
Qed.

Lemma spelling_keyed : forall env text, Forall keyed (detect_spelling env text).
Proof.
  intros. unfold detect_spelling.
  destruct (negb _); [|constructor].
  apply Forall_forall. intros e He.
  apply in_flat_map in He as [[orig corr] [_ He]].
  destruct (negb (orig == corr)); [|destruct He].
  destruct (Py.find orig (Py.lower text)); [|destruct He].
  destruct He as [<-|[]]. apply lexical_error_keyed.
Qed.

Lemma articles_spacy_total : forall doc prev,
  (forall t, In t doc -> tok_text t <> "") ->
  exists l, detect_articles_spacy prev doc = Ok l /\ Forall keyed l.
Proof.
  induction doc as [|t doc IH]; intros prev H; cbn.
  - eexists. split; [reflexivity | constructor].
  - destruct (IH (Some t)) as [l [El Hl]].
    { intros t' Ht'. apply H. now right. }
    rewrite El.
    assert (Ht : tok_text t <> "") by (apply H; now left).
    destruct (tok_text t) as [|c u] eqn:Et; [congruence|].
    split_cases; cbn [bind]; eexists; (split; [reflexivity|]);
      try exact Hl; (constructor; [apply lexical_error_keyed | exact Hl]).
Qed.

Lemma detect_grammar_errors_total : forall env text,
  env_wf env -> grammar_parser_wf env ->
  exists errors, detect_grammar_errors env text = Ok errors /\ Forall keyed errors.
Proof.
  intros env text Hwf Hg. unfold detect_grammar_errors.
  destruct (Py.blank text) eqn:Hb.
  { eexists. split; [reflexivity | constructor]. }
  unfold analyze_sentence_structure. rewrite Hb.
  destruct (analyze_loop_total env (sent_tokenize env text) [] [] Hwf (Forall_nil _))
    as [r Er].
  rewrite Er. cbn [bind].
  pose proof (analyze_loop_no_correction _ _ _ _ _ Er (Forall_nil _)) as Hr.
  assert (Ha : exists l,
             match nlp_grammar env with
             | Some nlp => detect_articles_spacy None (nlp text)
             | None => Ok []
             end = Ok l /\ Forall keyed l).
  { destruct (nlp_grammar env) as [nlp|] eqn:En.
    - apply articles_spacy_total. intros t Ht. eapply Hg; eauto.
    - eexists. split; [reflexivity | constructor]. }
  destruct Ha as [l [El Hl]]. rewrite El. cbn [bind].
  eexists. split; [reflexivity|].
  apply Forall_app; split;
    [|apply Forall_app; split;
      [|apply Forall_app; split;
        [|apply Forall_app; split; [|apply Forall_app; split]]]].
  - now apply no_correction_keyed.
  - apply common_mistakes_keyed.
  - apply double_spaces_keyed.
  - apply Forall_forall. intros e He.
    apply in_flat_map in He as [raw [_ He]].
    pose proof (sentence_errors_keyed env text raw) as Hs.
    rewrite Forall_forall in Hs. auto.
  - exact Hl.
  - apply spelling_keyed.
Qed.

Lemma apply_fixes_total : forall errors st,
  Forall keyed errors -> exists st', apply_fixes errors st = Ok st'.
Proof.
  induction errors as [|e es IH]; intros st H; cbn [apply_fixes]; [eauto|].
  inversion H; subst.
  assert (Hf : exists st1, fragment_fix e st = Ok st1).
  { unfold fragment_fix. destruct st as [ct chs].
    destruct (f_correction e) as [c|] eqn:Ec; [|eauto].
    destruct (nonempty c && has_type _ e); [|eauto].
    destruct (f_text e) as [o|] eqn:Et.
    - destruct (Py.contains o ct); eauto.
    - destruct H2 as [H2|H2]; congruence. }
  destruct Hf as [st1 Hf]. rewrite Hf. cbn [bind]. now apply IH.
Qed.

Lemma correct_grammar_total : forall env text use_ai,
  env_wf env -> grammar_parser_wf env ->
  exists r, correct_grammar env text use_ai = Ok r.
Proof.
  intros env text use_ai Hwf Hg. unfold correct_grammar.
  destruct (Py.blank text); [eauto|].
  destruct (ai_stage env text use_ai) as [r|] eqn:Ea; [eauto|].
  destruct (correct_sentence_structure_total env text Hwf) as [sc Hsc].
  rewrite Hsc. cbn [bind].
  destruct (_ && _); [eauto|].
  destruct (detect_grammar_errors_total env text Hwf Hg) as [errors [He Hk]].
  rewrite He. cbn [bind].
  destruct (apply_fixes_total (sort_desc errors) (sr_corrected sc, sr_changes sc))
    as [st1 H1].
  { now apply sort_desc_Forall. }
  unfold rule_based_stage. rewrite H1. cbn [bind].
  destruct (formatting_stage env _) as [cf chf]. eauto.
Qed.

(** X9. [correct_grammar] does not raise when the libraries are as
    the code expects them (NLTK finds a token in a sentence that is
    not blank, spaCy tokens have a text): no [words[0]] on an empty
    list, no [error["text"]] on an error without text.  The caller
    always receives a result, whose [original] is the text. *)
Theorem correct_grammar_returns :
  forall env text use_ai,
    env_wf env -> grammar_parser_wf env ->
    exists r, correct_grammar env text use_ai = Ok r /\ gr_original r = text.
Proof.
  intros env text use_ai Hwf Hg.
  destruct (correct_grammar_total env text use_ai Hwf Hg) as [r Hr].
  exists r. split; [exact Hr|]. eapply correct_grammar_original; eauto.
Qed.

Lemma correct_grammar_returns_witness :
  exists r, correct_grammar plain_env "He is bigger than me" true = Ok r
            /\ gr_original r = "He is bigger than me".
Proof.
  apply (correct_grammar_returns plain_env "He is bigger than me" true).
  - exact plain_env_wf.
  - intros nlp s t H. discriminate H.
Defined.

(** ** The sort of the errors *)

Lemma insert_desc_perm : forall x l, Permutation (x :: l) (insert_desc x l).
Proof.
  induction l as [|y l IH]; cbn; [reflexivity|].
  destruct (start_key x <? start_key y)%Z; [|reflexivity].
  rewrite perm_swap. now constructor.
Qed.

Lemma insert_desc_descending : forall x l,
  descending l -> descending (insert_desc x l).
Proof.
  induction l as [|y l IH]; cbn; intros H.
  - split; [constructor | exact I].
  - destruct H as [Hy Hl].
    destruct (start_key x <? start_key y)%Z eqn:E.
    + cbn. split; [|now apply IH].
      apply Z.ltb_lt in E.
      eapply Permutation_Forall; [apply insert_desc_perm|].
      constructor; [lia | exact Hy].
    + apply Z.ltb_ge in E. cbn. repeat split; try assumption.
      constructor; [exact E|].
      eapply Forall_impl; [|exact Hy]. cbn. intros a Ha. lia.
Qed.

Lemma insert_desc_with_key : forall k x l,
  descending l ->
  with_key k (insert_desc x l) = with_key k (x :: l).
Proof.
  unfold with_key. induction l as [|y l IH]; intros H; [reflexivity|].
  destruct H as [Hy Hl]. cbn [insert_desc].
  destruct (start_key x <? start_key y)%Z eqn:E; [|reflexivity].
  apply Z.ltb_lt in E. cbn [filter] in *.
  rewrite (IH Hl).
  destruct (start_key x =? k)%Z eqn:Ex; [|reflexivity].
  destruct (start_key y =? k)%Z eqn:Ey; [|reflexivity].
  apply Z.eqb_eq in Ex, Ey. lia.
Qed.

Lemma sort_desc_descending : forall l, descending (sort_desc l).
Proof.
  induction l as [|x l IH]; cbn; [exact I|].
  now apply insert_desc_descending.
Qed.

(** X10. The sort of the errors before they are applied
    ([reverse=True] on the key [start], 0 when absent) keeps every
    error, puts them in non-increasing order of the key, and keeps
    errors of equal key - among them all the errors without a span -
    in the order the detectors found them. *)
Theorem sort_desc_stable :
  forall l,
    Permutation l (sort_desc l)
    /\ descending (sort_desc l)
    /\ forall k, with_key k (sort_desc l) = with_key k l.
Proof.
  intros l. split; [|split].
  - induction l as [|x l IH]; cbn; [constructor|].
    etransitivity; [|apply insert_desc_perm]. now constructor.
  - apply sort_desc_descending.
  - intros k. induction l as [|x l IH]; [reflexivity|].
    change (sort_desc (x :: l)) with (insert_desc x (sort_desc l)).
    rewrite insert_desc_with_key by apply sort_desc_descending.
    unfold with_key in *. cbn [filter]. now rewrite IH.
Qed.

(** ** The explanation engine *)

Lemma not_blank_nonempty : forall s, Py.blank s = false -> s <> "".
Proof. intros s H ->. discriminate H. Qed.

Lemma rule_based_raises : forall original corrected e,
  original <> "" ->
  (generate_rule_based_explanations original corrected = Raised e
   <-> corrected = "" /\ e = IndexError).
Proof.
  intros original corrected e Ho. unfold generate_rule_based_explanations.
  destruct corrected as [|c u].
  - split; [intros H; inversion H; auto | intros [_ ->]; reflexivity].
  - destruct original as [|o v]; [congruence|].
    split; [|intros [H _]; discriminate H].
    destruct (Py.isupper c); [destruct (Py.islower o)|]; cbn [bind]; discriminate.
Qed.

Lemma rule_based_unchanged : forall text,
  text <> "" -> generate_rule_based_explanations text text = Ok [].
Proof.
  intros text Ht. unfold generate_rule_based_explanations.
  destruct text as [|c u] eqn:E; [congruence|]. rewrite <- E.
  destruct (Py.contains "my name is" (Py.lower text));
    destruct (Py.contains "i am a" (Py.lower text));
    destruct (Py.contains "i am an" (Py.lower text));
    destruct (Py.contains "to" (Py.lower text));
    destruct (Py.endswith_dot text);
    cbn [andb orb negb];
    repeat match goal with
           | |- context [if ?b && ?c then _ else _] => destruct (b && c)
           | |- context [if Py.contains ?a ?b then _ else _] =>
               destruct (Py.contains a b)
           end;
    (destruct (Py.isupper c) eqn:Eu;
     [rewrite (isupper_not_islower _ Eu)|]; reflexivity).
Qed.

Lemma rule_based_no_suggestions : forall original corrected l,
  generate_rule_based_explanations original corrected = Ok l ->
  Forall (fun e => ex_suggestions e = None /\ ex_type e <> "language_tool") l
  /\ length l <= 5.
Proof.
  intros original corrected l H. unfold generate_rule_based_explanations in H.
  destruct corrected as [|c u]; [discriminate|].
  set (corr := String c u) in *.
  destruct (match original with
            | "" => if Py.isupper c then Raised IndexError else Ok []
            | String o _ =>
                if Py.isupper c && Py.islower o
                then Ok [mkExplanation "capitalization"
                           "Capitalized the first letter of the sentence." None
                           "Sentences must begin with a capital letter."
                           (Some ("'" ++ original ++ "' → '" ++ corr ++ "'"))]
                else Ok []
            end) as [e4|] eqn:E4.
  - assert (H4 : Forall (fun e => ex_suggestions e = None
                                  /\ ex_type e <> "language_tool") e4
                 /\ length e4 <= 1).
    { revert E4. destruct original as [|o v].
      - destruct (Py.isupper c); [discriminate|].
        intros E; apply Ok_eq in E; subst e4. split; [constructor | cbn; lia].
      - destruct (Py.isupper c && Py.islower o);
          intros E; apply Ok_eq in E; subst e4;
          (split; [repeat constructor; discriminate | cbn; lia]). }
    assert (He : (if Py.isupper c
                  then match original with
                       | "" => Raised IndexError
                       | String o _ =>
                           if Py.islower o
                           then Ok [mkExplanation "capitalization"
                                      "Capitalized the first letter of the sentence."
                                      None
                                      "Sentences must begin with a capital letter."
                                      (Some ("'" ++ original ++ "' → '" ++ corr ++ "'"))]
                           else Ok []
                       end
                  else Ok []) = Ok e4).
    { rewrite <- E4. destruct original; destruct (Py.isupper c); reflexivity. }
    rewrite He in H. cbn [bind] in H. apply Ok_eq in H. subst l.
    destruct H4 as [H4 L4].
    split.
    + repeat (apply Forall_app; split); try exact H4;
        split_cases; repeat constructor; discriminate.
    + rewrite !length_app.
      repeat match goal with
             | |- context [length (if ?b then _ else _)] => destruct b
             end; cbn [length]; lia.
  - exfalso. revert H E4. destruct original as [|o v]; destruct (Py.isupper c);
      cbn [andb bind]; try discriminate;
      destruct (Py.islower o); cbn [bind]; discriminate.
Qed.

Lemma summary_when_changed : forall original corrected errors,
  original <> corrected ->
  generate_correction_summary original corrected errors <> summary_correct.
Proof.
  intros original corrected errors Hne. unfold generate_correction_summary.
  apply String.eqb_neq in Hne. rewrite Hne, andb_false_r.
  repeat match goal with
         | |- context [if ?b then [_] else []] => destruct b
         end; cbn; discriminate.
Qed.

(** X11. With a text to explain, [explain_correction] raises
    exactly when the corrected text is empty, and then an IndexError,
    from [corrected[0]]: LanguageTool's failures are caught, an empty
    correction is not. *)
Theorem explain_correction_raises :
  forall env language_tool original corrected e,
    fst (explain_correction env language_tool original corrected) = Raised e
    <-> Py.blank original = false /\ corrected = "" /\ e = IndexError.
Proof.
  intros env language_tool original corrected e. unfold explain_correction.
  destruct (Py.blank original) eqn:Hb; cbn [fst].
  - split; [discriminate | intros [H _]; discriminate H].
  - pose proof (rule_based_raises original corrected e (not_blank_nonempty _ Hb))
      as Hr.
    destruct (generate_rule_based_explanations original corrected) as [l|e'];
      cbn [bind].
    + split; [discriminate|]. intros [_ Hc]. apply Hr in Hc. discriminate Hc.
    + split.
      * intros H. assert (e' = e) by (inversion H; reflexivity). subst e'.
        destruct (proj1 Hr eq_refl). tauto.
      * intros [_ Hc]. apply Hr in Hc. inversion Hc. reflexivity.
Qed.

(** X12. The summary of an explanation says the sentence is correct
    exactly when the corrected text is the original one, whatever
    LanguageTool found in it; an unchanged text gets no rule-based
    explanation, so all its explanations are LanguageTool's, one for
    each error. *)
Theorem explain_correction_unchanged :
  forall env language_tool original corrected b,
    Py.blank original = false ->
    fst (explain_correction env language_tool original corrected) = Ok b ->
    (eb_summary b = summary_correct <-> original = corrected)
    /\ eb_correction_applied b = Some (negb (original == corrected))
    /\ eb_errors b = map (error_info)
                         (language_tool_matches env language_tool original)
    /\ (original = corrected ->
        eb_explanations b
        = map language_tool_explanation
              (language_tool_matches env language_tool original)).
Proof.
  intros env language_tool original corrected b Hb H.
  unfold explain_correction in H. rewrite Hb in H. cbn [fst] in H.
  fold (language_tool_matches env language_tool original) in H.
  destruct (generate_rule_based_explanations original corrected) as [l|] eqn:El;
    [|discriminate].
  cbn [bind] in H. apply Ok_eq in H. subst b.
  cbn [eb_summary eb_correction_applied eb_errors eb_explanations].
  repeat split.
  - destruct (original == corrected) eqn:E; cbn [negb].
    + intros _. now apply String.eqb_eq.
    + intros H. exfalso. apply String.eqb_neq in E.
      eapply summary_when_changed; eauto.
  - intros <-. now rewrite String.eqb_refl.
  - intros <-.
    rewrite (rule_based_unchanged original (not_blank_nonempty _ Hb)) in El.
    apply Ok_eq in El. subst l. apply app_nil_r.
Qed.

Lemma explain_correction_unchanged_witness :
  exists b,
    fst (explain_correction plain_env None "She is here." "She is here.") = Ok b
    /\ eb_summary b = summary_correct
    /\ eb_explanations b = [].
Proof.
  eexists. split; [reflexivity|].
  destruct (explain_correction_unchanged plain_env None "She is here."
              "She is here." _ eq_refl eq_refl) as [[_ Hs] [_ [_ He]]].
  split; [apply Hs; reflexivity | apply He; reflexivity].
Defined.

Lemma firstn_firstn_le : forall (A : Type) (l : list A),
  firstn 2 (firstn 3 l) = firstn 2 l.
Proof. intros A [|a [|b [|c l]]]; reflexivity. Qed.

Lemma flat_map_nil : forall (A B : Type) (f : A -> list B) l,
  Forall (fun a => f a = []) l -> flat_map f l = [].
Proof.
  induction l as [|a l IH]; intros H; [reflexivity|].
  inversion H; subst. cbn. rewrite H2. now apply IH.
Qed.

(** X13. The suggestions of an explanation come from LanguageTool
    alone: they are the first five, in the order of [list(set(...))],
    of the first two replacements of each error; the rule-based
    explanations never add one.  Each error keeps at most three
    replacements, and at most five rule-based explanations follow
    LanguageTool's. *)
Theorem explain_correction_suggestions :
  forall env language_tool original corrected b,
    Py.blank original = false ->
    fst (explain_correction env language_tool original corrected) = Ok b ->
    eb_suggestions b
    = firstn 5 (set_order env
                  (flat_map (fun m => firstn 2 (lt_replacements m))
                            (language_tool_matches env language_tool original)))
    /\ Forall (fun e => length (ei_suggestions e) <= 3) (eb_errors b)
    /\ length (eb_suggestions b) <= 5
    /\ length (eb_errors b) <= length (eb_explanations b)
       <= length (eb_errors b) + 5.
Proof.
  intros env language_tool original corrected b Hb H.
  unfold explain_correction in H. rewrite Hb in H. cbn [fst] in H.
  fold (language_tool_matches env language_tool original) in H.
  destruct (generate_rule_based_explanations original corrected) as [l|] eqn:El;
    [|discriminate].
  cbn [bind] in H. apply Ok_eq in H. subst b.
  cbn [eb_suggestions eb_errors eb_explanations].
  destruct (rule_based_no_suggestions _ _ _ El) as [Hl Ll].
  repeat split.
  - f_equal. f_equal. rewrite flat_map_app.
    rewrite (flat_map_nil _ _ explanation_suggestions l).
    + rewrite app_nil_r.
      induction (language_tool_matches env language_tool original)
        as [|m ms IH]; [reflexivity|].
      cbn [map flat_map]. rewrite IH. f_equal.
      unfold explanation_suggestions, language_tool_explanation.
      cbn [ex_suggestions]. apply firstn_firstn_le.
    + eapply Forall_impl; [|exact Hl].
      intros a [Ha _]. unfold explanation_suggestions. now rewrite Ha.
  - apply Forall_forall. intros e He.
    apply in_map_iff in He as [m [<- _]].
    unfold error_info. cbn [ei_suggestions].
    rewrite length_firstn. lia.
  - rewrite length_firstn. lia.
  - rewrite length_app, !length_map. lia.
  - rewrite length_app, !length_map. lia.
Qed.

Lemma explain_correction_suggestions_witness :
  exists b,
    fst (explain_correction plain_env None "i like play" "I like to play.") = Ok b
    /\ eb_suggestions b = firstn 5 (set_order plain_env []).
Proof.
  eexists. split; [reflexivity|].
  exact (proj1 (explain_correction_suggestions plain_env None "i like play"
                  "I like to play." _ eq_refl eq_refl)).
Defined.

(** ** The correction of a paragraph *)

Lemma contextual_changes_indexed : forall sentences corrected_sentences i,
  Forall (fun c => i <= pc_sentence_index c < i + length sentences)
         (contextual_changes i sentences corrected_sentences).
Proof.
  induction sentences as [|s ss IH]; intros cs i; cbn [contextual_changes];
    [constructor|].
  destruct cs as [|c cs]; [constructor|].
  apply Forall_app. split.
  - destruct (negb _); repeat constructor; cbn; lia.
  - eapply Forall_impl; [|apply IH]. cbn. intros a Ha. lia.
Qed.

Lemma sentence_by_sentence_indexed : forall env use_ai count sentences i r,
  sentence_by_sentence env use_ai count i sentences = Ok r ->
  Forall (fun c => i <= pc_sentence_index c < i + length sentences) (snd r)
  /\ length (fst r) = length sentences.
Proof.
  induction sentences as [|s ss IH]; intros i r H; cbn [sentence_by_sentence] in H.
  - apply Ok_eq in H. subst r. split; [constructor | reflexivity].
  - destruct (correct_grammar env s use_ai) as [correction|]; [|discriminate].
    cbn [bind] in H.
    destruct (sentence_by_sentence env use_ai count (S i) ss) as [rest|] eqn:Er;
      [|discriminate].
    cbn [bind] in H. apply Ok_eq in H. subst r. cbn [fst snd length].
    destruct (IH _ _ Er) as [H1 H2]. split; [|now rewrite H2].
    apply Forall_app. split.
    + apply Forall_forall. intros c Hc.
      apply in_map_iff in Hc as [ch [<- _]]. cbn. lia.
    + eapply Forall_impl; [|exact H1]. cbn. intros a Ha. lia.
Qed.

Lemma sentence_by_sentence_unchanged : forall env count sentences i r,
  sentence_by_sentence env false count i sentences = Ok r ->
  snd r = [] -> fst r = sentences.
Proof.
  induction sentences as [|s ss IH]; intros i r H Hnil;
    cbn [sentence_by_sentence] in H.
  - apply Ok_eq in H. now subst r.
  - destruct (correct_grammar env s false) as [correction|] eqn:Ec; [|discriminate].
    cbn [bind] in H.
    destruct (sentence_by_sentence env false count (S i) ss) as [rest|] eqn:Er;
      [|discriminate].
    cbn [bind] in H. apply Ok_eq in H. subst r. cbn [fst snd] in *.
    apply app_eq_nil in Hnil as [H1 H2].
    apply map_eq_nil in H1.
    rewrite (IH _ _ Er H2). f_equal.
    destruct (correct_grammar_accounts _ _ _ _ Ec) as [_ Hu].
    apply Hu; [|exact H1]. eapply correct_grammar_off_method; eauto.
Qed.

Lemma sentence_by_sentence_total : forall env use_ai count sentences i,
  env_wf env -> grammar_parser_wf env ->
  exists r, sentence_by_sentence env use_ai count i sentences = Ok r.
Proof.
  induction sentences as [|s ss IH]; intros i Hwf Hg; cbn [sentence_by_sentence];
    [eauto|].
  destruct (correct_grammar_total env s use_ai Hwf Hg) as [c ->].
  destruct (IH (S i) Hwf Hg) as [rest ->]. cbn [bind]. eauto.
Qed.

(** X14. The dictionary [correct_paragraph_with_context] builds for a
    paragraph: [original] is the text as given; without a method the
    text was blank and is handed back; otherwise the method is
    "ai_contextual" or "sentence_by_sentence", the sentence count is
    the number of sentences NLTK finds in the stripped text and is not
    one, [corrections_applied] is the length of [changes], and every
    change carries the index of a sentence of the paragraph.  An
    "ai_contextual" result is stripped, not empty, and not the text. *)
Theorem paragraph_result_invariants :
  forall env text use_ai r,
    correct_paragraph_with_context env text use_ai = Ok (Paragraph r) ->
    let count := length (sent_tokenize env (Py.strip text)) in
    pr_original r = text
    /\ pr_context_preserved r = true
    /\ match pr_method r with
       | None =>
           Py.blank text = true /\ pr_corrected r = text /\ pr_changes r = []
       | Some method =>
           Py.blank text = false
           /\ (method = "ai_contextual" \/ method = "sentence_by_sentence")
           /\ pr_sentence_count r = Some count
           /\ count <> 1
           /\ pr_corrections_applied r = Some (length (pr_changes r))
           /\ indexed_below count (pr_changes r)
           /\ (method = "ai_contextual" ->
               pr_corrected r <> text
               /\ pr_corrected r <> ""
               /\ stripped (pr_corrected r))
       end.
Proof.
  intros env text use_ai r H count. subst count.
  unfold correct_paragraph_with_context in H.
  destruct (Py.blank text) eqn:Hb.
  { inversion H. cbn. auto. }
  set (sentences := sent_tokenize env (Py.strip text)) in *.
  destruct (length sentences =? 1) eqn:E1.
  { destruct (correct_grammar env text use_ai); discriminate H. }
  apply Nat.eqb_neq in E1.
  destruct (contextual_ai_stage env text sentences use_ai) as [r'|] eqn:Ea.
  - inversion H; subst r'. clear H. revert Ea. unfold contextual_ai_stage.
    destruct (use_ai && is_ai_available env); [|discriminate].
    destruct (generate_ai_response env _ _) as [ai|]; [|discriminate].
    destruct (nonempty ai && nonempty (Py.strip ai) && negb (Py.strip ai == text))
      eqn:E; [|discriminate].
    intros Ea. inversion Ea. cbn.
    apply andb_true_iff in E as [E E3]. apply andb_true_iff in E as [_ E2].
    apply nonempty_true in E2. apply negb_true_iff, String.eqb_neq in E3.
    split; [reflexivity|]. split; [reflexivity|]. split; [reflexivity|].
    split; [now left|]. split; [reflexivity|]. split; [exact E1|].
    split; [reflexivity|]. split.
    + eapply Forall_impl; [|apply contextual_changes_indexed].
      cbn. intros a Ha. lia.
    + intros _. split; [exact E3|]. split; [exact E2 | apply stripped_strip].
  - destruct (sentence_by_sentence env use_ai (length sentences) 0 sentences)
      as [[cs chs]|] eqn:El; [|discriminate].
    cbn [bind] in H. inversion H. cbn.
    destruct (sentence_by_sentence_indexed _ _ _ _ _ _ El) as [Hi _].
    split; [reflexivity|]. split; [reflexivity|]. split; [reflexivity|].
    split; [now right|]. split; [reflexivity|]. split; [exact E1|].
    split; [reflexivity|]. split.
    + eapply Forall_impl; [|exact Hi]. cbn. intros a Ha. lia.
    + intros Hm. discriminate Hm.
Qed.

Lemma paragraph_result_invariants_witness :
  exists r,
    correct_paragraph_with_context paragraph_env "i like play. She is here."
      true = Ok (Paragraph r)
    /\ pr_original r = "i like play. She is here."
    /\ pr_method r = Some "sentence_by_sentence"
    /\ pr_sentence_count r = Some 2.
Proof.
  eexists. split; [vm_compute; reflexivity|].
  pose proof (paragraph_result_invariants paragraph_env
                "i like play. She is here." true _ eq_refl) as H.
  cbv zeta in H. destruct H as [H1 [_ H3]].
  split; [exact H1|]. split; [reflexivity|].
  cbn [pr_method] in H3. destruct H3 as [_ [_ [H4 _]]]. exact H4.
Defined.

(** X15. Without the AI, a paragraph that comes back with an empty
    change list has as corrected text its sentences joined by single
    spaces: every sentence is left as NLTK cut it, and the white space
    between and around the sentences is not kept. *)
Theorem paragraph_unchanged_is_rejoined :
  forall env text r,
    correct_paragraph_with_context env text false = Ok (Paragraph r) ->
    pr_changes r = [] ->
    pr_corrected r
    = if Py.blank text then text
      else Py.join_space (sent_tokenize env (Py.strip text)).
Proof.
  intros env text r H Hnil.
  unfold correct_paragraph_with_context in H.
  destruct (Py.blank text) eqn:Hb.
  { inversion H. reflexivity. }
  set (sentences := sent_tokenize env (Py.strip text)) in *.
  destruct (length sentences =? 1).
  { destruct (correct_grammar env text false); discriminate H. }
  cbn [contextual_ai_stage andb] in H.
  destruct (sentence_by_sentence env false (length sentences) 0 sentences)
    as [[cs chs]|] eqn:El; [|discriminate].
  cbn [bind] in H. inversion H; subst r. cbn in *. subst chs.
  f_equal. exact (sentence_by_sentence_unchanged _ _ _ _ _ El eq_refl).
Qed.

Lemma paragraph_unchanged_is_rejoined_witness :
  exists r,
    correct_paragraph_with_context paragraph_env "I am happy.   She is here."
      false = Ok (Paragraph r)
    /\ pr_changes r = []
    /\ pr_corrected r = "I am happy. She is here.".
Proof.
  eexists. split; [vm_compute; reflexivity|].
  split; [reflexivity|].
  exact (paragraph_unchanged_is_rejoined paragraph_env
           "I am happy.   She is here." _ eq_refl eq_refl).
Defined.

(** X16. [correct_paragraph_with_context] does not raise when the
    libraries are as the code expects them, and it hands a single
    sentence to [correct_grammar] as it is, white space included: the
    answer is [correct_grammar]'s exactly when the text is not blank
    and NLTK finds one sentence in it. *)
Theorem correct_paragraph_returns :
  forall env text use_ai,
    env_wf env -> grammar_parser_wf env ->
    exists outcome,
      correct_paragraph_with_context env text use_ai = Ok outcome
      /\ forall r,
           outcome = SingleSentence r
           <-> Py.blank text = false
               /\ length (sent_tokenize env (Py.strip text)) = 1
               /\ correct_grammar env text use_ai = Ok r.
Proof.
  intros env text use_ai Hwf Hg. unfold correct_paragraph_with_context.
  destruct (Py.blank text) eqn:Hb.
  { eexists. split; [reflexivity|]. intros r.
    split; [discriminate | intros [H _]; discriminate H]. }
  set (sentences := sent_tokenize env (Py.strip text)).
  destruct (length sentences =? 1) eqn:E1.
  - destruct (correct_grammar_total env text use_ai Hwf Hg) as [r0 Hr].
    rewrite Hr. cbn [bind]. eexists. split; [reflexivity|]. intros r.
    apply Nat.eqb_eq in E1. split.
    + intros H. inversion H. auto.
    + intros [_ [_ H]]. congruence.
  - apply Nat.eqb_neq in E1.
    destruct (contextual_ai_stage env text sentences use_ai) as [r'|].
    + eexists. split; [reflexivity|]. intros r.
      split; [discriminate | intros [_ [H _]]; congruence].
    + destruct (sentence_by_sentence_total env use_ai (length sentences) sentences 0
                  Hwf Hg) as [[cs chs] ->].
      cbn [bind]. eexists. split; [reflexivity|]. intros r.
      split; [discriminate | intros [_ [H _]]; congruence].
Qed.

Lemma correct_paragraph_returns_witness :
  exists outcome,
    correct_paragraph_with_context plain_env " i like play " false = Ok outcome
    /\ exists r, outcome = SingleSentence r /\ gr_original r = " i like play ".
Proof.
  destruct (correct_paragraph_returns plain_env " i like play " false)
    as [outcome [H1 H2]].
  - exact plain_env_wf.
  - intros nlp s t H. discriminate H.
  - exists outcome. split; [exact H1|].
    eexists. split.
    + apply H2. split; [reflexivity|]. split; [reflexivity|].
      vm_compute. reflexivity.
    + reflexivity.
Defined.

(** ** What the method of correct_grammar says of the result *)

Lemma adds_refl : forall P st, adds P st st.
Proof. intros P st. exists []. split; [now rewrite app_nil_r | constructor]. Qed.

Lemma adds_trans : forall P a b c, adds P a b -> adds P b c -> adds P a c.
Proof.
  intros P a b c [x [Hx1 Hx2]] [y [Hy1 Hy2]].
  exists (x ++ y)%list. split.
  - now rewrite Hy1, Hx1, app_assoc.
  - now apply Forall_app.
Qed.

Lemma adds_one : forall (P : Change -> Prop) t t' ch c,
  P c -> adds P (t, ch) (t', (ch ++ [c])%list).
Proof. intros. exists [c]. split; [reflexivity | now repeat constructor]. Qed.

Lemma str_in_In : forall s l, Py.str_in s l = true -> In s l.
Proof.
  unfold Py.str_in. intros s l H.
  apply existsb_exists in H as [x [Hx E]].
  apply String.eqb_eq in E. now subst x.
Qed.

Lemma edit_known : forall type original corrected message,
  In type edit_types ->
  known_change (mkChange type original corrected (Some message) None).
Proof. intros. right. cbn. repeat split; [assumption | discriminate]. Qed.

Lemma fragment_fix_adds : forall e st st',
  fragment_fix e st = Ok st' -> adds known_change st st'.
Proof.
  unfold fragment_fix. intros e [ct chs] st' H.
  destruct (f_correction e) as [c|]; [|inversion H; apply adds_refl].
  destruct (nonempty c && has_type _ e) eqn:E; [|inversion H; apply adds_refl].
  destruct (f_text e) as [o|]; [|discriminate].
  destruct (Py.contains o ct); inversion H; [|apply adds_refl].
  apply adds_one, edit_known.
  apply andb_true_iff in E as [_ E]. apply str_in_In in E.
  unfold edit_types. cbn in *. intuition.
Qed.

Lemma sentence_fix_adds : forall e st, adds known_change st (sentence_fix e st).
Proof.
  unfold sentence_fix. intros e [ct chs].
  destruct (has_type _ e) eqn:E; [|apply adds_refl].
  destruct (f_sentence e) as [s|]; [|apply adds_refl].
  destruct (_ && _); [|apply adds_refl].
  apply adds_one, edit_known. apply str_in_In in E.
  unfold edit_types. cbn in *. intuition.
Qed.

Lemma apply_fixes_adds : forall errors st st',
  apply_fixes errors st = Ok st' -> adds known_change st st'.
Proof.
  induction errors as [|e es IH]; intros st st' H; cbn [apply_fixes] in H.
  - inversion H. apply adds_refl.
  - destruct (fragment_fix e st) as [st1|] eqn:E1; [|discriminate].
    cbn [bind] in H.
    eapply adds_trans; [eapply fragment_fix_adds; eauto|].
    eapply adds_trans; [apply (sentence_fix_adds e)|].
    now apply IH.
Qed.

Lemma t5_stage_adds : forall env text st,
  adds known_change st (t5_stage env text st).
Proof.
  unfold t5_stage. intros env text [ct chs].
  destruct (corrector env) as [run|]; [|apply adds_refl].
  destruct (ct == text); [|apply adds_refl].
  destruct (run _) as [[|first l]|]; try apply adds_refl.
  destruct (_ && _); [|apply adds_refl].
  apply adds_one, edit_known. unfold edit_types. cbn. intuition.
Qed.

Lemma textblob_stage_adds : forall env text st,
  adds known_change st (textblob_stage env text st).
Proof.
  unfold textblob_stage. intros env text [ct chs].
  destruct (_ || _); [|apply adds_refl].
  destruct (negb _); [|apply adds_refl].
  apply adds_one, edit_known. unfold edit_types. cbn. intuition.
Qed.

Lemma formatting_stage_adds : forall env st,
  adds known_change st (formatting_stage env st).
Proof.
  unfold formatting_stage. intros env [ct chs].
  destruct (negb _); [|apply adds_refl].
  apply adds_one, edit_known. unfold edit_types. cbn. intuition.
Qed.

Lemma structure_changes_typed : forall env text sr,
  correct_sentence_structure env text = Ok sr ->
  Forall is_structure_change (sr_changes sr).
Proof.
  unfold correct_sentence_structure. intros env text sr H.
  destruct (Py.blank text).
  { inversion H. constructor. }
  destruct (analyze_sentence_structure env text) as [[errors corrections]|];
    [|discriminate].
  cbn [bind] in H.
  destruct (apply_corrections_grows corrections text []) as [extra [H1 [H2 H3]]].
  destruct (apply_corrections corrections text []) as [ct chs].
  cbn [fst snd app] in *. subst chs.
  destruct ((ct == text) && negb (length errors =? 0)).
  - destruct (pick_error errors) as [error|].
    + destruct (intelligent_correction text error) as [[ct' ch]|] eqn:Ei.
      * destruct (intelligent_correction_change _ _ _ _ Ei) as [fixed ->].
        inversion H. cbn. apply Forall_app. split; [exact H2|].
        repeat constructor; cbn; congruence.
      * inversion H. exact H2.
    + inversion H. exact H2.
  - inversion H. exact H2.
Qed.

Lemma formatting_stage_normal : forall env st,
  fst (formatting_stage env st) = normalized env (fst st).
Proof.
  unfold formatting_stage, normalized. intros env [ct chs].
  destruct (negb _) eqn:E; [reflexivity|].
  apply negb_false_iff, String.eqb_eq in E. cbn. now rewrite E.
Qed.

Lemma last_char_app : forall a b, b <> "" -> Py.last_char (a ++ b) = Py.last_char b.
Proof.
  induction a as [|c a IH]; intros b Hb; [reflexivity|].
  cbn [append Py.last_char]. rewrite (IH b Hb).
  destruct (a ++ b) eqn:E; [|reflexivity].
  destruct a; [cbn in E; congruence | discriminate E].
Qed.

Lemma formatted_nonempty : forall s, formatted s -> s <> "".
Proof. intros s [_ H] ->. discriminate H. Qed.

Lemma join_space_formatted : forall l,
  Forall formatted l -> l <> [] -> formatted (Py.join_space l).
Proof.
  induction l as [|x l IH]; intros H Hne; [congruence|].
  inversion H as [|? ? Hx Hl]; subst.
  destruct l as [|y l']; [exact Hx|].
  change (Py.join_space (x :: y :: l')) with (x ++ " " ++ Py.join_space (y :: l')).
  assert (Hj : formatted (Py.join_space (y :: l'))) by (apply IH; [exact Hl | discriminate]).
  pose proof (formatted_nonempty _ Hx) as Hx0.
  pose proof (formatted_nonempty _ Hj) as Hj0.
  destruct Hx as [Hx1 _]. destruct Hj as [_ Hj2]. split.
  - destruct x as [|c x']; [congruence | exact Hx1].
  - unfold Py.ends_terminal in *.
    rewrite last_char_app; [|now apply append_nonempty_r].
    rewrite (last_char_app " "); assumption.
Qed.

Lemma normalized_formatted : forall env c,
  normalized env c = "" \/ formatted (normalized env c).
Proof.
  intros env c. unfold normalized.
  destruct (flat_map fix_sentence (sent_tokenize env c)) as [|x l] eqn:E;
    [now left|].
  right. apply join_space_formatted; [|discriminate].
  rewrite <- E. apply Forall_forall. intros s Hs.
  apply in_flat_map in Hs as [raw [_ Hs]].
  now apply fix_sentence_normalized in Hs.
Qed.

(** X17. What the method of [correct_grammar] says of the result for
    a text that is not blank.  "ai_enhanced": the AI was asked for,
    the corrected text is stripped, not empty and not the text.
    "rule_based": the corrected text is not the text and every change
    is a structure correction, at least one.  No method: the error
    count is the number of errors [detect_grammar_errors] finds, and
    the corrected text is empty or starts with no lower-case letter
    and ends in a full stop, exclamation mark or question mark. *)
Theorem correct_grammar_result_shape :
  forall env text use_ai r,
    Py.blank text = false ->
    correct_grammar env text use_ai = Ok r ->
    match gr_method r with
    | Some method =>
        gr_corrected r <> text
        /\ gr_errors_found r <> None
        /\ ((method = "ai_enhanced" /\ use_ai = true
             /\ gr_corrected r <> "" /\ stripped (gr_corrected r))
            \/ (method = "rule_based" /\ gr_changes r <> []
                /\ Forall is_structure_change (gr_changes r)))
    | None =>
        (exists errors,
            detect_grammar_errors env text = Ok errors
            /\ gr_errors_found r = Some (length errors))
        /\ (gr_corrected r = "" \/ formatted (gr_corrected r))
    end.
Proof.
  unfold correct_grammar. intros env text use_ai r Hb H. rewrite Hb in H.
  destruct (ai_stage env text use_ai) as [r'|] eqn:Ea.
  { inversion H; subst r'. clear H. revert Ea. unfold ai_stage.
    destruct use_ai; [|discriminate].
    destruct (is_ai_available env); [|discriminate].
    destruct (generate_ai_response _ _ _) as [ai|]; [|discriminate].
    destruct (nonempty ai && nonempty (Py.strip ai) && negb (Py.strip ai == text))
      eqn:E; [|discriminate].
    destruct (correct_sentence_structure env text); [|discriminate].
    intros Ea. inversion Ea. cbn.
    apply andb_true_iff in E as [E E3]. apply andb_true_iff in E as [_ E2].
    apply nonempty_true in E2. apply negb_true_iff, String.eqb_neq in E3.
    split; [exact E3|]. split; [discriminate|]. left.
    repeat split; auto. apply stripped_strip. }
  destruct (correct_sentence_structure env text) as [sc|] eqn:Es; [|discriminate].
  cbn [bind] in H.
  destruct (negb (sr_corrected sc == text) && (0 <? length (sr_changes sc))) eqn:E.
  { inversion H. cbn. apply andb_true_iff in E as [E1 E2].
    apply negb_true_iff, String.eqb_neq in E1.
    split; [exact E1|]. split; [discriminate|]. right.
    split; [reflexivity|]. split.
    - intros Hnil. rewrite Hnil in E2. discriminate E2.
    - eapply structure_changes_typed; eauto. }
  destruct (detect_grammar_errors env text) as [errors|]; [|discriminate].
  cbn [bind] in H.
  destruct (rule_based_stage errors _) as [st1|]; [|discriminate].
  cbn [bind] in H.
  pose proof (formatting_stage_normal env
                (textblob_stage env text (t5_stage env text st1))) as Hn.
  destruct (formatting_stage env _) as [cf chf].
  inversion H. cbn in *. split; [eauto|].
  rewrite Hn. apply normalized_formatted.
Qed.

Lemma correct_grammar_result_shape_witness :
  exists r,
    correct_grammar plain_env "she is here" false = Ok r
    /\ gr_method r = None
    /\ formatted (gr_corrected r).
Proof.
  eexists. split; [vm_compute; reflexivity|]. split; [reflexivity|].
  pose proof (correct_grammar_result_shape plain_env "she is here" false _
                eq_refl eq_refl) as H.
  cbn [gr_method] in H. destruct H as [_ [H|H]]; [discriminate H | exact H].
Defined.

(** X18. Every change entry of [correct_grammar] is a structure
    correction (with the list of errors fixed and no message) or an
    edit of one of eleven types with a message and no such list. *)
Theorem correct_grammar_changes_known :
  forall env text use_ai r,
    correct_grammar env text use_ai = Ok r ->
    Forall known_change (gr_changes r).
Proof.
  unfold correct_grammar. intros env text use_ai r H.
  destruct (Py.blank text).
  { inversion H. constructor. }
  destruct (ai_stage env text use_ai) as [r'|] eqn:Ea.
  { inversion H; subst r'. clear H. revert Ea. unfold ai_stage.
    destruct use_ai; [|discriminate].
    destruct (is_ai_available env); [|discriminate].
    destruct (generate_ai_response _ _ _) as [ai|]; [|discriminate].
    destruct (_ && _); [|discriminate].
    destruct (correct_sentence_structure env text) as [sc|] eqn:Es; [|discriminate].
    intros Ea. inversion Ea. cbn.
    apply Forall_app. split.
    - destruct (negb _); [|apply Forall_nil].
      apply Forall_cons; [|apply Forall_nil].
      apply edit_known. unfold edit_types. cbn. intuition.
    - eapply Forall_impl; [|eapply structure_changes_typed; eauto].
      intros c Hc. now left. }
  destruct (correct_sentence_structure env text) as [sc|] eqn:Es; [|discriminate].
  cbn [bind] in H.
  assert (Hsc : Forall known_change (sr_changes sc)).
  { eapply Forall_impl; [|eapply structure_changes_typed; eauto].
    intros c Hc. now left. }
  destruct (_ && _).
  { inversion H. exact Hsc. }
  destruct (detect_grammar_errors env text) as [errors|]; [|discriminate].
  cbn [bind] in H.
  destruct (rule_based_stage errors _) as [st1|] eqn:E1; [|discriminate].
  cbn [bind] in H.
  assert (G : adds known_change (sr_corrected sc, sr_changes sc)
                   (formatting_stage env
                      (textblob_stage env text (t5_stage env text st1)))).
  { eapply adds_trans; [eapply apply_fixes_adds; exact E1|].
    eapply adds_trans; [apply t5_stage_adds|].
    eapply adds_trans; [apply textblob_stage_adds|].
    apply formatting_stage_adds. }
  destruct (formatting_stage env _) as [cf chf].
  inversion H. cbn. destruct G as [extra [G1 G2]]. cbn [snd] in G1.
  rewrite G1. now apply Forall_app.
Qed.

Lemma correct_grammar_changes_known_witness :
  exists r,
    correct_grammar teh_env "What teh dog did" false = Ok r
    /\ gr_changes r <> []
    /\ Forall known_change (gr_changes r).
Proof.
  eexists. split; [vm_compute; reflexivity|]. split; [discriminate|].
  exact (correct_grammar_changes_known teh_env "What teh dog did" false _ eq_refl).
Defined.

(** ** correct_text followed by explain_correction *)

Lemma explain_correction_ok : forall env language_tool original corrected,
  Py.blank original = false -> corrected <> "" ->
  exists b,
    fst (explain_correction env language_tool original corrected) = Ok b
    /\ eb_correction_applied b = Some (negb (original == corrected))
    /\ (eb_summary b = summary_correct <-> original = corrected).
Proof.
  intros env language_tool original corrected Hb Hc.
  unfold explain_correction. rewrite Hb. cbn [fst].
  destruct (generate_rule_based_explanations original corrected) as [l|e] eqn:El.
  - cbn [bind]. eexists. split; [reflexivity|]. cbn. split; [reflexivity|].
    destruct (original == corrected) eqn:E; cbn [negb].
    + apply String.eqb_eq in E. tauto.
    + apply String.eqb_neq in E. split; [|tauto].
      intros H. exfalso. eapply summary_when_changed; eauto.
  - exfalso. apply (rule_based_raises original corrected e) in El.
    + tauto.
    + now apply not_blank_nonempty.
Qed.

Lemma explain_correction_empty : forall env language_tool original,
  Py.blank original = false ->
  fst (explain_correction env language_tool original "") = Raised IndexError.
Proof.
  intros env language_tool original Hb. unfold explain_correction.
  rewrite Hb. cbn [fst]. unfold generate_rule_based_explanations. reflexivity.
Qed.

Lemma correct_text_cases : forall env text use_model,
  Py.blank text = false ->
  let r := correct_text env text use_model in
  (tr_method r = "t5_model" /\ use_model = true)
  \/ (tr_method r = "rule_based" /\ tr_corrected r <> ""
      /\ tr_corrected r <> Py.strip text)
  \/ (tr_method r = "none" /\ tr_corrected r = Py.strip text).
Proof.
  intros env text use_model Hb r. subst r. unfold correct_text. rewrite Hb.
  destruct (model_stage env (Py.strip text) use_model) eqn:Em.
  { left. split; [reflexivity|]. destruct use_model; [reflexivity | discriminate Em]. }
  destruct (structure_stage env (Py.strip text)) as [c|] eqn:Es.
  - right. left. cbn. split; [reflexivity|].
    unfold structure_stage in Es.
    destruct (correct_sentence_structure env (Py.strip text)) as [sr|];
      [|discriminate].
    destruct (nonempty (ensure_format (sr_corrected sr))
              && negb (ensure_format (sr_corrected sr) == Py.strip text)) eqn:E;
      [|discriminate].
    inversion Es; subst c. apply andb_true_iff in E as [E1 E2].
    apply nonempty_true in E1. apply negb_true_iff, String.eqb_neq in E2. auto.
  - right. right. cbn. auto.
Qed.

(** X19. The correction endpoint hands [correct_text]'s corrected
    text to [explain_correction] together with the stripped text.  For
    a text that is not blank the explanation raises exactly when the
    transformer branch answered with white space only (method
    "t5_model", empty corrected text), and then an IndexError; with
    "none" it reports a correct sentence and no correction applied;
    with "rule_based" it reports a correction applied and never a
    correct sentence. *)
Theorem correction_then_explanation :
  forall env language_tool text use_model,
    Py.blank text = false ->
    let original := Py.strip text in
    let r := correct_text env original use_model in
    let outcome :=
      fst (explain_correction env language_tool original (tr_corrected r)) in
    (forall e,
        outcome = Raised e
        <-> tr_method r = "t5_model" /\ tr_corrected r = "" /\ e = IndexError)
    /\ (tr_method r = "none" ->
        exists b, outcome = Ok b
                  /\ eb_summary b = summary_correct
                  /\ eb_correction_applied b = Some false)
    /\ (tr_method r = "rule_based" ->
        exists b, outcome = Ok b
                  /\ eb_summary b <> summary_correct
                  /\ eb_correction_applied b = Some true).
Proof.
  intros env language_tool text use_model Hb original r outcome.
  assert (Hs : Py.blank original = false) by now apply blank_strip.
  assert (Ho : original <> "") by now apply not_blank_nonempty.
  pose proof (correct_text_cases env original use_model Hs) as Hc.
  cbv zeta in Hc. fold r in Hc.
  replace (Py.strip original) with original in Hc
    by (unfold original; now rewrite strip_idem).
  split; [|split].
  - intros e. split.
    + intros H.
      destruct (string_dec (tr_corrected r) "") as [E|E].
      * subst outcome. rewrite E in H.
        rewrite (explain_correction_empty env language_tool original Hs) in H.
        inversion H. subst e.
        destruct Hc as [[Hm _]|[[_ [Hn _]]|[_ Hn]]]; [auto | congruence | congruence].
      * destruct (explain_correction_ok env language_tool original _ Hs E)
          as [b [Hok _]].
        subst outcome. rewrite Hok in H. discriminate H.
    + intros [_ [E ->]]. subst outcome. rewrite E.
      now apply explain_correction_empty.
  - intros Hm.
    destruct Hc as [[Hm' _]|[[Hm' _]|[_ Hn]]]; try congruence.
    destruct (explain_correction_ok env language_tool original (tr_corrected r) Hs)
      as [b [Hok [Ha Hsum]]]; [congruence|].
    exists b. split; [exact Hok|]. split.
    + apply Hsum. now rewrite Hn.
    + rewrite Ha, Hn, String.eqb_refl. reflexivity.
  - intros Hm.
    destruct Hc as [[Hm' _]|[[_ [Hn1 Hn2]]|[Hm' _]]]; try congruence.
    destruct (explain_correction_ok env language_tool original (tr_corrected r) Hs
                Hn1) as [b [Hok [Ha Hsum]]].
    exists b. split; [exact Hok|]. split.
    + intros H. apply Hsum in H. congruence.
    + rewrite Ha. f_equal. apply negb_true_iff, String.eqb_neq. congruence.
Qed.

Lemma correction_then_explanation_witness :
  tr_method (correct_text blank_model_env "the cat" true) = "t5_model"
  /\ fst (explain_correction blank_model_env None "the cat"
            (tr_corrected (correct_text blank_model_env "the cat" true)))
     = Raised IndexError.
Proof.
  split; [reflexivity|].
  apply (proj1 (correction_then_explanation blank_model_env None "the cat" true
                  eq_refl) IndexError).
  repeat split; reflexivity.
Defined.

(** ** The corrections of the analysis, and texts without errors *)

Lemma generate_structure_correction_format : forall env sentence errors c,
  generate_structure_correction env sentence errors = Ok c ->
  exists c0, c = ensure_format c0.
Proof.
  unfold generate_structure_correction. intros env sentence errors c H.
  destruct (structure_correction_loop _ _ _) as [c1|]; [|discriminate].
  cbn [bind] in H. apply Ok_eq in H. eauto.
Qed.

Lemma analyze_loop_sound : forall env all sentences errors corrections r,
  (forall raw, In raw sentences -> In raw all) ->
  analyze_loop env sentences errors corrections = Ok r ->
  (exists more, fst r = (errors ++ more)%list)
  /\ (fst r = [] -> snd r = corrections)
  /\ length (snd r) <= length corrections + length sentences
  /\ (Forall (sound_correction all) corrections ->
      Forall (sound_correction all) (snd r)).
Proof.
  intros env all. induction sentences as [|raw ss IH];
    intros errors corrections r Hin H; cbn [analyze_loop] in H.
  - apply Ok_eq in H. subst r. cbn [fst snd length].
    split; [exists []; now rewrite app_nil_r|]. repeat split; auto. lia.
  - assert (Hin' : forall raw0, In raw0 ss -> In raw0 all)
      by (intros raw0 H0; apply Hin; now right).
    destruct (Py.is_empty (Py.strip raw)) eqn:Ee.
    { destruct (IH _ _ _ Hin' H) as [H1 [H2 [H3 H4]]].
      repeat split; auto. cbn [length]. lia. }
    apply is_empty_false in Ee.
    destruct (match nlp_structure env with
              | Some nlp => detect_structure_errors_spacy (nlp (Py.strip raw)) (Py.strip raw)
              | None => detect_structure_errors_rulebased env (Py.strip raw)
              end) as [l|]; [|discriminate].
    cbn [bind] in H.
    destruct (errors ++ l)%list as [|e es] eqn:Eapp.
    { destruct (IH _ _ _ Hin' H) as [[more H1] [H2 [H3 H4]]].
      apply app_eq_nil in Eapp as [-> ->].
      split; [exists more; exact H1|]. repeat split; auto. cbn [length]. lia. }
    destruct (generate_structure_correction env (Py.strip raw) (e :: es))
      as [c|] eqn:Eg; [|discriminate].
    cbn [bind] in H.
    destruct (IH _ _ _ Hin' H) as [[more H1] [H2 [H3 H4]]].
    split; [|split; [|split]].
    + exists (l ++ more)%list. now rewrite app_assoc, Eapp.
    + intros Hnil. rewrite Hnil in H1. discriminate H1.
    + etransitivity; [exact H3|].
      destruct (nonempty c && negb (c == Py.strip raw));
        [rewrite length_app|]; cbn [length]; lia.
    + intros Hc. apply H4.
      destruct (nonempty c && negb (c == Py.strip raw)) eqn:E; [|exact Hc].
      apply Forall_app. split; [exact Hc|].
      apply Forall_cons; [|apply Forall_nil].
      apply andb_true_iff in E as [E1 E2].
      apply nonempty_true in E1. apply negb_true_iff, String.eqb_neq in E2.
      destruct (generate_structure_correction_format _ _ _ _ Eg) as [c0 ->].
      unfold sound_correction. cbn [co_original co_corrected].
      split; [exists raw; split; [apply Hin; now left | reflexivity]|].
      repeat split; auto.
      * apply ensure_format_stripped.
      * now apply ensure_format_shape.
      * now apply ensure_format_shape.
Qed.

(** X20. The corrections [analyze_sentence_structure] offers: each is
    for a sentence of the text, stripped and not empty; the corrected
    sentence differs from it, is not empty, has no white space around
    it, starts with no lower-case letter and ends in a full stop,
    exclamation mark or question mark.  There is at most one
    correction for each sentence, and none when no error is found. *)
Theorem analysis_corrections_sound :
  forall env text errors corrections,
    analyze_sentence_structure env text = Ok (errors, corrections) ->
    Forall (sound_correction (sent_tokenize env text)) corrections
    /\ length corrections <= length (sent_tokenize env text)
    /\ (errors = [] -> corrections = []).
Proof.
  unfold analyze_sentence_structure. intros env text errors corrections H.
  destruct (Py.blank text).
  { inversion H. repeat split; auto. cbn. lia. }
  destruct (analyze_loop_sound env (sent_tokenize env text) _ _ _ _
              (fun raw Hr => Hr) H) as [_ [H2 [H3 H4]]].
  cbn [fst snd length] in *. repeat split; auto.
Qed.

Lemma analysis_corrections_sound_witness :
  exists errors corrections,
    analyze_sentence_structure plain_env "i nishanth name" = Ok (errors, corrections)
    /\ corrections <> []
    /\ Forall (sound_correction (sent_tokenize plain_env "i nishanth name"))
              corrections.
Proof.
  eexists. eexists. split; [vm_compute; reflexivity|]. split; [discriminate|].
  exact (proj1 (analysis_corrections_sound plain_env "i nishanth name" _ _ eq_refl)).
Defined.

Lemma structure_without_errors : forall env text corrections,
  Py.blank text = false ->
  analyze_sentence_structure env text = Ok ([], corrections) ->
  correct_sentence_structure env text
  = Ok (mkStructureResult text text [] (Some 0) (Some [])).
Proof.
  intros env text corrections Hb H.
  assert (Hc : corrections = []).
  { revert H. unfold analyze_sentence_structure. rewrite Hb. intros H.
    destruct (analyze_loop_sound env (sent_tokenize env text) _ _ _ _
                (fun raw Hr => Hr) H) as [_ [H2 _]].
    now apply H2. }
  subst corrections.
  unfold correct_sentence_structure. rewrite Hb, H. cbn [bind apply_corrections].
  rewrite String.eqb_refl. reflexivity.
Qed.

(** X21. On a text in which the structure analysis finds no error,
    [correct_text] without the model only applies the closing format:
    the corrected text is the stripped text, capitalised and ended
    with a full stop where needed, and the method is "rule_based" when
    that changed it and "none" when it did not. *)
Theorem correct_text_without_errors :
  forall env text corrections,
    Py.blank text = false ->
    analyze_sentence_structure env (Py.strip text) = Ok ([], corrections) ->
    let original := Py.strip text in
    correct_text env text false
    = mkTextResult original (ensure_format original)
        (if ensure_format original == original then "none" else "rule_based").
Proof.
  intros env text corrections Hb H original.
  assert (Hs : Py.blank original = false) by now apply blank_strip.
  unfold correct_text. rewrite Hb. cbn [model_stage]. fold original.
  unfold structure_stage.
  rewrite (structure_without_errors env original corrections Hs H).
  cbn [sr_corrected].
  assert (Hne : nonempty (ensure_format original) = true).
  { pose proof (not_blank_nonempty _ Hs) as Ho.
    rewrite (ensure_format_unfold _ Ho).
    unfold original. rewrite strip_idem. fold original.
    destruct (capitalize_and_stop_shape original Ho) as [Hn _].
    destruct (capitalize_and_stop original); [congruence | reflexivity]. }
  rewrite Hne. cbn [andb].
  destruct (ensure_format original == original) eqn:E; cbn [negb];
    [|reflexivity].
  apply String.eqb_eq in E. now rewrite E.
Qed.

Lemma correct_text_without_errors_witness :
  correct_text plain_env " she is happy today " false
  = mkTextResult "she is happy today" "She is happy today." "rule_based".
Proof.
  exact (correct_text_without_errors plain_env " she is happy today " []
           eq_refl eq_refl).
Defined.

(** X22. On a text in which [detect_grammar_errors] finds no error
    and which TextBlob leaves alone, [correct_grammar] without the AI
    and without the T5 corrector only applies the formatting stage:
    the corrected text is the sentences NLTK finds, each capitalised
    and ended with a full stop where needed, joined by single spaces;
    the one change, if the text is not that already, is a
    "formatting" change; the error count is 0 and there is no
    method. *)
Theorem correct_grammar_without_errors :
  forall env text,
    Py.blank text = false ->
    detect_grammar_errors env text = Ok [] ->
    corrector env = None ->
    textblob_correct env text = text ->
    correct_grammar env text false
    = Ok (mkGrammarResult text (normalized env text)
            (if normalized env text == text then []
             else [formatting_change text (normalized env text)])
            (Some 0) None).
Proof.
  intros env text Hb Hd Hc Ht.
  assert (Ha : exists corrections,
             analyze_sentence_structure env text = Ok ([], corrections)).
  { revert Hd. unfold detect_grammar_errors. rewrite Hb.
    destruct (analyze_sentence_structure env text) as [[errors corrections]|];
      [|discriminate].
    cbn [bind fst].
    destruct (match nlp_grammar env with
              | Some nlp => detect_articles_spacy None (nlp text)
              | None => Ok []
              end); [|discriminate].
    cbn [bind]. intros Hd. apply Ok_eq in Hd.
    apply app_eq_nil in Hd as [-> _]. eauto. }
  destruct Ha as [corrections Ha].
  unfold correct_grammar. rewrite Hb, ai_stage_off.
  rewrite (structure_without_errors env text corrections Hb Ha).
  cbn [bind sr_corrected sr_changes length]. rewrite String.eqb_refl.
  cbn [negb andb]. rewrite Hd. cbn [bind].
  unfold rule_based_stage. cbn [sort_desc fold_right apply_fixes bind].
  unfold t5_stage. rewrite Hc.
  unfold textblob_stage. cbn [length Nat.eqb orb]. rewrite Ht, String.eqb_refl.
  cbn [negb]. unfold formatting_stage. fold (normalized env text).
  destruct (normalized env text == text) eqn:E; cbn [negb].
  - apply String.eqb_eq in E. now rewrite E.
  - reflexivity.
Qed.

Lemma correct_grammar_without_errors_witness :
  correct_grammar plain_env "She is here." false
  = Ok (mkGrammarResult "She is here." "She is here." [] (Some 0) None).
Proof.
  exact (correct_grammar_without_errors plain_env "She is here."
           eq_refl eq_refl eq_refl eq_refl).
Defined.

(** ** The spans of the errors found by regular expressions *)

Lemma drop_drop : forall a b s, Py.drop a (Py.drop b s) = Py.drop (b + a) s.
Proof.
  intros a b. revert a. induction b as [|b IH]; intros a s; [reflexivity|].
  destruct s as [|c s]; cbn [Py.drop Nat.add].
  - destruct a; reflexivity.
  - apply IH.
Qed.

Lemma length_drop : forall n s,
  String.length (Py.drop n s) = String.length s - n.
Proof.
  induction n as [|n IH]; intros s; cbn [Py.drop].
  - lia.
  - destruct s as [|c s]; [reflexivity|]. cbn [String.length]. rewrite IH. lia.
Qed.

Lemma reaches_refl : forall st, reaches st st.
Proof. intros st. exists 0. repeat split; [lia | lia]. Qed.

Lemma reaches_trans : forall a b c, reaches a b -> reaches b c -> reaches a c.
Proof.
  intros a b c [n [N1 [N2 N3]]] [m [M1 [M2 M3]]].
  exists (n + m). rewrite N3, length_drop in M2. repeat split.
  - lia.
  - lia.
  - now rewrite M3, N3, drop_drop.
Qed.

Lemma rep_reaches : forall p rest min pos prev caps k res,
  Re.rep p min pos prev rest caps k = Some res ->
  exists st', reaches (Re.mkState pos prev rest caps) st' /\ k st' = Some res.
Proof.
  induction rest as [|c rest IH]; intros min pos prev caps k res H;
    cbn [Re.rep] in H.
  - destruct (min =? 0); [|discriminate].
    eexists. split; [apply reaches_refl | exact H].
  - assert (Hstop : (if min =? 0
                     then k (Re.mkState pos prev (String c rest) caps)
                     else None) = Some res ->
                    exists st', reaches (Re.mkState pos prev (String c rest) caps) st'
                                /\ k st' = Some res).
    { destruct (min =? 0); [|discriminate]. intros Hk.
      eexists. split; [apply reaches_refl | exact Hk]. }
    destruct (p c); [|auto].
    destruct (Re.rep p (Nat.pred min) (S pos) (Some c) rest caps k) as [r|] eqn:E;
      [|auto].
    inversion H; subst r.
    destruct (IH _ _ _ _ _ _ E) as [st' [[n [N1 [N2 N3]]] Hk]].
    exists st'. split; [|exact Hk].
    exists (S n). cbn in *. repeat split; [lia | lia | exact N3].
Qed.

Lemma run_reaches : forall ic r st k res,
  Re.run ic r st k = Some res ->
  exists st', reaches st st' /\ k st' = Some res.
Proof.
  intros ic. induction r as [c|p min|r1 IH1 r2 IH2|r1 IH1 r2 IH2|r1 IH1|n r1 IH1| | | |];
    intros st k res H; cbn [Re.run] in H.
  - destruct (Re.rs_rest st) as [|a rest'] eqn:Er; [discriminate|].
    destruct (if ic then _ else _); [|discriminate].
    eexists. split; [|exact H].
    exists 1. cbn. rewrite Er. cbn. repeat split; lia.
  - destruct (rep_reaches _ _ _ _ _ _ _ _ H) as [st' [[n [N1 [N2 N3]]] Hk]].
    exists st'. split; [|exact Hk]. exists n. cbn in *. auto.
  - destruct (IH1 _ _ _ H) as [st1 [R1 H1]].
    destruct (IH2 _ _ _ H1) as [st2 [R2 H2]].
    exists st2. split; [eapply reaches_trans; eauto | exact H2].
  - destruct (Re.run ic r1 st k) as [x|] eqn:E.
    + inversion H; subst x. eauto.
    + eauto.
  - destruct (Re.run ic r1 st k) as [x|] eqn:E.
    + inversion H; subst x. eauto.
    + exists st. split; [apply reaches_refl | exact H].
  - destruct (IH1 _ _ _ H) as [st1 [[m [M1 [M2 M3]]] H1]].
    eexists. split; [|exact H1]. exists m. cbn. auto.
  - destruct (Re.rs_pos st =? 0); [|discriminate].
    exists st. split; [apply reaches_refl | exact H].
  - exists st. split; [apply reaches_refl|].
    destruct (Re.rs_rest st) as [|c [|d u]]; try discriminate; [exact H|].
    destruct (Ascii.eqb c _); [exact H | discriminate].
  - destruct (xorb _ _); [|discriminate].
    exists st. split; [apply reaches_refl | exact H].
  - exists st. split; [apply reaches_refl | exact H].
Qed.

Lemma try_at_span : forall ic r pos prev rest m st,
  Re.try_at ic r pos prev rest = Some (m, st) ->
  exists n,
    n <= String.length rest
    /\ Re.m_start m = pos /\ Re.m_end m = pos + n
    /\ Re.m_text m = Py.take n rest
    /\ Re.rs_pos st = pos + n /\ Re.rs_rest st = Py.drop n rest.
Proof.
  unfold Re.try_at. intros ic r pos prev rest m st H.
  destruct (Re.run ic r _ _) as [st'|] eqn:E; [|discriminate].
  destruct (run_reaches _ _ _ _ _ E) as [st1 [[n [N1 [N2 N3]]] Hk]].
  inversion Hk; subst st1. inversion H; subst. cbn in *.
  exists n. rewrite N1. repeat split; auto. f_equal. lia.
Qed.

Lemma search_from_span : forall ic r rest pos prev m st,
  Re.search_from ic r pos prev rest = Some (m, st) ->
  exists i n,
    i + n <= String.length rest
    /\ Re.m_start m = pos + i /\ Re.m_end m = pos + i + n
    /\ Re.m_text m = Py.take n (Py.drop i rest)
    /\ Re.rs_pos st = pos + i + n /\ Re.rs_rest st = Py.drop (i + n) rest.
Proof.
  intros ic r. induction rest as [|c rest IH]; intros pos prev m st H;
    cbn [Re.search_from] in H.
  - destruct (Re.try_at ic r pos prev "") as [x|] eqn:E; [|discriminate].
    inversion H; subst x.
    destruct (try_at_span _ _ _ _ _ _ _ E) as [n [N0 [N1 [N2 [N3 [N4 N5]]]]]].
    exists 0, n. rewrite Nat.add_0_r. cbn [Py.drop Nat.add]. auto 10.
  - destruct (Re.try_at ic r pos prev (String c rest)) as [x|] eqn:E.
    + inversion H; subst x.
      destruct (try_at_span _ _ _ _ _ _ _ E) as [n [N0 [N1 [N2 [N3 [N4 N5]]]]]].
      exists 0, n. rewrite Nat.add_0_r. cbn [Py.drop Nat.add]. auto 10.
    + destruct (IH _ _ _ _ H) as [i [n [N0 [N1 [N2 [N3 [N4 N5]]]]]]].
      exists (S i), n. cbn [Py.drop Nat.add String.length].
      repeat split; auto; lia.
Qed.

Lemma finditer_aux_ascending : forall text ic r fuel pos prev rest,
  pos <= String.length text ->
  rest = Py.drop pos text ->
  ascending text pos (Re.finditer_aux fuel ic r pos prev rest).
Proof.
  intros text ic r. induction fuel as [|fuel IH]; intros pos prev rest Hp Hr;
    cbn [Re.finditer_aux]; [exact I|].
  destruct (Re.search_from ic r pos prev rest) as [[m st]|] eqn:E; [|exact I].
  destruct (search_from_span _ _ _ _ _ _ _ E) as [i [n [N0 [N1 [N2 [N3 [N4 N5]]]]]]].
  assert (Hl : String.length rest = String.length text - pos)
    by (rewrite Hr; apply length_drop).
  assert (Hm : match_in text m).
  { unfold match_in, Py.slice. rewrite N1, N2, N3, Hr, drop_drop.
    split; [lia|]. f_equal. lia. }
  assert (Hrest : Re.rs_rest st = Py.drop (Re.rs_pos st) text).
  { rewrite N5, N4, Hr, drop_drop. f_equal. lia. }
  assert (Hnext : ascending text (Re.m_end m)
                    (Re.finditer_aux fuel ic r (Re.rs_pos st) (Re.rs_prev st)
                       (Re.rs_rest st))).
  { replace (Re.m_end m) with (Re.rs_pos st) by lia.
    apply IH; [lia | exact Hrest]. }
  destruct (Re.m_start m <? Re.m_end m).
  - cbn [ascending]. split; [lia|]. split; [exact Hm | exact Hnext].
  - destruct (Re.rs_rest st) as [|c rest'] eqn:Es.
    + cbn [ascending]. split; [lia|]. split; [exact Hm | exact I].
    + cbn [ascending]. split; [lia|]. split; [exact Hm|].
      assert (Hlen : String.length (String c rest')
                     = String.length text - Re.rs_pos st)
        by (rewrite Hrest; apply length_drop).
      cbn [String.length] in Hlen.
      assert (Hasc : ascending text (S (Re.rs_pos st))
                       (Re.finditer_aux fuel ic r (S (Re.rs_pos st)) (Some c) rest')).
      { apply IH; [lia|].
        replace (S (Re.rs_pos st)) with (Re.rs_pos st + 1) by lia.
        rewrite <- drop_drop, <- Hrest. reflexivity. }
      clear - Hasc N2 N4.
      destruct (Re.finditer_aux fuel ic r (S (Re.rs_pos st)) (Some c) rest')
        as [|m' l]; [exact I|].
      cbn [ascending] in *. destruct Hasc as [H1 H2]. split; [lia | exact H2].
Qed.

Lemma finditer_ascending : forall ic r text,
  ascending text 0 (Re.finditer ic r text).
Proof.
  intros. unfold Re.finditer. apply finditer_aux_ascending; [lia | reflexivity].
Qed.

Lemma ascending_match_in : forall text l from,
  ascending text from l -> Forall (match_in text) l.
Proof.
  induction l as [|m l IH]; intros from H; [constructor|].
  destruct H as [_ [H1 H2]]. constructor; [exact H1 | eapply IH; eauto].
Qed.

Lemma finditer_match_in : forall ic r text,
  Forall (match_in text) (Re.finditer ic r text).
Proof. intros. eapply ascending_match_in, finditer_ascending. Qed.

Lemma lexical_error_span : forall text m type message correction severity,
  match_in text m ->
  span_in text (lexical_error type message (fst (match_span m)) (snd (match_span m))
                  (Re.m_text m) correction severity).
Proof.
  intros text m type message correction severity [H1 H2].
  exists (Re.m_start m), (Re.m_end m). cbn. rewrite H2. auto.
Qed.

(** X23. The errors found by regular expressions - the common
    mistakes and the double spaces of [detect_grammar_errors] - carry
    the span of their match: [0 <= start <= end <= len(text)] and
    [text] is [text[start:end]].  [re.finditer] yields the matches of
    one pattern in ascending order, none overlapping the one before,
    each within the text. *)
Theorem regex_errors_span :
  forall text,
    Forall (span_in text) (detect_common_mistakes text)
    /\ Forall (span_in text) (detect_double_spaces text)
    /\ forall ic r, ascending text 0 (Re.finditer ic r text).
Proof.
  intros text. split; [|split].
  - unfold detect_common_mistakes. apply Forall_forall. intros e He.
    apply in_flat_map in He as [[[pattern message] correction] [_ He]].
    apply in_map_iff in He as [m [<- Hm]].
    apply lexical_error_span.
    pose proof (finditer_match_in true pattern text) as Hf.
    rewrite Forall_forall in Hf. auto.
  - unfold detect_double_spaces. apply Forall_forall. intros e He.
    apply in_map_iff in He as [m [<- Hm]].
    apply lexical_error_span.
    pose proof (finditer_match_in false (Re.Rep Re.space 2) text) as Hf.
    rewrite Forall_forall in Hf. auto.
  - intros. apply finditer_ascending.
Qed.

(** ** rephrase_sentence *)

Lemma remove_redundant_types : forall patterns sentence rephrased,
  Forall (fun s => sg_type s = "redundancy" /\ sg_original s = sentence)
         (snd (remove_redundant patterns sentence rephrased)).
Proof.
  induction patterns as [|p ps IH]; intros sentence rephrased;
    cbn [remove_redundant]; [constructor|].
  destruct (Re.search true p sentence); [|apply IH].
  specialize (IH sentence (re_sub true p (grp 1) rephrased)).
  destruct (remove_redundant ps sentence _) as [final rest].
  cbn [snd] in *. constructor; [split; reflexivity | exact IH].
Qed.

Lemma break_suggestion_type : forall sentence words s,
  break_suggestion sentence words = Ok s ->
  sg_type s = "sentence_length" /\ sg_original s = sentence.
Proof.
  unfold break_suggestion. intros sentence words s H.
  destruct (find_break _ _ _) as [bp|]; [|discriminate]. cbn [bind] in H.
  destruct (Py.join_space (slice_from words bp)); [discriminate|].
  inversion H. split; reflexivity.
Qed.

Lemma rephrase_one_suggestions : forall env sentence r,
  rephrase_one env sentence = Ok r ->
  Forall (fun s => In (sg_type s) ["redundancy"; "voice"; "sentence_length"]
                   /\ sg_original s = sentence
                   /\ (sg_type s = "voice" -> sg_suggestion s = sentence))
         (snd r).
Proof.
  unfold rephrase_one. intros env sentence r H.
  pose proof (remove_redundant_types redundant_patterns sentence sentence) as Hr.
  destruct (remove_redundant redundant_patterns sentence sentence)
    as [rephrased redundancy].
  cbn [snd] in Hr.
  destruct (if 80 <? String.length sentence
            then s <- break_suggestion sentence (word_tokenize env sentence);; Ok [s]
            else Ok []) as [long|] eqn:El; [|discriminate].
  cbn [bind] in H. apply Ok_eq in H. subst r. cbn [snd].
  apply Forall_app. split; [|apply Forall_app; split].
  - eapply Forall_impl; [|exact Hr]. cbn. intros s [H1 H2].
    rewrite H1. repeat split; auto. discriminate.
  - destruct (_ || _); [|constructor].
    constructor; [|constructor]. cbn. auto.
  - destruct (80 <? String.length sentence).
    + destruct (break_suggestion sentence (word_tokenize env sentence)) as [s|] eqn:Eb;
        [|discriminate].
      cbn [bind] in El. apply Ok_eq in El. subst long.
      destruct (break_suggestion_type _ _ _ Eb) as [H1 H2].
      constructor; [|constructor]. rewrite H1. repeat split; cbn; auto.
      discriminate.
    + apply Ok_eq in El. subst long. constructor.
Qed.

Lemma rephrase_loop_suggestions : forall env all sentences r,
  (forall raw, In raw sentences -> In raw all) ->
  rephrase_loop env sentences = Ok r ->
  Forall (fun s => In (sg_type s) ["redundancy"; "voice"; "sentence_length"]
                   /\ (exists raw, In raw all /\ sg_original s = Py.strip raw)
                   /\ sg_original s <> ""
                   /\ (sg_type s = "voice" -> sg_suggestion s = sg_original s))
         (snd r).
Proof.
  intros env all. induction sentences as [|raw ss IH]; intros r Hin H;
    cbn [rephrase_loop] in H.
  - apply Ok_eq in H. subst r. constructor.
  - assert (Hin' : forall raw0, In raw0 ss -> In raw0 all)
      by (intros raw0 H0; apply Hin; now right).
    destruct (Py.is_empty (Py.strip raw)) eqn:Ee; [now apply IH|].
    apply is_empty_false in Ee.
    destruct (rephrase_one env (Py.strip raw)) as [here|] eqn:Eh; [|discriminate].
    cbn [bind] in H.
    destruct (rephrase_loop env ss) as [rest|] eqn:Er; [|discriminate].
    cbn [bind] in H. apply Ok_eq in H. subst r. cbn [snd].
    apply Forall_app. split; [|now apply IH].
    eapply Forall_impl; [|eapply rephrase_one_suggestions; eauto].
    cbn. intros s [H1 [H2 H3]]. split; [exact H1|]. rewrite H2.
    split; [exists raw; split; [apply Hin; now left | reflexivity]|].
    split; [exact Ee | exact H3].
Qed.

Lemma Forall_firstn : forall (A : Type) (P : A -> Prop) n l,
  Forall P l -> Forall P (firstn n l).
Proof.
  intros A P n. induction n as [|n IH]; intros l H; [constructor|].
  destruct l as [|a l]; [constructor|].
  inversion H; subst. cbn [firstn]. constructor; auto.
Qed.

(** X24. The dictionary of [rephrase_sentence]: [original] is the
    text as given; a blank text comes back as it is, without
    suggestion; there are at most five suggestions.  With the AI's
    answer there is one suggestion, "ai_rephrasing", which is the
    rephrased text, stripped, not empty and not the text.  Any other
    suggestion is a "redundancy", "voice" or "sentence_length"
    suggestion for a sentence of the text, stripped and not empty,
    and a "voice" suggestion suggests the sentence itself. *)
Theorem rephrase_sentence_shape :
  forall env text style use_ai r,
    rephrase_sentence env text style use_ai = Ok r ->
    rr_original r = text
    /\ length (rr_suggestions r) <= 5
    /\ (Py.blank text = true -> rr_rephrased r = text /\ rr_suggestions r = [])
    /\ Forall
         (fun s =>
            (sg_type s = "ai_rephrasing" /\ use_ai = true
             /\ rr_suggestions r = [s]
             /\ sg_original s = text /\ sg_suggestion s = rr_rephrased r
             /\ rr_rephrased r <> text /\ rr_rephrased r <> ""
             /\ stripped (rr_rephrased r))
            \/ (In (sg_type s) ["redundancy"; "voice"; "sentence_length"]
                /\ (exists raw, In raw (sent_tokenize env text)
                                /\ sg_original s = Py.strip raw)
                /\ sg_original s <> ""
                /\ (sg_type s = "voice" -> sg_suggestion s = sg_original s)))
         (rr_suggestions r).
Proof.
  unfold rephrase_sentence. intros env text style use_ai r H.
  destruct (Py.blank text) eqn:Hb.
  { inversion H. cbn. repeat split; auto. lia. }
  destruct (rephrase_ai_stage env text style use_ai) as [r'|] eqn:Ea.
  - inversion H; subst r'. clear H. revert Ea. unfold rephrase_ai_stage.
    destruct use_ai; [|discriminate]. cbn [andb].
    destruct (is_ai_available env); [|discriminate].
    destruct (generate_ai_response env _ _) as [ai|]; [|discriminate].
    destruct (nonempty ai && nonempty (Py.strip ai) && negb (Py.strip ai == text))
      eqn:E; [|discriminate].
    intros Ea. inversion Ea. cbn.
    apply andb_true_iff in E as [E E3]. apply andb_true_iff in E as [_ E2].
    apply nonempty_true in E2. apply negb_true_iff, String.eqb_neq in E3.
    split; [reflexivity|]. split; [lia|]. split; [discriminate|].
    constructor; [|constructor]. left. cbn.
    repeat split; auto. apply stripped_strip.
  - destruct (rephrase_loop env (sent_tokenize env text)) as [[rs sg]|] eqn:El;
      [|discriminate].
    cbn [bind] in H. apply Ok_eq in H. subst r.
    cbn [rr_original rr_rephrased rr_suggestions].
    split; [reflexivity|]. split; [rewrite length_firstn; lia|].
    split; [discriminate|].
    apply Forall_firstn.
    eapply Forall_impl;
      [|exact (rephrase_loop_suggestions env _ _ _ (fun raw Hr => Hr) El)].
    cbn. intros s Hs. right. exact Hs.
Qed.

Lemma rephrase_sentence_shape_witness :
  exists r,
    rephrase_sentence plain_env "It was very good." "clear" false = Ok r
    /\ rr_original r = "It was very good."
    /\ length (rr_suggestions r) = 2.
Proof.
  eexists. split; [vm_compute; reflexivity|].
  split; [|reflexivity].
  exact (proj1 (rephrase_sentence_shape plain_env "It was very good." "clear"
                  false _ eq_refl)).
Defined.
















(** ** The primitives on examples *)

Example strip_example : Py.strip "  a b  " = "a b".
Proof. reflexivity. Qed.

Example split_example : Py.split " ab  c d " = ["ab"; "c"; "d"].
Proof. reflexivity. Qed.

Example capitalize_example : Py.capitalize "nISHANTH" = "Nishanth".
Proof. reflexivity. Qed.

Example replace_first_example : Py.replace_first "ab" "X" "cabab" = "cXab".
Proof. reflexivity. Qed.

Example replace_all_example :
  Py.replace_all "name" "name is" "my name, name" = "my name is, name is".
Proof. reflexivity. Qed.

Example dollar_rejects_full_stop :
  Re.matches false (re_i_verb_gw_opt "like") "i like play football." = false.
Proof. reflexivity. Qed.

Example dollar_accepts_final_newline :
  option_map (fun m => (Re.m_end m, Re.group 1 (Re.m_caps m), Re.group 2 (Re.m_caps m)))
    (Re.rmatch_at_start false (re_i_verb_gw_opt "like")
       ("i like play football" ++ nl))
  = Some (20, Some "play", Some "football").
Proof. reflexivity. Qed.

Example optional_group_absent :
  option_map (fun m => (Re.m_end m, Re.group 1 (Re.m_caps m), Re.group 2 (Re.m_caps m)))
    (Re.rmatch_at_start false (re_i_verb_gw_opt "like") "i like play")
  = Some (11, Some "play", None).
Proof. reflexivity. Qed.

Example greedy_dot_star :
  spans (Re.finditer true (re_twice ["your"; "you're"])
           "Your book and you're here, your pen.")
  = [(0, 31, "Your book and you're here, your")].
Proof. reflexivity. Qed.

Example word_boundaries :
  spans (Re.finditer true (re_once ["loose"; "lose"])
           "I am teh loosest or Loose. lose")
  = [(20, 25, "Loose"); (27, 31, "lose")].
Proof. reflexivity. Qed.

Example then_than :
  spans (Re.finditer true (re_once ["then"; "than"]) "then,than thank then")
  = [(0, 4, "then"); (5, 9, "than"); (16, 20, "then")].
Proof. reflexivity. Qed.

Example double_spaces :
  map (fun m => (Re.m_start m, Re.m_end m))
      (Re.finditer false (Re.Rep Re.space 2) ("a  b   c " ++ nl ++ " d"))
  = [(1, 3); (4, 7); (8, 11)].
Proof. reflexivity. Qed.

Example prepositions :
  spans (Re.finditer false (re_preposition ["interested"; "good"; "bad"])
           "i am good at it and bad  in interested in")
  = [(5, 12, "good at"); (20, 27, "bad  in"); (28, 41, "interested in")].
Proof. reflexivity. Qed.
